(** * ProyectoAnalisis: pseudocode front end and static complexity inference

    A shallow embedding of the Python sources [models.py], [parser.py],
    [knowledge_base.py], [ai_engine.py] and [analyzer.py], followed by the
    properties of the specification stated over it.

    Conventions of the embedding:
    - a Python [str] is a [string] holding the UTF-8 bytes of the text; all
      helpers below are exact on ASCII text, and the places where non-ASCII
      code points matter say what they do;
    - a raised exception is a value of [exn]; a computation that can raise
      returns [exn + A];
    - a [dict] with string keys is a [gmap string _] when it is used as a
      map (the knowledge base, the analysis context, a complexity record
      as a dictionary), and an association list in insertion order when it
      is serialised ([ASTNode.to_dict]). *)

From Stdlib Require Import ZArith NArith Ascii DecimalString.
From Stdlib Require String DecimalPos.
From stdpp Require Import base option list strings gmap.

Local Open Scope Z_scope.
Set Warnings "-register-all".

(** ** Exceptions *)

Inductive exn : Type :=
| SyntaxError (msg : string)
| ValueError (msg : string)
| AttributeError (msg : string)
| OutOfFuel
| NotModelled (what : string).
(** [OutOfFuel] and [NotModelled] are not exceptions of the program.  The
    first marks the end of the bound that the embedding puts on a loop or on
    the depth of a recursion.  The second marks the one place where the
    program goes on with a value that the embedding has no type for: a cost
    term that is not a string, in an answer of the oracle (see
    [Complexity.from_answer]). *)

Definition result (A : Type) : Type := (exn + A)%type.

Definition ok {A} (a : A) : result A := inr a.
Definition raise {A} (e : exn) : result A := inl e.

Definition rbind {A B} (r : result A) (k : A -> result B) : result B :=
  match r with
  | inl e => inl e
  | inr a => k a
  end.

(** ** Python built-ins on strings *)

Module Py.

Definition dq : ascii := "034"%char.
Definition sq : ascii := "039"%char.
Definition bsl : ascii := "092"%char.
Definition lf : ascii := "010"%char.
Definition tab : ascii := "009"%char.
Definition cr : ascii := "013"%char.

Definition chr (c : ascii) : string := String c EmptyString.

Definition code (c : ascii) : N := N_of_ascii c.

Definition in_range (lo hi : N) (c : ascii) : bool :=
  ((lo <=? code c) && (code c <=? hi))%N.

Definition is_digit (c : ascii) : bool := in_range 48 57 c.
Definition is_upper (c : ascii) : bool := in_range 65 90 c.
Definition is_lower (c : ascii) : bool := in_range 97 122 c.
Definition is_alpha (c : ascii) : bool := is_upper c || is_lower c.

(** [s.lower()], on ASCII letters. *)
Definition lower_char (c : ascii) : ascii :=
  if is_upper c then ascii_of_N (code c + 32) else c.

Fixpoint lower (s : string) : string :=
  match s with
  | EmptyString => EmptyString
  | String c s' => String (lower_char c) (lower s')
  end.

(** [s.startswith(p)] and the rest of [s] after [p]. *)
Fixpoint strip_prefix (p s : string) : option string :=
  match p, s with
  | EmptyString, _ => Some s
  | String a p', String b s' =>
      if Ascii.eqb a b then strip_prefix p' s' else None
  | String _ _, EmptyString => None
  end.

Definition startswith (p s : string) : bool :=
  match strip_prefix p s with Some _ => true | None => false end.

(** [sub in s] *)
Fixpoint contains (sub s : string) : bool :=
  startswith sub s ||
  match s with
  | EmptyString => false
  | String _ s' => contains sub s'
  end.

(** [s.split(sep)] for a one-character separator. *)
Fixpoint split (sep : ascii) (s : string) : list string :=
  match s with
  | EmptyString => [EmptyString]
  | String c s' =>
      if Ascii.eqb c sep then EmptyString :: split sep s'
      else match split sep s' with
           | [] => [chr c]
           | w :: ws => String c w :: ws
           end
  end.

(** [len(s)]: the number of code points, that is of bytes that are not
    UTF-8 continuation bytes. *)
Fixpoint len (s : string) : nat :=
  match s with
  | EmptyString => O
  | String c s' => ((if in_range 128 191 c then 0 else 1) + len s')%nat
  end.

(** [str(n)] for integers. *)
Definition str_of_Z (z : Z) : string := NilZero.string_of_int (Z.to_int z).
Definition str_of_nat (n : nat) : string := str_of_Z (Z.of_nat n).

(** Two hexadecimal digits of a byte, lower case. *)
Definition hex_digit (n : N) : ascii :=
  if (n <? 10)%N then ascii_of_N (48 + n) else ascii_of_N (87 + n).

Definition hex2 (n : N) : string :=
  String (hex_digit (N.land (N.shiftr n 4) 15))
    (String (hex_digit (N.land n 15)) EmptyString).

Definition hex4 (n : N) : string :=
  String.append (hex2 (N.land (N.shiftr n 8) 255)) (hex2 (N.land n 255)).

(** [repr(s)] of a string.  Python picks double quotes when the text has a
    single quote and no double quote, and single quotes otherwise; it
    escapes the backslash, the chosen quote, tab, line feed, carriage
    return and every other non-printable character.  ASCII is exact;
    bytes from 128 on are copied, which is what Python does for printable
    code points. *)
Definition repr_char (quote : ascii) (c : ascii) : string :=
  if Ascii.eqb c bsl then String bsl (chr bsl)
  else if Ascii.eqb c quote then String bsl (chr c)
  else if Ascii.eqb c tab then String bsl "t"
  else if Ascii.eqb c lf then String bsl "n"
  else if Ascii.eqb c cr then String bsl "r"
  else if in_range 0 31 c || Ascii.eqb c "127"%char
       then String bsl (String "x" (hex2 (code c)))
  else chr c.

Fixpoint repr_body (quote : ascii) (s : string) : string :=
  match s with
  | EmptyString => EmptyString
  | String c s' => String.append (repr_char quote c) (repr_body quote s')
  end.

Definition repr (s : string) : string :=
  let quote :=
    if contains (chr sq) s && negb (contains (chr dq) s) then dq else sq in
  String quote (String.append (repr_body quote s) (chr quote)).

(** [int(s)], base ten: surrounding white space is dropped, one sign is
    allowed, and the digits may be grouped by single underscores.  Only
    the ASCII digits and blanks are recognised, and the interpreter's
    limit on the number of digits is not modelled; neither matters for a
    text that holds a closing parenthesis, which [int] always rejects. *)
Definition is_space (c : ascii) : bool :=
  in_range 9 13 c || in_range 28 32 c.

Fixpoint lstrip (l : list ascii) : list ascii :=
  match l with
  | c :: l' => if is_space c then lstrip l' else l
  | [] => []
  end.

Definition strip (l : list ascii) : list ascii :=
  rev (lstrip (rev (lstrip l))).

Fixpoint digits (acc : Z) (after_digit : bool) (l : list ascii) : option Z :=
  match l with
  | [] => if after_digit then Some acc else None
  | c :: l' =>
      if is_digit c then digits (10 * acc + Z.of_N (code c - 48)) true l'
      else if Ascii.eqb c "_"
           then if after_digit then digits acc false l' else None
      else None
  end.

Definition int (s : string) : result Z :=
  let body := strip (String.list_ascii_of_string s) in
  let parsed :=
    match body with
    | c :: l' =>
        if Ascii.eqb c "-" then Z.opp <$> digits 0 false l'
        else if Ascii.eqb c "+" then digits 0 false l'
        else digits 0 false body
    | [] => None
    end in
  match parsed with
  | Some z => ok z
  | None =>
      raise (ValueError
               (String.append "invalid literal for int() with base 10: " (repr s)))
  end.

(** The text read backwards, byte by byte. *)
Definition reversed (s : string) : string :=
  String.string_of_list_ascii (rev (String.list_ascii_of_string s)).

(** [s.strip()] of a text.  The white space is that of [str.isspace], as
    UTF-8: U+0009 to U+000D, U+001C to U+0020, U+0085, U+00A0, U+1680,
    U+2000 to U+200A, U+2028, U+2029, U+202F, U+205F and U+3000.  With
    [back] the bytes of a code point come last to first, as at the start
    of a reversed text. *)
Definition space2 (a b : ascii) : bool :=
  Ascii.eqb a "194"%char && (Ascii.eqb b "133"%char || Ascii.eqb b "160"%char).

Definition space3 (a b c : ascii) : bool :=
  (Ascii.eqb a "225"%char && Ascii.eqb b "154"%char && Ascii.eqb c "128"%char)
  || (Ascii.eqb a "226"%char && Ascii.eqb b "128"%char
      && (in_range 128 138 c || in_range 168 169 c || Ascii.eqb c "175"%char))
  || (Ascii.eqb a "226"%char && Ascii.eqb b "129"%char && Ascii.eqb c "159"%char)
  || (Ascii.eqb a "227"%char && Ascii.eqb b "128"%char && Ascii.eqb c "128"%char).

Fixpoint str_lstrip (back : bool) (s : string) : string :=
  match s with
  | String a s1 =>
      if is_space a then str_lstrip back s1
      else
        match s1 with
        | String b s2 =>
            if (if back then space2 b a else space2 a b)
            then str_lstrip back s2
            else
              match s2 with
              | String c s3 =>
                  if (if back then space3 c b a else space3 a b c)
                  then str_lstrip back s3
                  else s
              | EmptyString => s
              end
        | EmptyString => s
        end
  | EmptyString => s
  end.

Definition str_strip (s : string) : string :=
  reversed (str_lstrip true (reversed (str_lstrip false s))).

End Py.

(** ** models.py: the AST *)

Module Models.

Inductive Expression : Type :=
| BinaryOp (left : Expression) (operator : string) (right : Expression)
| UnaryOp (operator : string) (operand : Expression)
| Literal (value : string) (type_name : string)
| Variable_ (name : string)   (* the class [Variable]; the bare word is reserved *)
| ArrayAccess (array_name : string) (index : Expression)
| FieldAccess (object_name : string) (field_name : string).

Inductive Statement : Type :=
| Assignment (target : string) (value : Expression)
| IfStatement (condition : Expression) (then_block : Block)
    (else_block : option Block)
| ForLoop (variable : string) (start_value end_value : Expression)
    (body : Block)
| WhileLoop (condition : Expression) (body : Block)
| RepeatLoop (condition : Expression) (body : Block)
| Call (procedure_name : string) (arguments : list Expression)
with Block : Type :=
| mkBlock (statements : list Statement).

Definition statements (b : Block) : list Statement :=
  match b with mkBlock l => l end.

Record ClassDef : Type :=
  mkClassDef { class_name : string; attributes : list string }.

(** The classes [Parameter] and [Program]; the bare words are reserved. *)
Record Parameter_ : Type :=
  mkParameter { param_name : string; type_info : string }.

Record ProcedureDef : Type :=
  mkProcedureDef { proc_name : string; params : list Parameter_; body : Block }.

Record Program_ : Type :=
  mkProgram { name : string; classes : list ClassDef;
              procedures : list ProcedureDef; main_block : Block }.

(** Everything that is an instance of the Python class [ASTNode]. *)
Inductive ASTNode : Type :=
| NProgram (p : Program_)
| NClassDef (c : ClassDef)
| NProcedureDef (d : ProcedureDef)
| NParameter (a : Parameter_)
| NBlock (b : Block)
| NStatement (s : Statement)
| NExpression (e : Expression).

(** The values [to_dict] builds: strings, lists, and dictionaries whose
    entries are kept in insertion order. *)
Inductive pyval : Type :=
| PStr (s : string)
| PList (l : list pyval)
| PDict (d : list (string * pyval)).

Definition pydict : Type := list (string * pyval).

(** [ASTNode.to_dict]: the fields in declaration order, [None] skipped,
    nested nodes and lists of nodes converted recursively.  The class of
    the node is not recorded. *)
Class ToDict (A : Type) : Type := to_dict : A -> pydict.

Fixpoint Expression_to_dict (e : Expression) : pydict :=
  match e with
  | BinaryOp l op r =>
      [("left", PDict (Expression_to_dict l)); ("operator", PStr op);
       ("right", PDict (Expression_to_dict r))]
  | UnaryOp op e1 =>
      [("operator", PStr op); ("operand", PDict (Expression_to_dict e1))]
  | Literal v t => [("value", PStr v); ("type_name", PStr t)]
  | Variable_ x => [("name", PStr x)]
  | ArrayAccess a i =>
      [("array_name", PStr a); ("index", PDict (Expression_to_dict i))]
  | FieldAccess ob f => [("object_name", PStr ob); ("field_name", PStr f)]
  end.

Fixpoint Statement_to_dict (s : Statement) : pydict :=
  match s with
  | Assignment t v =>
      [("target", PStr t); ("value", PDict (Expression_to_dict v))]
  | IfStatement c t e =>
      [("condition", PDict (Expression_to_dict c));
       ("then_block", PDict (Block_to_dict t))]
      ++ match e with
         | Some b => [("else_block", PDict (Block_to_dict b))]
         | None => []
         end
  | ForLoop x a b body =>
      [("variable", PStr x); ("start_value", PDict (Expression_to_dict a));
       ("end_value", PDict (Expression_to_dict b));
       ("body", PDict (Block_to_dict body))]
  | WhileLoop c body =>
      [("condition", PDict (Expression_to_dict c));
       ("body", PDict (Block_to_dict body))]
  | RepeatLoop c body =>
      [("condition", PDict (Expression_to_dict c));
       ("body", PDict (Block_to_dict body))]
  | Call p args =>
      [("procedure_name", PStr p);
       ("arguments", PList (map (fun a => PDict (Expression_to_dict a)) args))]
  end
with Block_to_dict (b : Block) : pydict :=
  match b with
  | mkBlock l =>
      [("statements",
        PList ((fix each (l : list Statement) : list pyval :=
                  match l with
                  | [] => []
                  | s :: l' => PDict (Statement_to_dict s) :: each l'
                  end) l))]
  end.

#[export] Instance Expression_ToDict : ToDict Expression := Expression_to_dict.
#[export] Instance Statement_ToDict : ToDict Statement := Statement_to_dict.
#[export] Instance Block_ToDict : ToDict Block := Block_to_dict.

#[export] Instance ClassDef_ToDict : ToDict ClassDef := fun c =>
  [("name", PStr (class_name c)); ("attributes", PList (map PStr (attributes c)))].

#[export] Instance Parameter_ToDict : ToDict Parameter_ := fun a =>
  [("name", PStr (param_name a)); ("type_info", PStr (type_info a))].

#[export] Instance ProcedureDef_ToDict : ToDict ProcedureDef := fun d =>
  [("name", PStr (proc_name d));
   ("params", PList (map (fun a => PDict (to_dict a)) (params d)));
   ("body", PDict (to_dict (body d)))].

#[export] Instance Program_ToDict : ToDict Program_ := fun p =>
  [("name", PStr (name p));
   ("classes", PList (map (fun c => PDict (to_dict c)) (classes p)));
   ("procedures", PList (map (fun d => PDict (to_dict d)) (procedures p)));
   ("main_block", PDict (to_dict (main_block p)))].

#[export] Instance ASTNode_ToDict : ToDict ASTNode := fun n =>
  match n with
  | NProgram p => to_dict p
  | NClassDef c => to_dict c
  | NProcedureDef d => to_dict d
  | NParameter a => to_dict a
  | NBlock b => to_dict b
  | NStatement s => to_dict s
  | NExpression e => to_dict e
  end.

(** The [__repr__] a dataclass generates, which is what [str(expr)] gives:
    the class name and [field=repr(value)] for every field. *)
Fixpoint Expression_str (e : Expression) : string :=
  match e with
  | BinaryOp l op r =>
      "BinaryOp(left=" +:+ Expression_str l +:+ ", operator=" +:+ Py.repr op
        +:+ ", right=" +:+ Expression_str r +:+ ")"
  | UnaryOp op e1 =>
      "UnaryOp(operator=" +:+ Py.repr op +:+ ", operand="
        +:+ Expression_str e1 +:+ ")"
  | Literal v t =>
      "Literal(value=" +:+ Py.repr v +:+ ", type_name=" +:+ Py.repr t +:+ ")"
  | Variable_ x => "Variable(name=" +:+ Py.repr x +:+ ")"
  | ArrayAccess a i =>
      "ArrayAccess(array_name=" +:+ Py.repr a +:+ ", index="
        +:+ Expression_str i +:+ ")"
  | FieldAccess ob f =>
      "FieldAccess(object_name=" +:+ Py.repr ob +:+ ", field_name="
        +:+ Py.repr f +:+ ")"
  end.

End Models.

(** ** The standard library pieces behind [compute_signature] *)

(** [json.dumps(d, sort_keys=True)] with the default separators and
    [ensure_ascii]: every character outside the range from space to tilde,
    the double quote and the backslash are escaped. *)
Module Json.
Import Models.

Definition escape_ascii (c : ascii) : string :=
  if Ascii.eqb c Py.dq then String Py.bsl (Py.chr Py.dq)
  else if Ascii.eqb c Py.bsl then String Py.bsl (Py.chr Py.bsl)
  else if Ascii.eqb c Py.lf then String Py.bsl "n"
  else if Ascii.eqb c Py.cr then String Py.bsl "r"
  else if Ascii.eqb c Py.tab then String Py.bsl "t"
  else if Ascii.eqb c "012"%char then String Py.bsl "f"
  else if Ascii.eqb c "008"%char then String Py.bsl "b"
  else if Py.in_range 32 126 c then Py.chr c
  else String Py.bsl (String "u" (Py.hex4 (Py.code c))).

(** A code point above 127 is written as one [\uXXXX] escape, or as a
    surrogate pair when it does not fit sixteen bits. *)
Definition escape_code_point (n : N) : string :=
  if (n <? 65536)%N then String Py.bsl (String "u" (Py.hex4 n))
  else
    let m := (n - 65536)%N in
    let s1 := N.lor 55296 (N.land (N.shiftr m 10) 1023) in
    let s2 := N.lor 56320 (N.land m 1023) in
    String Py.bsl (String "u" (Py.hex4 s1))
      +:+ String Py.bsl (String "u" (Py.hex4 s2)).

(** The UTF-8 bytes are decoded on the way: [pending] is the value read so
    far of a multi-byte code point and [need] the number of continuation
    bytes still expected. *)
Fixpoint escape (pending : N) (need : nat) (s : string) : string :=
  match s with
  | EmptyString => EmptyString
  | String c s' =>
      let n := Py.code c in
      match need with
      | S k =>
          let v := (pending * 64 + N.land n 63)%N in
          match k with
          | O => escape_code_point v +:+ escape 0 0 s'
          | S _ => escape v k s'
          end
      | O =>
          if (n <? 128)%N then escape_ascii c +:+ escape 0 0 s'
          else if (n <? 224)%N then escape (N.land n 31) 1 s'
          else if (n <? 240)%N then escape (N.land n 15) 2 s'
          else escape (N.land n 7) 3 s'
      end
  end.

Definition dumps_str (s : string) : string :=
  String Py.dq (escape 0 0 s +:+ Py.chr Py.dq).

Fixpoint join (sep : string) (l : list string) : string :=
  match l with
  | [] => EmptyString
  | [x] => x
  | x :: l' => x +:+ sep +:+ join sep l'
  end.

(** [sort_keys]: the entries ordered by key. *)
Fixpoint insert_by_key {A} (kv : string * A) (l : list (string * A))
  : list (string * A) :=
  match l with
  | [] => [kv]
  | kv' :: l' =>
      if String.leb (fst kv) (fst kv') then kv :: l
      else kv' :: insert_by_key kv l'
  end.

Definition sort_by_key {A} (l : list (string * A)) : list (string * A) :=
  foldr insert_by_key [] l.

Fixpoint dumps (v : pyval) : string :=
  match v with
  | PStr s => dumps_str s
  | PList l => "[" +:+ join ", " (map dumps l) +:+ "]"
  | PDict d =>
      let rendered :=
        (fix each (d : list (string * pyval)) : list (string * string) :=
           match d with
           | [] => []
           | (k, x) :: d' => (k, dumps x) :: each d'
           end) d in
      "{" +:+ join ", "
                (map (fun kv => dumps_str (fst kv) +:+ ": " +:+ snd kv)
                   (sort_by_key rendered))
          +:+ "}"
  end.

End Json.

(** [hashlib.sha256(data).hexdigest()], FIPS 180-4, on 32-bit words held
    in [N]. *)
Module Sha256.
Local Open Scope N_scope.

Definition wrap (x : N) : N := N.land x 4294967295.
Definition add32 (x y : N) : N := wrap (x + y).
Definition rotr (n x : N) : N :=
  N.lor (N.shiftr x n) (wrap (N.shiftl x (32 - n))).
Definition not32 (x : N) : N := N.lxor x 4294967295.

Definition Ch (x y z : N) : N := N.lxor (N.land x y) (N.land (not32 x) z).
Definition Maj (x y z : N) : N :=
  N.lxor (N.lxor (N.land x y) (N.land x z)) (N.land y z).
Definition bsig0 (x : N) : N := N.lxor (N.lxor (rotr 2 x) (rotr 13 x)) (rotr 22 x).
Definition bsig1 (x : N) : N := N.lxor (N.lxor (rotr 6 x) (rotr 11 x)) (rotr 25 x).
Definition ssig0 (x : N) : N := N.lxor (N.lxor (rotr 7 x) (rotr 18 x)) (N.shiftr x 3).
Definition ssig1 (x : N) : N := N.lxor (N.lxor (rotr 17 x) (rotr 19 x)) (N.shiftr x 10).

Definition round_constants : list N :=
  [ 1116352408; 1899447441; 3049323471; 3921009573; 961987163; 1508970993;
    2453635748; 2870763221; 3624381080; 310598401; 607225278; 1426881987;
    1925078388; 2162078206; 2614888103; 3248222580; 3835390401; 4022224774;
    264347078; 604807628; 770255983; 1249150122; 1555081692; 1996064986;
    2554220882; 2821834349; 2952996808; 3210313671; 3336571891; 3584528711;
    113926993; 338241895; 666307205; 773529912; 1294757372; 1396182291;
    1695183700; 1986661051; 2177026350; 2456956037; 2730485921; 2820302411;
    3259730800; 3345764771; 3516065817; 3600352804; 4094571909; 275423344;
    430227734; 506948616; 659060556; 883997877; 958139571; 1322822218;
    1537002063; 1747873779; 1955562222; 2024104815; 2227730452; 2361852424;
    2428436474; 2756734187; 3204031479; 3329325298 ].

Definition initial_hash : list N :=
  [ 1779033703; 3144134277; 1013904242; 2773480762;
    1359893119; 2600822924; 528734635; 1541459225 ].

(** Padding: the byte 128, zero bytes up to 56 modulo 64, and the length
    in bits as eight big-endian bytes. *)
Definition be_bytes (k : nat) (x : N) : list N :=
  map (fun i => N.land (N.shiftr x (8 * N.of_nat i)) 255) (rev (seq 0 k)).

Definition pad (msg : list N) : list N :=
  let len := length msg in
  let zeros := ((64 - (len + 9) mod 64) mod 64)%nat in
  msg ++ [128] ++ repeat 0 zeros ++ be_bytes 8 (8 * N.of_nat len).

Fixpoint words (bytes : list N) : list N :=
  match bytes with
  | a :: b :: c :: d :: rest =>
      (N.shiftl a 24 + N.shiftl b 16 + N.shiftl c 8 + d) :: words rest
  | _ => []
  end.

(** One round.  [w] is the window W[t], ..., W[t+15] of the message
    schedule; the round consumes W[t] and appends W[t+16]. *)
Definition round (st : list N * list N) (k : N) : list N * list N :=
  match st with
  | ([a; b; c; d; e; f; g; h],
     (w0 :: w1 :: _ :: _ :: _ :: _ :: _ :: _ :: _ :: w9 :: _ :: _ :: _ :: _
        :: w14 :: _) as w) =>
      let t1 := add32 (add32 (add32 (add32 h (bsig1 e)) (Ch e f g)) k) w0 in
      let t2 := add32 (bsig0 a) (Maj a b c) in
      let w16 := add32 (add32 (add32 (ssig1 w14) w9) (ssig0 w1)) w0 in
      ([add32 t1 t2; a; b; c; add32 d t1; e; f; g], tl w ++ [w16])
  | _ => st
  end.

Definition compress (h : list N) (block : list N) : list N :=
  let '(v, _) := fold_left round round_constants (h, block) in
  map (fun p => add32 (fst p) (snd p)) (combine h v).

Fixpoint blocks (n : nat) (ws : list N) : list (list N) :=
  match n with
  | O => []
  | S n' => take 16 ws :: blocks n' (drop 16 ws)
  end.

Definition digest (msg : list N) : list N :=
  let ws := words (pad msg) in
  fold_left compress (blocks (length ws / 16) ws) initial_hash.

Definition hex8 (x : N) : string :=
  Py.hex4 (N.shiftr x 16) +:+ Py.hex4 (N.land x 65535).

Definition hexdigest (s : string) : string :=
  Json.join EmptyString
    (map hex8 (digest (map N_of_ascii (String.list_ascii_of_string s)))).

End Sha256.

(** A [Dict[str, str]], as the knowledge base stores. *)
Abbreviation Dict := (gmap string string).

(** Truth value of a dictionary in a condition: it is true unless empty. *)
Definition truthy (d : Dict) : bool := negb (bool_decide (d = ∅)).

(** ** knowledge_base.py *)

Module KnowledgeBase.
Import Models.

(** What is at [filepath]: nothing, text that is not JSON, or the JSON
    rendering of a dictionary of dictionaries. *)
Inductive file_state : Type :=
| Missing
| Corrupt
| Holds (content : gmap string Dict).

Record t : Type := mk { data : gmap string Dict; file : file_state }.

Definition load (f : file_state) : t :=
  match f with
  | Holds content => mk content f
  | Corrupt => mk ∅ f
  | Missing => mk ∅ f
  end.

(** [KnowledgeBase(filepath)] *)
Definition init (f : file_state) : t := load f.

Definition save (kb : t) : t := mk (data kb) (Holds (data kb)).

Definition get_complexity (kb : t) (signature : string) : option Dict :=
  data kb !! signature.

Definition add_complexity (kb : t) (signature : string) (complexity : Dict) : t :=
  save (mk (<[signature := complexity]> (data kb)) (file kb)).

Definition compute_signature (node_dict : pydict) : string :=
  let serialized := Json.dumps (PDict node_dict) in
  Sha256.hexdigest serialized.

End KnowledgeBase.

(** ** ai_engine.py *)

Module AIEngine.
Import Models.

(** A value that [json.loads] returns.  A float is kept as the text of
    its literal: the program only asks such a value for its type and
    whether it equals a string, which it never does. *)
Inductive json : Type :=
| JNull
| JBool (b : bool)
| JInt (z : Z)
| JFloat (literal : string)
| JString (s : string)
| JList (l : list json)
| JObject (o : gmap string json).

(** [type(v).__name__] *)
Definition type_name (v : json) : string :=
  match v with
  | JNull => "NoneType"
  | JBool _ => "bool"
  | JInt _ => "int"
  | JFloat _ => "float"
  | JString _ => "str"
  | JList _ => "list"
  | JObject _ => "dict"
  end.

(** [self.model.generate_content(prompt)] followed by [response.text], the
    request to the service: either one of the two raises, with the text
    [str(e)], or the text of the answer comes back. *)
Inductive reply : Type :=
| Raised (text : string)
| Text (text : string).

(** [json.loads(s)]: the decoder raises, with the text [str(e)], or
    returns the value. *)
Inductive decoded : Type :=
| Invalid (text : string)
| Value (result : json).

(** What the process is given: the credential, the answer of the service
    to the k-th request for a given subtree, and the decoder of the
    standard library.  The client library is taken to load and to build
    its model without an exception.  [AIEngine()] prints a warning when
    there is no credential; nothing reads what is printed. *)
Record env : Type :=
  mkEnv { GEMINI_API_KEY : option string;
          generate_content : nat -> pydict -> reply;
          json_loads : string -> decoded }.

Definition error_dict (o : string) : json :=
  JObject (<["O" := JString o]>
             (<["Omega" := JString "Error"]>
                (<["Theta" := JString "Error"]> ∅))).

Definition has_key (e : env) : bool :=
  match GEMINI_API_KEY e with
  | Some k => negb (bool_decide (k = EmptyString))
  | None => false
  end.

(** The text between [response.text] and [json.loads]: stripped, without
    a leading fence [```json] or [```], without a trailing fence, and
    stripped again.  [text[7:]] and [text[3:]] drop the fence just found
    at the start, [text[:-3]] the one just found at the end. *)
Definition clean_up (text : string) : string :=
  let text := Py.str_strip text in
  let text := default text (Py.strip_prefix "```json" text) in
  let text := default text (Py.strip_prefix "```" text) in
  let text :=
    match Py.strip_prefix "```" (Py.reversed text) with
    | Some rest => Py.reversed rest
    | None => text
    end in
  Py.str_strip text.

(** [k in result] for a string [k]: a key of a dictionary, an element of
    a list, a piece of a string.  [None] stands for the [TypeError] that
    the other values raise. *)
Definition contains_key (k : string) (result : json) : option bool :=
  match result with
  | JObject o => Some (bool_decide (is_Some (o !! k)))
  | JList l =>
      Some (existsb (fun x => match x with
                              | JString s => bool_decide (s = k)
                              | _ => false
                              end) l)
  | JString s => Some (Py.contains k s)
  | JNull | JBool _ | JInt _ | JFloat _ => None
  end.

(** [all(k in result for k in keys)]: it stops at the first key that is
    missing, and at the first test that raises. *)
Fixpoint all_in (keys : list string) (result : json) : option bool :=
  match keys with
  | [] => Some true
  | k :: rest =>
      match contains_key k result with
      | Some true => all_in rest result
      | Some false => Some false
      | None => None
      end
  end.

(** [str(e)] of that [TypeError], in the words of CPython 3.11. *)
Definition not_iterable (result : json) : string :=
  "argument of type '" +:+ type_name result +:+ "' is not iterable".

(** [analyze_complexity(ast_subtree)].  Whatever is raised between the
    request and the test of the keys is caught and becomes an error
    dictionary; a decoded value that passes the test is returned as it
    is, dictionary or not. *)
Definition analyze_complexity (e : env) (request : nat) (ast_subtree : pydict)
  : json :=
  if negb (has_key e) then error_dict "Error: Missing API Key"
  else
    match generate_content e request ast_subtree with
    | Raised text => error_dict ("Error: " +:+ text)
    | Text text =>
        match json_loads e (clean_up text) with
        | Invalid text => error_dict ("Error: " +:+ text)
        | Value result =>
            match all_in ["O"; "Omega"; "Theta"] result with
            | Some true => result
            | Some false => error_dict "Error: Invalid AI Response"
            | None => error_dict ("Error: " +:+ not_iterable result)
            end
        end
    end.

End AIEngine.

(** ** analyzer.py: the cost algebra *)

Module Complexity.

Record t : Type := mk { o : string; omega : string; theta : string }.

(** [Complexity()] with its default arguments. *)
Definition one : t := mk "1" "1" "1".

Definition to_dict (c : t) : Dict :=
  <["O" := o c]> (<["Omega" := omega c]> (<["Theta" := theta c]> ∅)).

Definition from_dict (d : Dict) : t :=
  mk (default "1" (d !! "O")) (default "1" (d !! "Omega"))
     (default "1" (d !! "Theta")).

(** [d.get(key, "1")] where [d] is what the oracle answered, as a term:
    the string found, or the default. *)
Definition get_term (o : gmap string AIEngine.json) (key : string)
  : option string :=
  match o !! key with
  | None => Some "1"
  | Some (AIEngine.JString term) => Some term
  | Some _ => None
  end.

(** [from_dict] on what the oracle answered.  A value other than a
    dictionary has no method [get].  A dictionary always gives a triple;
    the terms of a [t] are strings, so a dictionary with a value of
    another type under one of the three keys is where the embedding
    ends: the program carries that value on into [_add_term] and
    [_mul_term], which would need the equality, the membership test and
    the formatting of Python on every decoded value. *)
Definition from_answer (d : AIEngine.json) : result t :=
  match d with
  | AIEngine.JObject fields =>
      match get_term fields "O", get_term fields "Omega",
            get_term fields "Theta" with
      | Some a, Some b, Some c => ok (mk a b c)
      | _, _, _ => raise (NotModelled "a cost term that is not a string")
      end
  | _ =>
      raise (AttributeError ("'" +:+ AIEngine.type_name d
                               +:+ "' object has no attribute 'get'"))
  end.

(** [t.split("^")[1]]; the index exists whenever "n^" occurs in [t]. *)
Definition exponent_text (t : string) : string :=
  default EmptyString (Py.split "^" t !! 1%nat).

Definition _add_term (t1 t2 : string) : result string :=
  if bool_decide (t1 = "1") then ok t2
  else if bool_decide (t2 = "1") then ok t1
  else if bool_decide (t1 = t2) then ok t1
  else if Py.contains "n^" t1 && Py.contains "n^" t2 then
    rbind (Py.int (exponent_text t1)) (fun p1 =>
    rbind (Py.int (exponent_text t2)) (fun p2 =>
    ok ("n^" +:+ Py.str_of_Z (Z.max p1 p2))))
  else if Py.contains "n" t1 && bool_decide (t2 = "1") then ok t1
  else if Py.contains "n" t2 && bool_decide (t1 = "1") then ok t2
  else ok ("max(" +:+ t1 +:+ ", " +:+ t2 +:+ ")").

Definition _mul_term (t1 t2 : string) : result string :=
  if bool_decide (t1 = "1") then ok t2
  else if bool_decide (t2 = "1") then ok t1
  else if bool_decide (t1 = "n") && bool_decide (t2 = "n") then ok "n^2"
  else if Py.contains "n^" t1 && bool_decide (t2 = "n") then
    rbind (Py.int (exponent_text t1)) (fun p =>
    ok ("n^" +:+ Py.str_of_Z (p + 1)))
  else if bool_decide (t1 = "n") && Py.contains "n^" t2 then
    rbind (Py.int (exponent_text t2)) (fun p =>
    ok ("n^" +:+ Py.str_of_Z (p + 1)))
  else ok (t1 +:+ " * " +:+ t2).

(** [__add__] and [__mul__]: the three components in the order O, Omega,
    Theta; the first exception ends the evaluation. *)
Definition componentwise (f : string -> string -> result string) (a b : t)
  : result t :=
  rbind (f (o a) (o b)) (fun x =>
  rbind (f (omega a) (omega b)) (fun y =>
  rbind (f (theta a) (theta b)) (fun z =>
  ok (mk x y z)))).

Definition add : t -> t -> result t := componentwise _add_term.
Definition mul : t -> t -> result t := componentwise _mul_term.

End Complexity.

(** ** analyzer.py: the inference engine *)

Module Analyzer.
Import Models.

(** The mutable surroundings of an analysis: the knowledge base, and the
    subtrees handed to the oracle so far, oldest first. *)
Record world : Type :=
  mkWorld { kb : KnowledgeBase.t; oracle_calls : list pydict }.

(** A method that may raise and may change the world.  The world is
    returned in both cases: an exception does not undo what was stored
    before it. *)
Definition M (A : Type) : Type := world -> result A * world.

#[export] Instance M_ret : MRet M := fun A a w => (ok a, w).

#[export] Instance M_bind : MBind M := fun A B k m w =>
  match m w with
  | (inr a, w') => k a w'
  | (inl e, w') => (inl e, w')
  end.

Definition lift {A} (r : result A) : M A := fun w => (r, w).

(** The analysis context, a [Dict[str, Any]]. *)
Abbreviation Context := (gmap string string).

Definition estimate_iterations (start end_ : Expression) : Complexity.t :=
  match end_ with
  | Variable_ x =>
      if bool_decide (x = "n") then Complexity.mk "n" "n" "n"
      else Complexity.mk "n" "n" "n"
  | _ => Complexity.mk "n" "n" "n"
  end.

Fixpoint contains_var (expr : Expression) (vars : gset string) : bool :=
  match expr with
  | Variable_ x => bool_decide (x ∈ vars)
  | BinaryOp l _ r => contains_var l vars || contains_var r vars
  | _ => false
  end.

(** [check_dependency] of a [ForLoop] with the given bounds. *)
Definition check_dependency (start_value end_value : Expression)
    (context : Context) : bool :=
  let outer_vars := dom context in
  if contains_var start_value outer_vars || contains_var end_value outer_vars
  then true
  else false.

(** Step 1 of [analyze]: [cached = kb.get_complexity(signature)] followed
    by [if cached: return Complexity.from_dict(cached)]. *)
Definition cache_hit (w : world) (signature : string) : option Complexity.t :=
  match KnowledgeBase.get_complexity (kb w) signature with
  | Some cached =>
      if truthy cached then Some (Complexity.from_dict cached) else None
  | None => None
  end.

(** Step 3: [kb.add_complexity(signature, result.to_dict())]. *)
Definition memoize (signature : string) (result : Complexity.t) (w : world)
  : world :=
  mkWorld (KnowledgeBase.add_complexity (kb w) signature
             (Complexity.to_dict result))
    (oracle_calls w).

(** The [for] loop of the [Block] branch: [total = total + analyze(stmt)]
    for every statement in order. *)
Fixpoint sum_costs (analyze_stmt : Statement -> M Complexity.t)
    (stmts : list Statement) (total : Complexity.t) : M Complexity.t :=
  match stmts with
  | [] => mret total
  | stmt :: rest =>
      c ← analyze_stmt stmt;
      total' ← lift (Complexity.add total c);
      sum_costs analyze_stmt rest total'
  end.

Section WithEnv.
Variable env : AIEngine.env.

(** Steps 1 and 3 of [analyze], around the computation [by_type] of
    step 2 for the node whose dictionary is [node_dict]. *)
Definition memoized (node_dict : pydict) (by_type : M Complexity.t)
  : M Complexity.t := fun w =>
  let signature := KnowledgeBase.compute_signature node_dict in
  match cache_hit w signature with
  | Some cached => (ok cached, w)
  | None =>
      match by_type w with
      | (inr result, w') => (ok result, memoize signature result w')
      | (inl e, w') => (inl e, w')
      end
  end.

(** [AIEngine().analyze_complexity(node.to_dict())] *)
Definition ask_oracle (node_dict : pydict) : M AIEngine.json := fun w =>
  (ok (AIEngine.analyze_complexity env (length (oracle_calls w)) node_dict),
   mkWorld (kb w) (oracle_calls w ++ [node_dict])).

Fixpoint analyze_Expression (node : Expression) (context : Context)
  : M Complexity.t :=
  memoized (to_dict node)
    match node with
    | BinaryOp l _ r =>
        a ← analyze_Expression l context;
        b ← analyze_Expression r context;
        lift (Complexity.add a b)
    | UnaryOp _ operand => analyze_Expression operand context
    | Literal _ _ => mret Complexity.one
    | Variable_ _ => mret Complexity.one
    | ArrayAccess _ index => analyze_Expression index context
    | FieldAccess _ _ => mret Complexity.one
    end.

Fixpoint analyze_Statement (node : Statement) (context : Context)
  : M Complexity.t :=
  memoized (to_dict node)
    match node with
    | Assignment _ value =>
        v ← analyze_Expression value context;
        lift (Complexity.add Complexity.one v)
    | IfStatement condition then_block else_block =>
        cond_cost ← analyze_Expression condition context;
        then_cost ← analyze_Block then_block context;
        else_cost ← match else_block with
                    | Some b => analyze_Block b context
                    | None => mret Complexity.one
                    end;
        max_branch ← lift (Complexity.add then_cost else_cost);
        lift (Complexity.add cond_cost max_branch)
    | ForLoop variable start_value end_value body =>
        let is_dependent := check_dependency start_value end_value context in
        if is_dependent then
          ai_result ← ask_oracle (to_dict node);
          lift (Complexity.from_answer ai_result)
        else
          let new_context := <["loop_var" := variable]> context in
          let iterations := estimate_iterations start_value end_value in
          body_cost ← analyze_Block body new_context;
          lift (Complexity.mul iterations body_cost)
    | WhileLoop _ body =>
        body_cost ← analyze_Block body context;
        lift (Complexity.mul (Complexity.mk "n" "n" "n") body_cost)
    | RepeatLoop _ body =>
        body_cost ← analyze_Block body context;
        lift (Complexity.mul (Complexity.mk "n" "n" "n") body_cost)
    | Call _ _ => mret Complexity.one
    end
with analyze_Block (node : Block) (context : Context) : M Complexity.t :=
  memoized (to_dict node)
    match node with
    | mkBlock stmts =>
        sum_costs (fun stmt => analyze_Statement stmt context) stmts
          Complexity.one
    end.

Definition analyze_Program (node : Program_) (context : Context)
  : M Complexity.t :=
  memoized (to_dict node) (analyze_Block (main_block node) context).

(** [Analyzer.analyze(node, context)].  A class definition, a procedure
    definition and a parameter match none of the branches of step 2 and
    keep the initial result. *)
Definition analyze (node : ASTNode) (context : option Context)
  : M Complexity.t :=
  let context := default ∅ context in
  match node with
  | NProgram p => analyze_Program p context
  | NBlock b => analyze_Block b context
  | NStatement s => analyze_Statement s context
  | NExpression e => analyze_Expression e context
  | NClassDef _ | NProcedureDef _ | NParameter _ =>
      memoized (to_dict node) (mret Complexity.one)
  end.

End WithEnv.

(** A fresh process: the knowledge base read from its file, no oracle
    call made yet. *)
Definition start (f : KnowledgeBase.file_state) : world :=
  mkWorld (KnowledgeBase.init f) [].

End Analyzer.

(** ** parser.py: the tokenizer *)

Module Tokenizer.

Record Token : Type :=
  mkToken { type : string; value : string; line : nat; column : nat }.

(** [Token.__repr__] *)
Definition Token_repr (t : Token) : string :=
  "Token(" +:+ type t +:+ ", " +:+ value t +:+ ", "
    +:+ Py.str_of_nat (line t) +:+ ":" +:+ Py.str_of_nat (column t) +:+ ")".

(** The operator glyphs, as UTF-8. *)
Definition utf8 (bytes : list N) : string :=
  String.string_of_list_ascii (map ascii_of_N bytes).

Definition glyph_comment : string := utf8 [226; 150; 186]%N.      (* U+25BA *)
Definition glyph_assign : string := utf8 [240; 159; 161; 168]%N.  (* U+1F868 *)
Definition glyph_le : string := utf8 [226; 137; 164]%N.           (* U+2264 *)
Definition glyph_ge : string := utf8 [226; 137; 165]%N.           (* U+2265 *)
Definition glyph_ne : string := utf8 [226; 137; 160]%N.           (* U+2260 *)
Definition glyph_ceil : string := utf8 [226; 148; 140]%N.         (* U+250C *)
Definition glyph_floor : string := utf8 [226; 148; 148]%N.        (* U+2514 *)

(** A pattern tried at the current position gives the matched text and
    what follows it, or nothing. *)
Definition pattern : Type := string -> option (string * string).

(** The longest prefix whose characters all satisfy [p]. *)
Fixpoint span (p : ascii -> bool) (s : string) : string * string :=
  match s with
  | String c s' =>
      if p c then let '(a, b) := span p s' in (String c a, b)
      else (EmptyString, s)
  | EmptyString => (EmptyString, EmptyString)
  end.

(** One of several fixed texts, the first that fits. *)
Fixpoint literal (alternatives : list string) : pattern := fun s =>
  match alternatives with
  | [] => None
  | a :: rest =>
      match Py.strip_prefix a s with
      | Some s' => Some (a, s')
      | None => literal rest s
      end
  end.

Definition is_word (c : ascii) : bool :=
  Py.is_alpha c || Py.is_digit c || Ascii.eqb c "_".

(** What [re.IGNORECASE] takes for a lower-case letter beyond its two
    ASCII cases: the dotted capital I (U+0130) and the dotless i (U+0131)
    for i, the long s (U+017F) for s, the Kelvin sign (U+212A) for k. *)
Definition dotted_I : string := utf8 [196; 176]%N.
Definition dotless_i : string := utf8 [196; 177]%N.
Definition long_s : string := utf8 [197; 191]%N.
Definition kelvin : string := utf8 [226; 132; 170]%N.

Definition equivalents (k : ascii) : list string :=
  if Ascii.eqb k "i" then [dotted_I; dotless_i]
  else if Ascii.eqb k "s" then [long_s]
  else if Ascii.eqb k "k" then [kelvin]
  else [].

(** One lower-case letter of a pattern under [re.IGNORECASE]. *)
Definition letter (k : ascii) : pattern := fun s =>
  match s with
  | String c s' =>
      if Ascii.eqb k (Py.lower_char c) then Some (Py.chr c, s')
      else literal (equivalents k) s
  | EmptyString => None
  end.

(** [[a-zA-Z0-9_]] under [re.IGNORECASE], at the start of [s]. *)
Definition word_follows (s : string) : bool :=
  match s with
  | String c _ =>
      is_word c
      || bool_decide
           (is_Some (literal [dotted_I; dotless_i; long_s; kelvin] s))
  | EmptyString => false
  end.

(** [kw(?![a-zA-Z0-9_])] under [re.IGNORECASE], which is how [tokenize]
    compiles the patterns of MOD and DIV; [kw] is in lower-case letters. *)
Fixpoint keyword (kw : string) (s : string) : option (string * string) :=
  match kw with
  | EmptyString => if word_follows s then None else Some (EmptyString, s)
  | String k kw' =>
      match letter k s with
      | Some (c, s') =>
          match keyword kw' s' with
          | Some (v, rest) => Some (c +:+ v, rest)
          | None => None
          end
      | None => None
      end
  end.

(** [►.*] *)
Definition comment : pattern := fun s =>
  match Py.strip_prefix glyph_comment s with
  | Some s' =>
      let '(text, rest) := span (fun c => negb (Ascii.eqb c Py.lf)) s' in
      Some (glyph_comment +:+ text, rest)
  | None => None
  end.

(** A double quote, any characters other than the double quote, and a
    double quote. *)
Definition string_literal : pattern := fun s =>
  match s with
  | String c s' =>
      if Ascii.eqb c Py.dq then
        match span (fun c => negb (Ascii.eqb c Py.dq)) s' with
        | (text, String _ rest) =>
            Some (String Py.dq (text +:+ Py.chr Py.dq), rest)
        | (_, EmptyString) => None
        end
      else None
  | EmptyString => None
  end.

(** [\d+(\.\d+)?], with the ASCII digits: a digit of another script,
    which the pattern also accepts, is a MISMATCH here. *)
Definition number : pattern := fun s =>
  match span Py.is_digit s with
  | (EmptyString, _) => None
  | (whole, rest) =>
      match rest with
      | String "." rest' =>
          match span Py.is_digit rest' with
          | (EmptyString, _) => Some (whole, rest)
          | (frac, rest'') => Some (whole +:+ "." +:+ frac, rest'')
          end
      | _ => Some (whole, rest)
      end
  end.

(** [[a-zA-Z_][a-zA-Z0-9_]*] *)
Definition identifier : pattern := fun s =>
  match s with
  | String c s' =>
      if Py.is_alpha c || Ascii.eqb c "_"
      then let '(text, rest) := span is_word s' in Some (String c text, rest)
      else None
  | EmptyString => None
  end.

(** [[ \t]+] *)
Definition blanks : pattern := fun s =>
  match span (fun c => Ascii.eqb c " " || Ascii.eqb c Py.tab) s with
  | (EmptyString, _) => None
  | found => Some found
  end.

(** [.]: one code point other than the line feed. *)
Definition any_char : pattern := fun s =>
  match s with
  | String c s' =>
      if Ascii.eqb c Py.lf then None
      else let '(cont, rest) := span (Py.in_range 128 191) s' in
           if Py.in_range 192 255 c then Some (String c cont, rest)
           else Some (Py.chr c, s')
  | EmptyString => None
  end.

Definition TOKEN_TYPES : list (string * pattern) :=
  [ ("COMMENT", comment);
    ("STRING", string_literal);
    ("NUMBER", number);
    ("ASSIGN", literal [glyph_assign; "<-"]);
    ("LE", literal [glyph_le; "<="]);
    ("GE", literal [glyph_ge; ">="]);
    ("NE", literal [glyph_ne; "<>"]);
    ("EQ", literal ["="]);
    ("LT", literal ["<"]);
    ("GT", literal [">"]);
    ("LPAREN", literal ["("]);
    ("RPAREN", literal [")"]);
    ("LBRACKET", literal ["["]);
    ("RBRACKET", literal ["]"]);
    ("DOTDOT", literal [".."]);
    ("DOT", literal ["."]);
    ("COMMA", literal [","]);
    ("PLUS", literal ["+"]);
    ("MINUS", literal ["-"]);
    ("MULTIPLY", literal ["*"]);
    ("DIVIDE", literal ["/"]);
    ("MOD", keyword "mod");
    ("DIV", keyword "div");
    ("CEIL", literal [glyph_ceil; "ceil"]);
    ("FLOOR", literal [glyph_floor; "floor"]);
    ("ID", identifier);
    ("NEWLINE", literal [Py.chr Py.lf]);
    ("SKIP", blanks);
    ("MISMATCH", any_char) ].

(** The inner [for] of [tokenize]: the first pattern that matches. *)
Fixpoint first_match (types : list (string * pattern)) (s : string)
  : option (string * string * string) :=
  match types with
  | [] => None
  | (token_type, p) :: rest =>
      match p s with
      | Some (v, s') => Some (token_type, v, s')
      | None => first_match rest s
      end
  end.

(** The outer [while] of [tokenize].  [code] is the text from [self.pos]
    on; every round consumes at least one byte of it, so one unit of
    [fuel] per byte is enough. *)
Fixpoint tokenize_from (fuel : nat) (code : string) (line column : nat)
    (tokens : list Token) : result (list Token) :=
  match code with
  | EmptyString => ok tokens
  | String _ _ =>
      match fuel with
      | O => raise OutOfFuel
      | S fuel' =>
          match first_match TOKEN_TYPES code with
          | Some (token_type, v, rest) =>
              if bool_decide (token_type = "NEWLINE")
              then tokenize_from fuel' rest (line + 1) 1 tokens
              else if bool_decide (token_type = "SKIP")
              then tokenize_from fuel' rest line (column + Py.len v) tokens
              else if bool_decide (token_type = "COMMENT")
              then tokenize_from fuel' rest line column tokens
              else if bool_decide (token_type = "MISMATCH")
              then raise (SyntaxError
                            ("Unexpected character " +:+ Py.repr v
                               +:+ " on line " +:+ Py.str_of_nat line))
              else tokenize_from fuel' rest line (column + Py.len v)
                     (tokens ++ [mkToken token_type v line column])
          | None =>
              raise (SyntaxError
                       ("Unexpected character on line " +:+ Py.str_of_nat line))
          end
      end
  end.

Definition tokenize (code : string) : result (list Token) :=
  tokenize_from (String.length code) code 1 1 [].

End Tokenizer.

(** ** parser.py: the recursive-descent parser *)

Module Parser.
Import Models Tokenizer.

Section WithTokens.
Variable tokens : list Token.

(** A method of [Parser]: it reads and moves [self.pos], and may
    raise. *)
Definition P (A : Type) : Type := nat -> result (A * nat).

#[export] Instance P_ret : MRet P := fun A a pos => ok (a, pos).

#[export] Instance P_bind : MBind P := fun A B k m pos =>
  match m pos with
  | inr (a, pos') => k a pos'
  | inl e => inl e
  end.

Definition fail {A} (e : exn) : P A := fun _ => raise e.

Definition syntax_error {A} (msg : string) : P A := fail (SyntaxError msg).

Definition peek (offset : nat) : P (option Token) := fun pos =>
  ok (tokens !! (pos + offset)%nat, pos).

(** Reading an attribute of what [peek] returned, which is [None] at the
    end of the input. *)
Definition attr {A} (field : Token -> A) (field_name : string)
    (token : option Token) : P A :=
  match token with
  | Some t => mret (field t)
  | None =>
      fail (AttributeError
              ("'NoneType' object has no attribute '" +:+ field_name +:+ "'"))
  end.

(** [str(token)] inside a message. *)
Definition show (token : option Token) : string :=
  match token with
  | Some t => Token_repr t
  | None => "None"
  end.

Definition consume (type_ : option string) : P Token :=
  token ← peek 0;
  match token with
  | None => syntax_error "Unexpected end of input"
  | Some t =>
      match type_ with
      | Some ty =>
          if negb (bool_decide (ty = EmptyString))
             && negb (bool_decide (type t = ty))
          then syntax_error
                 ("Expected " +:+ ty +:+ ", got " +:+ type t +:+ " ('"
                    +:+ value t +:+ "') at line " +:+ Py.str_of_nat (line t))
          else fun pos => ok (t, S pos)
      | None => fun pos => ok (t, S pos)
      end
  end.

Definition match_ (type_ : string) : P bool :=
  token ← peek 0;
  match token with
  | Some t =>
      if bool_decide (type t = type_) then _ ← consume None; mret true
      else mret false
  | None => mret false
  end.

Definition consume_keyword (keyword : string) : P unit :=
  token ← peek 0;
  match token with
  | Some t =>
      if bool_decide (type t = "ID")
         && bool_decide (Py.lower (value t) = Py.lower keyword)
      then _ ← consume None; mret tt
      else syntax_error
             ("Expected keyword '" +:+ keyword +:+ "', got " +:+ show token)
  | None =>
      syntax_error
        ("Expected keyword '" +:+ keyword +:+ "', got " +:+ show token)
  end.

(** [token and token.value.lower() == word] *)
Definition says (word : string) (token : option Token) : bool :=
  match token with
  | Some t => bool_decide (Py.lower (value t) = word)
  | None => false
  end.

Definition has_type (types : list string) (token : option Token) : bool :=
  match token with
  | Some t => bool_decide (type t ∈ types)
  | None => false
  end.

(** *** Expressions.  [fuel] bounds the depth of the calls; every loop
    round counts as one call. *)

Fixpoint parse_expression (fuel : nat) : P Expression :=
  match fuel with
  | O => fail OutOfFuel
  | S fuel => parse_relational fuel
  end

with parse_relational (fuel : nat) : P Expression :=
  match fuel with
  | O => fail OutOfFuel
  | S fuel => left ← parse_term fuel; parse_relational_loop fuel left
  end

with parse_relational_loop (fuel : nat) (left : Expression) : P Expression :=
  match fuel with
  | O => fail OutOfFuel
  | S fuel =>
      token ← peek 0;
      if has_type ["LT"; "GT"; "LE"; "GE"; "EQ"; "NE"] token then
        op ← consume None;
        right ← parse_term fuel;
        parse_relational_loop fuel (BinaryOp left (value op) right)
      else mret left
  end

with parse_term (fuel : nat) : P Expression :=
  match fuel with
  | O => fail OutOfFuel
  | S fuel => left ← parse_factor fuel; parse_term_loop fuel left
  end

with parse_term_loop (fuel : nat) (left : Expression) : P Expression :=
  match fuel with
  | O => fail OutOfFuel
  | S fuel =>
      token ← peek 0;
      if has_type ["PLUS"; "MINUS"] token then
        op ← consume None;
        right ← parse_factor fuel;
        parse_term_loop fuel (BinaryOp left (value op) right)
      else mret left
  end

with parse_factor (fuel : nat) : P Expression :=
  match fuel with
  | O => fail OutOfFuel
  | S fuel => left ← parse_primary fuel; parse_factor_loop fuel left
  end

with parse_factor_loop (fuel : nat) (left : Expression) : P Expression :=
  match fuel with
  | O => fail OutOfFuel
  | S fuel =>
      token ← peek 0;
      if has_type ["MULTIPLY"; "DIVIDE"; "MOD"; "DIV"] token then
        op_token ← consume None;
        right ← parse_primary fuel;
        parse_factor_loop fuel (BinaryOp left (value op_token) right)
      else mret left
  end

with parse_primary (fuel : nat) : P Expression :=
  match fuel with
  | O => fail OutOfFuel
  | S fuel =>
      token ← peek 0;
      opened ← match_ "LPAREN";
      if (opened : bool) then
        expr ← parse_expression fuel;
        _ ← consume (Some "RPAREN");
        mret expr
      else
        ty ← attr type "type" token;
        if bool_decide (ty = "NUMBER") then
          _ ← consume None;
          v ← attr value "value" token;
          mret (Literal v "Integer")
        else if bool_decide (ty = "STRING") then
          _ ← consume None;
          v ← attr value "value" token;
          mret (Literal v "String")
        else if bool_decide (ty = "ID") then
          t ← consume None;
          parse_suffixes fuel (Variable_ (value t))
        else if says "length" token then
          _ ← consume None;
          _ ← consume (Some "LPAREN");
          arg ← parse_expression fuel;
          _ ← consume (Some "RPAREN");
          mret (UnaryOp "length" arg)
        else syntax_error ("Unexpected token in expression: " +:+ show token)
  end

(** The [while True] of [parse_primary] that reads [.field] and
    [[index]] suffixes. *)
with parse_suffixes (fuel : nat) (expr : Expression) : P Expression :=
  match fuel with
  | O => fail OutOfFuel
  | S fuel =>
      dot ← match_ "DOT";
      if (dot : bool) then
        field ← consume (Some "ID");
        parse_suffixes fuel (FieldAccess (Expression_str expr) (value field))
      else
        bracket ← match_ "LBRACKET";
        if (bracket : bool) then
          index ← parse_expression fuel;
          _ ← consume (Some "RBRACKET");
          parse_suffixes fuel (ArrayAccess (Expression_str expr) index)
        else mret expr
  end.

(** *** Statements *)

(** The argument list of [parse_call], from the first argument on. *)
Fixpoint parse_arguments (fuel : nat) (args : list Expression)
  : P (list Expression) :=
  match fuel with
  | O => fail OutOfFuel
  | S fuel =>
      arg ← parse_expression fuel;
      comma ← match_ "COMMA";
      if (comma : bool) then parse_arguments fuel (args ++ [arg])
      else mret (args ++ [arg])
  end.

Definition parse_call (fuel : nat) : P Statement :=
  _ ← consume_keyword "call";
  proc_name ← consume (Some "ID");
  _ ← consume (Some "LPAREN");
  token ← peek 0;
  ty ← attr type "type" token;
  args ← (if negb (bool_decide (ty = "RPAREN"))
          then parse_arguments fuel []
          else mret []);
  _ ← consume (Some "RPAREN");
  mret (Call (value proc_name) args).

Definition parse_assignment (fuel : nat) : P Statement :=
  target_expr ← parse_expression fuel;
  assigned ← match_ "ASSIGN";
  if negb assigned then
    token ← peek 0;
    l ← attr line "line" token;
    syntax_error ("Expected assignment operator at line " +:+ Py.str_of_nat l)
  else
    v ← parse_expression fuel;
    mret (Assignment (Expression_str target_expr) v).

Fixpoint parse_block_body (fuel : nat) : P Block :=
  match fuel with
  | O => fail OutOfFuel
  | S fuel => stmts ← parse_block_loop fuel []; mret (mkBlock stmts)
  end

with parse_block_loop (fuel : nat) (stmts : list Statement)
  : P (list Statement) :=
  match fuel with
  | O => fail OutOfFuel
  | S fuel =>
      token ← peek 0;
      match token with
      | None => mret stmts
      | Some t =>
          let val := Py.lower (value t) in
          if bool_decide (val ∈ ["end"; "until"; "else"]) then mret stmts
          else
            stmt ← parse_statement fuel;
            parse_block_loop fuel (stmts ++ [stmt])
      end
  end

with parse_statement (fuel : nat) : P Statement :=
  match fuel with
  | O => fail OutOfFuel
  | S fuel =>
      token ← peek 0;
      v ← attr value "value" token;
      let val := Py.lower v in
      if bool_decide (val = "if") then parse_if fuel
      else if bool_decide (val = "for") then parse_for fuel
      else if bool_decide (val = "while") then parse_while fuel
      else if bool_decide (val = "repeat") then parse_repeat fuel
      else if bool_decide (val = "call") then parse_call fuel
      else if has_type ["ID"] token then parse_assignment fuel
      else syntax_error
             ("Unexpected token " +:+ show token +:+ " at start of statement")
  end

with parse_if (fuel : nat) : P Statement :=
  match fuel with
  | O => fail OutOfFuel
  | S fuel =>
      _ ← consume_keyword "if";
      _ ← consume (Some "LPAREN");
      condition ← parse_expression fuel;
      _ ← consume (Some "RPAREN");
      _ ← consume_keyword "then";
      _ ← consume_keyword "begin";
      then_block ← parse_block_body fuel;
      _ ← consume_keyword "end";
      token ← peek 0;
      if says "else" token then
        _ ← consume None;
        _ ← consume_keyword "begin";
        else_block ← parse_block_body fuel;
        _ ← consume_keyword "end";
        mret (IfStatement condition then_block (Some else_block))
      else mret (IfStatement condition then_block None)
  end

with parse_for (fuel : nat) : P Statement :=
  match fuel with
  | O => fail OutOfFuel
  | S fuel =>
      _ ← consume_keyword "for";
      variable ← consume (Some "ID");
      _ ← consume (Some "ASSIGN");
      start_val ← parse_expression fuel;
      _ ← consume_keyword "to";
      end_val ← parse_expression fuel;
      _ ← consume_keyword "do";
      _ ← consume_keyword "begin";
      body ← parse_block_body fuel;
      _ ← consume_keyword "end";
      mret (ForLoop (value variable) start_val end_val body)
  end

with parse_while (fuel : nat) : P Statement :=
  match fuel with
  | O => fail OutOfFuel
  | S fuel =>
      _ ← consume_keyword "while";
      _ ← consume (Some "LPAREN");
      condition ← parse_expression fuel;
      _ ← consume (Some "RPAREN");
      _ ← consume_keyword "do";
      _ ← consume_keyword "begin";
      body ← parse_block_body fuel;
      _ ← consume_keyword "end";
      mret (WhileLoop condition body)
  end

with parse_repeat (fuel : nat) : P Statement :=
  match fuel with
  | O => fail OutOfFuel
  | S fuel =>
      _ ← consume_keyword "repeat";
      body ← parse_block_body fuel;
      _ ← consume_keyword "until";
      _ ← consume (Some "LPAREN");
      condition ← parse_expression fuel;
      _ ← consume (Some "RPAREN");
      mret (RepeatLoop condition body)
  end.

(** *** Definitions and the program *)

(** The attribute loop of [parse_class_def]. *)
Fixpoint parse_attributes (fuel : nat) (attributes : list string)
  : P (list string) :=
  match fuel with
  | O => fail OutOfFuel
  | S fuel =>
      token ← peek 0;
      match token with
      | Some t =>
          if negb (bool_decide (type t = "RBRACE")) then
            a ← consume (Some "ID");
            parse_attributes fuel (attributes ++ [value a])
          else mret attributes
      | None => mret attributes
      end
  end.

Definition parse_class_def (fuel : nat) : P ClassDef :=
  _ ← consume (Some "ID");
  name ← consume (Some "ID");
  _ ← consume (Some "LBRACE");
  attributes ← parse_attributes fuel [];
  _ ← consume (Some "RBRACE");
  mret (mkClassDef (value name) attributes).

(** Inside one bracketed dimension group: everything up to the closing
    bracket is consumed. *)
Fixpoint skip_dimension (fuel : nat) : P unit :=
  match fuel with
  | O => fail OutOfFuel
  | S fuel =>
      token ← peek 0;
      ty ← attr type "type" token;
      if negb (bool_decide (ty = "RBRACKET")) then
        _ ← consume None; skip_dimension fuel
      else mret tt
  end.

(** [while self.match('LBRACKET')] *)
Fixpoint parse_dimensions (fuel : nat) : P unit :=
  match fuel with
  | O => fail OutOfFuel
  | S fuel =>
      opened ← match_ "LBRACKET";
      if (opened : bool) then
        _ ← skip_dimension fuel;
        _ ← consume (Some "RBRACKET");
        _ ← match_ "DOTDOT";
        parse_dimensions fuel
      else mret tt
  end.

(** The [while True] of [parse_procedure_def]. *)
Fixpoint parse_params (fuel : nat) (params : list Parameter_)
  : P (list Parameter_) :=
  match fuel with
  | O => fail OutOfFuel
  | S fuel =>
      token ← peek 0;
      v ← attr value "value" token;
      param ←
        (if bool_decide (Py.lower v = "clase") then
           _ ← consume None;
           type_info ← consume (Some "ID");
           param_name ← consume (Some "ID");
           mret (mkParameter (value param_name) (value type_info))
         else
           param_name ← consume (Some "ID");
           token ← peek 0;
           ty ← attr type "type" token;
           if bool_decide (ty = "LBRACKET") then
             _ ← parse_dimensions fuel;
             mret (mkParameter (value param_name) "Array")
           else mret (mkParameter (value param_name) "Unknown"));
      comma ← match_ "COMMA";
      if negb comma then mret (params ++ [param])
      else parse_params fuel (params ++ [param])
  end.

Definition parse_procedure_def (fuel : nat) : P ProcedureDef :=
  name ← consume (Some "ID");
  _ ← consume (Some "LPAREN");
  token ← peek 0;
  ty ← attr type "type" token;
  params ← (if negb (bool_decide (ty = "RPAREN"))
            then parse_params fuel []
            else mret []);
  _ ← consume (Some "RPAREN");
  _ ← consume_keyword "begin";
  body ← parse_block_body fuel;
  _ ← consume_keyword "end";
  mret (mkProcedureDef (value name) params body).

Fixpoint parse_classes (fuel : nat) (classes : list ClassDef)
  : P (list ClassDef) :=
  match fuel with
  | O => fail OutOfFuel
  | S fuel =>
      token ← peek 0;
      if says "clase" token then
        c ← parse_class_def fuel;
        parse_classes fuel (classes ++ [c])
      else mret classes
  end.

Fixpoint parse_procedures (fuel : nat) (procedures : list ProcedureDef)
  : P (list ProcedureDef) :=
  match fuel with
  | O => fail OutOfFuel
  | S fuel =>
      token ← peek 0;
      next ← peek 1;
      if has_type ["ID"] token && has_type ["LPAREN"] next then
        d ← parse_procedure_def fuel;
        parse_procedures fuel (procedures ++ [d])
      else mret procedures
  end.

Definition parse_program_with (fuel : nat) : P Program_ :=
  classes ← parse_classes fuel [];
  procedures ← parse_procedures fuel [];
  token ← peek 0;
  main_block ←
    (if says "begin" token then
       _ ← consume None;
       b ← parse_block_body fuel;
       _ ← consume (Some "ID");
       mret b
     else mret (mkBlock []));
  mret (mkProgram "Program" classes procedures main_block).

(** [Parser(tokens).parse_program()]: the parser starts at position 0,
    with a bound on the depth of its calls that grows with the number
    of tokens. *)
Definition parse_program : result Program_ :=
  rbind (parse_program_with (16 * length tokens + 16) 0%nat)
    (fun r => ok (fst r)).

End WithTokens.
End Parser.

(** ** main.py: the front end of [analyze_file] *)

Definition front_end (code : string) : result Models.Program_ :=
  rbind (Tokenizer.tokenize code) Parser.parse_program.

(** * Properties *)

Import Models.

Arguments KnowledgeBase.compute_signature : simpl never.

(** ** Programs used in the statements below *)

Definition one_literal : Expression := Literal "1" "Integer".

(** [x <- 1] *)
Definition assign_x : Statement := Assignment "Variable(name='x')" one_literal.

(** [for var <- 1 to bound do begin ... end] *)
Definition for_to (var bound : string) (stmts : list Statement) : Statement :=
  ForLoop var one_literal (Variable_ bound) (mkBlock stmts).

Definition main_program (stmts : list Statement) : Program_ :=
  mkProgram "Program" [] [] (mkBlock stmts).

Definition dependent_nest_source : string :=
  "begin for i <- 1 to n do begin for j <- 1 to i do begin x <- 1 end end end".

Definition dependent_nest : Statement :=
  for_to "i" "n" [for_to "j" "i" [assign_x]].

Definition independent_nest_source : string :=
  "begin for i <- 1 to n do begin for j <- 1 to m do begin x <- 1 end end end".

Definition independent_nest : Statement :=
  for_to "i" "n" [for_to "j" "m" [assign_x]].

Definition three_loops_source : string :=
  "begin while (x > 0) do begin x <- 1 end for i <- 1 to n do begin for j <- 1 to n do begin x <- 1 end end for i <- 1 to n do begin for j <- 1 to n do begin for k <- 1 to n do begin x <- 1 end end end end".

Definition positive_x : Expression :=
  BinaryOp (Variable_ "x") ">" (Literal "0" "Integer").

Definition three_loops : list Statement :=
  [ WhileLoop positive_x (mkBlock [assign_x]);
    for_to "i" "n" [for_to "j" "n" [assign_x]];
    for_to "i" "n" [for_to "j" "n" [for_to "k" "n" [assign_x]]] ].

Definition if_source : string :=
  "begin if (x > 0) then begin while (x > 0) do begin x <- 1 end end else begin x <- 1 end end".

Definition if_example : Statement :=
  IfStatement positive_x
    (mkBlock [WhileLoop positive_x (mkBlock [assign_x])])
    (Some (mkBlock [assign_x])).

Definition linear : Complexity.t := Complexity.mk "n" "n" "n".
Definition quadratic : Complexity.t := Complexity.mk "n^2" "n^2" "n^2".

(** A process started without a knowledge-base file, and an environment
    without credential. *)
Definition fresh : Analyzer.world := Analyzer.start KnowledgeBase.Missing.

Definition no_credential : AIEngine.env :=
  AIEngine.mkEnv None (fun _ _ => AIEngine.Raised EmptyString)
    (fun _ => AIEngine.Invalid EmptyString).

Definition signature_of {A} `{ToDict A} (node : A) : string :=
  KnowledgeBase.compute_signature (to_dict node).

(** The sources above parse to the trees above. *)
Lemma sources_parse :
  front_end dependent_nest_source = ok (main_program [dependent_nest])
  /\ front_end independent_nest_source = ok (main_program [independent_nest])
  /\ front_end three_loops_source = ok (main_program three_loops)
  /\ front_end if_source = ok (main_program [if_example]).
Proof. repeat split; vm_compute; reflexivity. Qed.

(** ** Vocabulary of the properties *)

Section Vocabulary.
Import Analyzer Tokenizer.

(** [m] keeps the invariant [I], whether it returns or raises. *)
Definition keeps {A} (I : world -> Prop) (m : M A) : Prop :=
  forall w, I w -> I (snd (m w)).

(** An invariant survives step 3 when it survives the store of a result
    under a signature that missed at step 1. *)
Definition store_safe (I : world -> Prop) : Prop :=
  forall w sig, I w -> cache_hit w sig = None ->
  forall r w', I w' -> I (memoize sig r w').

(** The worlds that can follow [w]: after one more analysis, whether it
    returned or raised, and after a restart of the process, which reads
    the knowledge base back from its file. *)
Inductive follows (w : world) : world -> Prop :=
| follows_now : follows w w
| follows_analysis env node context w' :
    follows w w' -> follows w (snd (analyze env node context w'))
| follows_restart w' :
    follows w w' -> follows w (start (KnowledgeBase.file (kb w'))).

(** The entry [d] is stored under [k], in memory and on file. *)
Definition stored (k : string) (d : Dict) (w : world) : Prop :=
  KnowledgeBase.data (kb w) !! k = Some d
  /\ KnowledgeBase.file (kb w) = KnowledgeBase.Holds (KnowledgeBase.data (kb w)).

(** A knowledge base that holds unit costs only. *)
Definition unit_cache (w : world) : Prop :=
  forall k r, cache_hit w k = Some r -> r = Complexity.one.

(** [m] returns the unit cost and leaves a knowledge base of unit
    costs. *)
Definition units (m : M Complexity.t) : Prop :=
  forall w, unit_cache w ->
  fst (m w) = ok Complexity.one /\ unit_cache (snd (m w)).

(** A pattern that consumes at least one byte when it matches. *)
Definition consuming (p : pattern) : Prop :=
  forall s v rest, p s = Some (v, rest) ->
  (String.length rest < String.length s)%nat.

(** A token sequence without opening brace. *)
Definition no_brace (tokens : list Token) : Prop :=
  Forall (fun t => type t <> "LBRACE") tokens.

End Vocabulary.

(** Every [RepeatLoop] read as a [WhileLoop] with the same fields: the two
    classes declare the same field names, and [to_dict] records no class. *)
Fixpoint Statement_as_while (s : Statement) : Statement :=
  match s with
  | Assignment t v => Assignment t v
  | IfStatement c t e =>
      IfStatement c (Block_as_while t)
        match e with
        | Some b => Some (Block_as_while b)
        | None => None
        end
  | ForLoop x a b body => ForLoop x a b (Block_as_while body)
  | WhileLoop c body => WhileLoop c (Block_as_while body)
  | RepeatLoop c body => WhileLoop c (Block_as_while body)
  | Call p args => Call p args
  end
with Block_as_while (b : Block) : Block :=
  match b with
  | mkBlock l => mkBlock (map Statement_as_while l)
  end.

Definition ProcedureDef_as_while (d : ProcedureDef) : ProcedureDef :=
  mkProcedureDef (proc_name d) (params d) (Block_as_while (body d)).

Definition ASTNode_as_while (n : ASTNode) : ASTNode :=
  match n with
  | NProgram p =>
      NProgram (mkProgram (name p) (classes p)
                  (map ProcedureDef_as_while (procedures p))
                  (Block_as_while (main_block p)))
  | NProcedureDef d => NProcedureDef (ProcedureDef_as_while d)
  | NBlock b => NBlock (Block_as_while b)
  | NStatement s => NStatement (Statement_as_while s)
  | NClassDef _ | NParameter _ | NExpression _ => n
  end.

(** ** The monad of the analyzer *)

(** Two computations that do the same in every world. *)
Definition same {A} (m m' : Analyzer.M A) : Prop := forall w, m w = m' w.

Section AnalyzerFacts.
Import Analyzer.

Lemma memoized_hit d m w r :
  cache_hit w (KnowledgeBase.compute_signature d) = Some r ->
  memoized d m w = (ok r, w).
Proof. intros H. unfold memoized. rewrite H. reflexivity. Qed.

Lemma memoized_miss d m w :
  cache_hit w (KnowledgeBase.compute_signature d) = None ->
  memoized d m w =
    match m w with
    | (inr r, w') => (ok r, memoize (KnowledgeBase.compute_signature d) r w')
    | (inl e, w') => (inl e, w')
    end.
Proof. intros H. unfold memoized. rewrite H. reflexivity. Qed.

Lemma bind_ok {A B} (m : M A) (k : A -> M B) w a w' :
  m w = (ok a, w') -> (m ≫= k) w = k a w'.
Proof. intros H. unfold mbind, M_bind. rewrite H. reflexivity. Qed.

Lemma estimate_iterations_linear a b : estimate_iterations a b = linear.
Proof.
  unfold estimate_iterations.
  destruct b; try reflexivity. case_bool_decide; reflexivity.
Qed.

Lemma from_dict_to_dict c : Complexity.from_dict (Complexity.to_dict c) = c.
Proof. destruct c. reflexivity. Qed.

Lemma truthy_to_dict c : truthy (Complexity.to_dict c) = true.
Proof.
  unfold truthy, Complexity.to_dict.
  rewrite bool_decide_eq_false_2; [reflexivity|].
  apply insert_non_empty.
Qed.

Lemma cache_hit_memoize sig r w k :
  cache_hit (memoize sig r w) k =
    if decide (sig = k) then Some r else cache_hit w k.
Proof.
  unfold cache_hit, memoize, KnowledgeBase.get_complexity,
    KnowledgeBase.add_complexity. simpl.
  rewrite lookup_insert. destruct (decide (sig = k)); [|reflexivity].
  rewrite truthy_to_dict, from_dict_to_dict. reflexivity.
Qed.

(** *** Invariants of the world *)

Lemma keeps_ret {A} I (a : A) : keeps I (mret a).
Proof. intros w H. exact H. Qed.

Lemma keeps_lift {A} I (r : result A) : keeps I (lift r).
Proof. intros w H. exact H. Qed.

Lemma keeps_bind {A B} I (m : M A) (k : A -> M B) :
  keeps I m -> (forall a, keeps I (k a)) -> keeps I (m ≫= k).
Proof.
  intros Hm Hk w H. unfold mbind, M_bind.
  specialize (Hm w H). destruct (m w) as [[e|a] w']; simpl in *.
  - exact Hm.
  - apply Hk, Hm.
Qed.

Lemma keeps_sum_costs I f stmts total :
  Forall (fun s => keeps I (f s)) stmts -> keeps I (sum_costs f stmts total).
Proof.
  intros H. revert total. induction H as [|s l Hs _ IH]; intros total; simpl.
  - apply keeps_ret.
  - apply keeps_bind; [exact Hs|]. intros c.
    apply keeps_bind; [apply keeps_lift|]. intros t. apply IH.
Qed.

Lemma keeps_memoized I d m :
  store_safe I -> keeps I m -> keeps I (memoized d m).
Proof.
  intros Hs Hm w H. unfold memoized.
  destruct (cache_hit w _) eqn:Hc; [exact H|].
  specialize (Hm w H). destruct (m w) as [[e|r] w']; simpl in *.
  - exact Hm.
  - eapply Hs; eauto.
Qed.

(** Induction on statements and blocks together. *)
Section StatementInduction.
Variables (P : Statement -> Prop) (Q : Block -> Prop).
Hypothesis HAssignment : forall t v, P (Assignment t v).
Hypothesis HIf :
  forall c t e, Q t -> from_option Q True e -> P (IfStatement c t e).
Hypothesis HFor : forall x a b body, Q body -> P (ForLoop x a b body).
Hypothesis HWhile : forall c body, Q body -> P (WhileLoop c body).
Hypothesis HRepeat : forall c body, Q body -> P (RepeatLoop c body).
Hypothesis HCall : forall p args, P (Call p args).
Hypothesis HBlock : forall l, Forall P l -> Q (mkBlock l).

Fixpoint Statement_induction (s : Statement) : P s :=
  match s with
  | Assignment t v => HAssignment t v
  | IfStatement c t e =>
      HIf c t e (Block_induction t)
        match e return from_option Q True e with
        | Some b => Block_induction b
        | None => I
        end
  | ForLoop x a b body => HFor x a b body (Block_induction body)
  | WhileLoop c body => HWhile c body (Block_induction body)
  | RepeatLoop c body => HRepeat c body (Block_induction body)
  | Call p args => HCall p args
  end
with Block_induction (b : Block) : Q b :=
  match b with
  | mkBlock l =>
      HBlock l
        ((fix all (l : list Statement) : Forall P l :=
            match l return Forall P l with
            | [] => @List.Forall_nil _ P
            | s :: l' =>
                @List.Forall_cons _ P s l' (Statement_induction s) (all l')
            end) l)
  end.

Lemma Statement_Block_induction : (forall s, P s) /\ (forall b, Q b).
Proof. split; [exact Statement_induction | exact Block_induction]. Qed.
End StatementInduction.

Section Keeps.
Variable env : AIEngine.env.
Variable I : world -> Prop.
Hypothesis I_store : store_safe I.
Hypothesis I_oracle :
  forall w d, I w -> I (mkWorld (kb w) (oracle_calls w ++ [d])).

Lemma keeps_Expression e context :
  keeps I (analyze_Expression e context).
Proof.
  induction e; simpl; apply keeps_memoized; auto using keeps_ret.
  apply keeps_bind; [assumption|]. intros a.
  apply keeps_bind; [assumption|]. intros b. apply keeps_lift.
Qed.

Lemma keeps_Statement_Block :
  (forall s context, keeps I (analyze_Statement env s context))
  /\ (forall b context, keeps I (analyze_Block env b context)).
Proof.
  apply Statement_Block_induction.
  - intros t v context. simpl. apply keeps_memoized; [assumption|].
    apply keeps_bind; [apply keeps_Expression|]. intros a. apply keeps_lift.
  - intros c t e Ht He context. simpl. apply keeps_memoized; [assumption|].
    apply keeps_bind; [apply keeps_Expression|]. intros cc.
    apply keeps_bind; [apply Ht|]. intros tc.
    apply keeps_bind.
    { destruct e; [apply He | apply keeps_ret]. }
    intros ec. apply keeps_bind; [apply keeps_lift|]. intros mb.
    apply keeps_lift.
  - intros x a b body Hbody context. simpl.
    apply keeps_memoized; [assumption|].
    destruct (check_dependency a b context).
    + apply keeps_bind; [|intros; apply keeps_lift].
      intros w Hw. apply I_oracle, Hw.
    + apply keeps_bind; [apply Hbody|]. intros bc. apply keeps_lift.
  - intros c body Hbody context. simpl.
    apply keeps_memoized; [assumption|].
    apply keeps_bind; [apply Hbody|]. intros bc. apply keeps_lift.
  - intros c body Hbody context. simpl.
    apply keeps_memoized; [assumption|].
    apply keeps_bind; [apply Hbody|]. intros bc. apply keeps_lift.
  - intros p args context. simpl.
    apply keeps_memoized; [assumption|]. apply keeps_ret.
  - intros l Hl context. simpl. apply keeps_memoized; [assumption|].
    apply keeps_sum_costs. eapply Forall_impl; [exact Hl|].
    intros s Hs. apply Hs.
Qed.

Lemma keeps_analyze node context : keeps I (analyze env node context).
Proof.
  destruct node; simpl; try (apply keeps_memoized; [assumption|apply keeps_ret]).
  - unfold analyze_Program. apply keeps_memoized; [assumption|].
    apply keeps_Statement_Block.
  - apply keeps_Statement_Block.
  - apply keeps_Statement_Block.
  - apply keeps_Expression.
Qed.
End Keeps.

(** *** What a stored result does to later analyses *)

Lemma stored_store_safe k d : truthy d = true -> store_safe (stored k d).
Proof.
  intros Hd w sig [Hk _] Hmiss r w' [Hk' _].
  assert (sig <> k) as Hne.
  { intros ->. unfold cache_hit, KnowledgeBase.get_complexity in Hmiss.
    rewrite Hk, Hd in Hmiss. discriminate. }
  split; simpl; [|reflexivity].
  rewrite lookup_insert_ne by exact Hne. exact Hk'.
Qed.

Lemma stored_follows k d w w' :
  truthy d = true -> stored k d w -> follows w w' -> stored k d w'.
Proof.
  intros Hd Hw Hf. induction Hf as [|env node context w' _ IH|w' _ IH].
  - exact Hw.
  - apply keeps_analyze; [apply stored_store_safe, Hd| |exact IH].
    intros w0 d0 H0. exact H0.
  - destruct IH as [Hk Hfile]. unfold start, stored. rewrite Hfile. simpl.
    split; [exact Hk|reflexivity].
Qed.

Lemma analyze_unfold_memoized env node context :
  exists m, analyze env node context = memoized (to_dict node) m.
Proof.
  destruct node as [p|c|d|a|b|s|e]; simpl; eauto.
  - destruct b; simpl; eauto.
  - destruct s; simpl; eauto.
  - destruct e; simpl; eauto.
Qed.

Lemma analyze_hit env node context w r :
  cache_hit w (signature_of node) = Some r ->
  analyze env node context w = (ok r, w).
Proof.
  intros H. destruct (analyze_unfold_memoized env node context) as [m ->].
  apply memoized_hit, H.
Qed.

Lemma dependent_for env variable start_value end_value body context w :
  check_dependency start_value end_value context = true ->
  cache_hit w (signature_of (ForLoop variable start_value end_value body)) = None ->
  let loop := ForLoop variable start_value end_value body in
  let asked := mkWorld (kb w) (oracle_calls w ++ [to_dict loop]) in
  analyze env (NStatement loop) (Some context) w
  = match
      Complexity.from_answer
        (AIEngine.analyze_complexity env (length (oracle_calls w))
           (to_dict loop))
    with
    | inr answer => (ok answer, memoize (signature_of loop) answer asked)
    | inl e => (inl e, asked)
    end.
Proof.
  intros Hdep Hmiss loop asked. simpl.
  rewrite memoized_miss by exact Hmiss. rewrite Hdep.
  unfold mbind, M_bind, ask_oracle, lift, ok. cbv beta iota.
  destruct (Complexity.from_answer _); reflexivity.
Qed.

(** *** A knowledge base that holds unit costs only *)

Lemma unit_cache_fresh f :
  f = KnowledgeBase.Missing \/ f = KnowledgeBase.Corrupt ->
  unit_cache (start f).
Proof.
  intros [-> | ->] k r; unfold cache_hit, KnowledgeBase.get_complexity;
    simpl; rewrite lookup_empty; discriminate.
Qed.

Lemma units_ret : units (mret Complexity.one).
Proof. intros w H. split; [reflexivity|exact H]. Qed.

Lemma units_bind m k : units m -> units (k Complexity.one) -> units (m ≫= k).
Proof.
  intros Hm Hk w H. destruct (Hm w H) as [Hr Hw].
  unfold mbind, M_bind. destruct (m w) as [r w']. simpl in *. subst r.
  apply Hk, Hw.
Qed.

Lemma units_memoized d m : units m -> units (memoized d m).
Proof.
  intros Hm w H. unfold memoized.
  destruct (cache_hit w _) eqn:Hc; simpl.
  - rewrite (H _ _ Hc). split; [reflexivity|exact H].
  - destruct (Hm w H) as [Hr Hw]. destruct (m w) as [r w']. simpl in *.
    subst r. simpl. split; [reflexivity|].
    intros k r. rewrite cache_hit_memoize.
    destruct (decide _); [congruence | apply Hw].
Qed.

Lemma units_Expression e context : units (analyze_Expression e context).
Proof.
  induction e; simpl; apply units_memoized; auto using units_ret.
  apply units_bind; [assumption|]. apply units_bind; [assumption|].
  intros w H. split; [reflexivity|exact H].
Qed.

Lemma units_Assignment env t v context :
  units (analyze_Statement env (Assignment t v) context).
Proof.
  simpl. apply units_memoized. apply units_bind; [apply units_Expression|].
  intros w H. split; [reflexivity|exact H].
Qed.

Lemma analyze_Block_eq env stmts context :
  analyze_Block env (mkBlock stmts) context
  = memoized (to_dict (mkBlock stmts))
      (sum_costs (fun stmt => analyze_Statement env stmt context) stmts
         Complexity.one).
Proof. reflexivity. Qed.

Lemma units_sum_costs f stmts :
  Forall (fun s => units (f s)) stmts ->
  units (sum_costs f stmts Complexity.one).
Proof.
  induction 1 as [|s l Hs _ IH]; simpl; [apply units_ret|].
  apply units_bind; [exact Hs|].
  intros w H. unfold mbind, M_bind, lift. simpl. apply IH, H.
Qed.

(** *** The analysis reads the keys of the context only *)

Lemma same_refl {A} (m : M A) : same m m.
Proof. intros w. reflexivity. Qed.

Lemma same_bind {A B} (m m' : M A) (k k' : A -> M B) :
  same m m' -> (forall a, same (k a) (k' a)) -> same (m ≫= k) (m' ≫= k').
Proof.
  intros Hm Hk w. unfold mbind, M_bind. rewrite Hm.
  destruct (m' w) as [[e|a] w1]; [reflexivity | apply Hk].
Qed.

Lemma same_memoized d m m' : same m m' -> same (memoized d m) (memoized d m').
Proof. intros Hm w. unfold memoized. rewrite Hm. reflexivity. Qed.

Lemma same_sum_costs f f' stmts total :
  Forall (fun s => same (f s) (f' s)) stmts ->
  same (sum_costs f stmts total) (sum_costs f' stmts total).
Proof.
  intros H. revert total. induction H as [|s l Hs _ IH]; intros total.
  - apply same_refl.
  - cbn [sum_costs]. apply same_bind; [exact Hs|]. intros c.
    apply same_bind; [apply same_refl|]. intros t. apply IH.
Qed.

Lemma same_Expression e context context' :
  same (analyze_Expression e context) (analyze_Expression e context').
Proof.
  induction e; simpl; apply same_memoized; auto using same_refl.
  apply same_bind; [assumption|]. intros a.
  apply same_bind; [assumption|]. intros b. apply same_refl.
Qed.

Section Keys.
Variable env : AIEngine.env.

Lemma check_dependency_keys a b (context context' : Context) :
  dom context = dom context' ->
  check_dependency a b context = check_dependency a b context'.
Proof. intros H. unfold check_dependency. rewrite H. reflexivity. Qed.

Lemma same_keys_Statement_Block :
  (forall s (context context' : Context),
     dom context = dom context' ->
     same (analyze_Statement env s context) (analyze_Statement env s context'))
  /\ (forall b (context context' : Context),
        dom context = dom context' ->
        same (analyze_Block env b context) (analyze_Block env b context')).
Proof.
  apply Statement_Block_induction.
  - intros t v context context' Hdom. simpl. apply same_memoized.
    apply same_bind; [apply same_Expression|]. intros a. apply same_refl.
  - intros c t e Ht He context context' Hdom. simpl. apply same_memoized.
    apply same_bind; [apply same_Expression|]. intros cc.
    apply same_bind; [apply Ht, Hdom|]. intros tc.
    apply same_bind.
    { destruct e; [apply He, Hdom | apply same_refl]. }
    intros ec. apply same_refl.
  - intros x a b body Hbody context context' Hdom.
    cbn [analyze_Statement]. apply same_memoized.
    rewrite (check_dependency_keys a b context context' Hdom).
    destruct (check_dependency a b context'); [apply same_refl|].
    apply same_bind; [|intros bc; apply same_refl].
    apply Hbody. rewrite !dom_insert_L, Hdom. reflexivity.
  - intros c body Hbody context context' Hdom.
    cbn [analyze_Statement]. apply same_memoized.
    apply same_bind; [apply Hbody, Hdom|]. intros bc. apply same_refl.
  - intros c body Hbody context context' Hdom.
    cbn [analyze_Statement]. apply same_memoized.
    apply same_bind; [apply Hbody, Hdom|]. intros bc. apply same_refl.
  - intros p args context context' _. simpl. apply same_refl.
  - intros stmts Hl context context' Hdom. rewrite !analyze_Block_eq.
    apply same_memoized. apply same_sum_costs.
    eapply Forall_impl; [exact Hl|]. intros s Hs. apply Hs, Hdom.
Qed.

Lemma same_keys_analyze node (context context' : Context) :
  dom context = dom context' ->
  same (analyze env node (Some context)) (analyze env node (Some context')).
Proof.
  intros Hdom. destruct node; simpl; try apply same_refl.
  - unfold analyze_Program. apply same_memoized.
    apply same_keys_Statement_Block, Hdom.
  - apply same_keys_Statement_Block, Hdom.
  - apply same_keys_Statement_Block, Hdom.
  - apply same_Expression.
Qed.
End Keys.

End AnalyzerFacts.

Lemma signature_of_NStatement (s : Statement) :
  signature_of (NStatement s) = signature_of s.
Proof. unfold signature_of. f_equal. Qed.

(** ** Field dictionaries and node variants *)

Section FieldDictionaries.

Lemma Expression_to_dict_inj e1 e2 :
  Expression_to_dict e1 = Expression_to_dict e2 -> e1 = e2.
Proof.
  revert e2. induction e1; intros [] H; simpl in H; try discriminate;
    injection H; intros; subst; f_equal; auto.
Qed.

Lemma map_to_dict_inj {A} (f : A -> pydict) (g : A -> A) l1 l2 :
  Forall (fun x => forall y, f x = f y -> g x = g y) l1 ->
  map (fun x => PDict (f x)) l1 = map (fun x => PDict (f x)) l2 ->
  map g l1 = map g l2.
Proof.
  intros H. revert l2. induction H as [|x l Hx _ IH]; intros [|y l2] E;
    simpl in *; try discriminate; [reflexivity|].
  injection E as E1 E2. f_equal; auto.
Qed.

Lemma Block_to_dict_eq l :
  Block_to_dict (mkBlock l)
  = [("statements", PList (map (fun s => PDict (Statement_to_dict s)) l))].
Proof. reflexivity. Qed.

Lemma to_dict_as_while :
  (forall s, Statement_to_dict (Statement_as_while s) = Statement_to_dict s)
  /\ (forall b, Block_to_dict (Block_as_while b) = Block_to_dict b).
Proof.
  apply Statement_Block_induction; try reflexivity.
  - intros c t e Ht He. simpl. rewrite Ht.
    destruct e; simpl in *; [rewrite He|]; reflexivity.
  - intros x a b body H. simpl. rewrite H. reflexivity.
  - intros c body H. simpl. rewrite H. reflexivity.
  - intros c body H. simpl. rewrite H. reflexivity.
  - intros l H. change (Block_as_while (mkBlock l))
      with (mkBlock (map Statement_as_while l)).
    rewrite !Block_to_dict_eq. do 3 f_equal.
    induction H as [|s l Hs _ IH]; simpl; congruence.
Qed.

Lemma arguments_inj (l1 l2 : list Expression) :
  map (fun a => PDict (Expression_to_dict a)) l1
  = map (fun a => PDict (Expression_to_dict a)) l2 -> l1 = l2.
Proof.
  intros H. rewrite <- (map_id l1), <- (map_id l2).
  eapply map_to_dict_inj; [|exact H].
  apply Forall_forall. intros x _ y. apply Expression_to_dict_inj.
Qed.

(** Two dictionaries of the same class: compare them field by field. *)
Ltac same_fields H :=
  injection H; clear H; intros; subst; simpl; f_equal;
  auto using Expression_to_dict_inj, arguments_inj.

Lemma to_dict_determines :
  (forall s1 s2, Statement_to_dict s1 = Statement_to_dict s2 ->
                 Statement_as_while s1 = Statement_as_while s2)
  /\ (forall b1 b2, Block_to_dict b1 = Block_to_dict b2 ->
                    Block_as_while b1 = Block_as_while b2).
Proof.
  apply Statement_Block_induction.
  - intros t v [] H; simpl in H; try discriminate. same_fields H.
  - intros c t e Ht He [? ?|? ? e'|? ? ? ?|? ?|? ?|? ?] H; simpl in H;
      try discriminate.
    destruct e, e'; simpl in *; try discriminate; same_fields H.
    f_equal. auto.
  - intros x a b body Hb [] H; simpl in H; try discriminate. same_fields H.
  - intros c body Hb [] H; simpl in H; try discriminate; same_fields H.
  - intros c body Hb [] H; simpl in H; try discriminate; same_fields H.
  - intros p args [] H; simpl in H; try discriminate. same_fields H.
  - intros l Hl [l2] H. rewrite !Block_to_dict_eq in H.
    simpl. f_equal. eapply map_to_dict_inj; [exact Hl|].
    congruence.
Qed.

Lemma strings_inj (l1 l2 : list string) : map PStr l1 = map PStr l2 -> l1 = l2.
Proof.
  revert l2. induction l1 as [|x l1 IH]; intros [|y l2] H; simpl in H;
    try discriminate; [reflexivity|].
  injection H as -> H. f_equal. auto.
Qed.

Lemma ClassDef_to_dict_inj (c1 c2 : ClassDef) : to_dict c1 = to_dict c2 -> c1 = c2.
Proof.
  destruct c1, c2. unfold to_dict, ClassDef_ToDict. simpl. intros H.
  injection H as -> H. apply strings_inj in H. congruence.
Qed.

Lemma Parameter_to_dict_inj (a1 a2 : Parameter_) :
  to_dict a1 = to_dict a2 -> a1 = a2.
Proof.
  destruct a1, a2. unfold to_dict, Parameter_ToDict. simpl. congruence.
Qed.

Lemma list_to_dict_inj {A} `{ToDict A} (g : A -> A) (l1 l2 : list A) :
  (forall x y : A, to_dict x = to_dict y -> g x = g y) ->
  map (fun x => PDict (to_dict x)) l1 = map (fun x => PDict (to_dict x)) l2 ->
  map g l1 = map g l2.
Proof.
  intros Hg. apply map_to_dict_inj. apply Forall_forall. intros x _. apply Hg.
Qed.

Lemma ProcedureDef_to_dict_determines (d1 d2 : ProcedureDef) :
  to_dict d1 = to_dict d2 -> ProcedureDef_as_while d1 = ProcedureDef_as_while d2.
Proof.
  destruct d1 as [n1 p1 b1], d2 as [n2 p2 b2].
  unfold to_dict, ProcedureDef_ToDict, ProcedureDef_as_while. simpl.
  intros H. injection H as -> Hp Hb.
  apply (list_to_dict_inj id) in Hp; [|apply Parameter_to_dict_inj].
  rewrite !map_id in Hp. apply to_dict_determines in Hb. congruence.
Qed.

Lemma Program_to_dict_determines (p1 p2 : Program_) :
  to_dict p1 = to_dict p2 ->
  ASTNode_as_while (NProgram p1) = ASTNode_as_while (NProgram p2).
Proof.
  destruct p1 as [n1 c1 d1 b1], p2 as [n2 c2 d2 b2].
  unfold to_dict, Program_ToDict. simpl.
  intros H. injection H as -> Hc Hd Hb.
  apply (list_to_dict_inj id) in Hc; [|apply ClassDef_to_dict_inj].
  rewrite !map_id in Hc.
  apply (list_to_dict_inj ProcedureDef_as_while) in Hd;
    [|apply ProcedureDef_to_dict_determines].
  apply to_dict_determines in Hb. congruence.
Qed.

Lemma ProcedureDef_to_dict_as_while (d : ProcedureDef) :
  ProcedureDef_ToDict (ProcedureDef_as_while d) = ProcedureDef_ToDict d.
Proof.
  destruct d as [n p b].
  cbv [to_dict ProcedureDef_ToDict ProcedureDef_as_while Block_ToDict
         proc_name params body].
  rewrite (proj2 to_dict_as_while). reflexivity.
Qed.

Lemma ASTNode_to_dict_as_while (n : ASTNode) :
  to_dict (ASTNode_as_while n) = to_dict n.
Proof.
  destruct n as [p|c|d|a|b|s|e]; try reflexivity.
  - destruct p as [n c d b].
    cbv [to_dict ASTNode_ToDict ASTNode_as_while Program_ToDict Block_ToDict
           name classes procedures main_block].
    rewrite (proj2 to_dict_as_while). do 3 f_equal.
    rewrite map_map. do 2 f_equal. apply map_ext. intros d'.
    f_equal. apply ProcedureDef_to_dict_as_while.
  - apply ProcedureDef_to_dict_as_while.
  - apply to_dict_as_while.
  - apply to_dict_as_while.
Qed.

(** Dictionaries of different classes differ in the name of their first
    or second field, or in the number of fields. *)
Lemma ASTNode_to_dict_determines (n1 n2 : ASTNode) :
  to_dict n1 = to_dict n2 -> ASTNode_as_while n1 = ASTNode_as_while n2.
Proof.
  destruct n1 as [p1|c1|d1|a1|b1|s1|e1], n2 as [p2|c2|d2|a2|b2|s2|e2];
    unfold to_dict at 1 2, ASTNode_ToDict; intros H.
  all: try (apply Program_to_dict_determines, H).
  all: try (simpl; f_equal; apply ClassDef_to_dict_inj, H).
  all: try (simpl; f_equal; apply ProcedureDef_to_dict_determines, H).
  all: try (simpl; f_equal; apply Parameter_to_dict_inj, H).
  all: try (simpl; f_equal; apply to_dict_determines, H).
  all: try (simpl; f_equal; apply Expression_to_dict_inj, H).
  all: exfalso; revert H.
  all: repeat match goal with
         | x : Program_ |- _ => destruct x
         | x : ClassDef |- _ => destruct x
         | x : ProcedureDef |- _ => destruct x
         | x : Parameter_ |- _ => destruct x
         | x : Block |- _ => destruct x
         end.
  all: try destruct s1; try destruct s2; try destruct e1; try destruct e2.
  all: cbv [to_dict Program_ToDict ClassDef_ToDict ProcedureDef_ToDict
              Parameter_ToDict Block_ToDict Statement_ToDict
              Expression_ToDict]; simpl; discriminate.
Qed.

End FieldDictionaries.

(** ** The tokenizer has no brace *)

Section NoBrace.
Import Tokenizer Parser.

Lemma first_match_type types s token_type v rest :
  first_match types s = Some (token_type, v, rest) ->
  token_type ∈ map fst types.
Proof.
  induction types as [|[ty p] types IH]; simpl; [discriminate|].
  destruct (p s) as [[v' s']|].
  - intros H. injection H as <- _ _. apply list_elem_of_here.
  - intros H. apply list_elem_of_further, IH, H.
Qed.

Lemma tokenize_from_no_brace fuel code line column tokens result :
  no_brace tokens ->
  tokenize_from fuel code line column tokens = ok result ->
  no_brace result.
Proof.
  unfold ok, raise. revert code line column tokens.
  induction fuel as [|fuel IH]; intros code line column tokens Hacc;
    destruct code as [|c code]; cbn [tokenize_from]; unfold ok, raise;
    try discriminate;
    try (intros H; injection H as <-; exact Hacc).
  destruct (first_match TOKEN_TYPES (String c code))
    as [[[token_type v] rest]|] eqn:Hm; [|discriminate].
  apply first_match_type in Hm.
  repeat case_bool_decide; try discriminate; try (apply IH; exact Hacc).
  apply IH. apply Forall_app. split; [exact Hacc|].
  apply Forall_cons_2; [|apply Forall_nil_2]. simpl.
  intros ->. revert Hm. apply (bool_decide_unpack _). vm_compute. exact I.
Qed.

Lemma tokenize_no_brace code tokens :
  tokenize code = ok tokens -> no_brace tokens.
Proof. apply tokenize_from_no_brace, Forall_nil_2. Qed.

Lemma bind_peek {A} tokens offset (k : option Token -> P A) pos :
  (peek tokens offset ≫= k) pos = k (tokens !! (pos + offset)%nat) pos.
Proof. reflexivity. Qed.

Lemma bind_raised {A B} (m : P A) (k : A -> P B) pos e :
  m pos = inl e -> (m ≫= k) pos = inl e.
Proof. intros H. unfold mbind, P_bind. rewrite H. reflexivity. Qed.

Lemma bind_returned {A B} (m : P A) (k : A -> P B) pos a pos' :
  m pos = inr (a, pos') -> (m ≫= k) pos = k a pos'.
Proof. intros H. unfold mbind, P_bind. rewrite H. reflexivity. Qed.

Lemma consume_brace_fails tokens pos :
  no_brace tokens -> exists e, consume tokens (Some "LBRACE") pos = inl e.
Proof.
  intros H. unfold consume. rewrite bind_peek.
  destruct (tokens !! (pos + 0)%nat) as [t|] eqn:Ht; [|eexists; reflexivity].
  assert (type t <> "LBRACE") as Hne.
  { eapply Forall_lookup_1 in H; [exact H|exact Ht]. }
  rewrite (bool_decide_eq_false_2 _ Hne). eexists. reflexivity.
Qed.

Lemma parse_class_def_fails tokens fuel pos :
  no_brace tokens -> exists e, parse_class_def tokens fuel pos = inl e.
Proof.
  intros H. unfold parse_class_def.
  destruct (consume tokens (Some "ID") pos) as [e|[t1 pos1]] eqn:H1;
    [exists e; apply bind_raised, H1|].
  rewrite (bind_returned _ _ _ _ _ H1).
  destruct (consume tokens (Some "ID") pos1) as [e|[t2 pos2]] eqn:H2;
    [exists e; apply bind_raised, H2|].
  rewrite (bind_returned _ _ _ _ _ H2).
  destruct (consume_brace_fails tokens pos2 H) as [e He].
  exists e. apply bind_raised, He.
Qed.

Lemma parse_classes_none tokens fuel classes pos result pos' :
  no_brace tokens ->
  parse_classes tokens fuel classes pos = inr (result, pos') ->
  result = classes.
Proof.
  intros H. revert classes pos.
  induction fuel as [|fuel IH]; intros classes pos; cbn [parse_classes];
    [discriminate|].
  rewrite bind_peek.
  destruct (says "clase" (tokens !! (pos + 0)%nat)).
  - destruct (parse_class_def_fails tokens fuel pos H) as [e He].
    rewrite (bind_raised _ _ _ _ He). discriminate.
  - intros E. injection E as <- _. reflexivity.
Qed.

Lemma parse_program_no_class tokens p :
  no_brace tokens -> parse_program tokens = ok p -> classes p = [].
Proof.
  intros H. unfold parse_program, parse_program_with, ok, rbind.
  generalize (16 * length tokens + 16)%nat. intros fuel.
  destruct (parse_classes tokens fuel [] 0%nat) as [e|[cs pos]] eqn:Hc.
  { rewrite (bind_raised _ _ _ _ Hc). discriminate. }
  rewrite (bind_returned _ _ _ _ _ Hc).
  apply parse_classes_none in Hc; [subst cs|exact H].
  destruct (parse_procedures tokens fuel [] pos) as [e|[ds pos1]] eqn:Hd.
  { rewrite (bind_raised _ _ _ _ Hd). discriminate. }
  rewrite (bind_returned _ _ _ _ _ Hd), bind_peek.
  match goal with
  | |- context [mbind _ ?m pos1] =>
      destruct (m pos1) as [e|[blk pos2]] eqn:Hb
  end.
  { rewrite (bind_raised _ _ _ _ Hb). discriminate. }
  rewrite (bind_returned _ _ _ _ _ Hb).
  intros E. injection E as <-. reflexivity.
Qed.

End NoBrace.

(** ** The tokenizer always ends within its bound *)

Section TokenizerFuel.
Import Tokenizer.

Lemma span_length p s a b :
  span p s = (a, b) -> (String.length b <= String.length s)%nat.
Proof.
  revert a b. induction s as [|c s IH]; intros a b; simpl.
  - intros H. injection H as <- <-. simpl. lia.
  - destruct (p c).
    + destruct (span p s) as [a' b'] eqn:Hs. intros H. injection H as <- <-.
      specialize (IH _ _ eq_refl). lia.
    + intros H. injection H as <- <-. simpl. lia.
Qed.

Lemma strip_prefix_length p s r :
  Py.strip_prefix p s = Some r ->
  (String.length r + String.length p = String.length s)%nat.
Proof.
  revert s. induction p as [|a p IH]; intros [|b s]; simpl; try discriminate.
  - intros H. injection H as <-. reflexivity.
  - intros H. injection H as <-. simpl. lia.
  - destruct (Ascii.eqb a b); [|discriminate].
    intros H. apply IH in H. lia.
Qed.

Lemma literal_consuming alternatives :
  Forall (fun a => a <> EmptyString) alternatives ->
  consuming (literal alternatives).
Proof.
  induction 1 as [|a l Ha _ IH]; intros s v rest; simpl; [discriminate|].
  destruct (Py.strip_prefix a s) as [s'|] eqn:Hs.
  - intros H. injection H as <- <-. apply strip_prefix_length in Hs.
    destruct a; [congruence|]. simpl in Hs. lia.
  - apply IH.
Qed.

Lemma equivalents_not_empty k :
  Forall (fun a => a <> EmptyString) (equivalents k).
Proof.
  unfold equivalents.
  repeat (destruct (Ascii.eqb k _);
          [repeat (apply Forall_cons_2; [discriminate|]); apply Forall_nil_2|]).
  apply Forall_nil_2.
Qed.

Lemma letter_consuming k : consuming (letter k).
Proof.
  intros [|c s] v rest; cbn [letter]; [discriminate|].
  destruct (Ascii.eqb k (Py.lower_char c)).
  - intros H. injection H as <- <-. simpl. lia.
  - apply literal_consuming, equivalents_not_empty.
Qed.

Lemma keyword_length kw s v rest :
  keyword kw s = Some (v, rest) ->
  (String.length rest + String.length kw <= String.length s)%nat.
Proof.
  revert s v rest. induction kw as [|k kw IH]; intros s v rest;
    cbn [keyword].
  - destruct (word_follows s); [discriminate|].
    intros H. injection H as <- <-. simpl. lia.
  - destruct (letter k s) as [[c s']|] eqn:Hl; [|discriminate].
    destruct (keyword kw s') as [[v' rest']|] eqn:Hk; [|discriminate].
    intros H. injection H as <- <-. apply IH in Hk.
    apply letter_consuming in Hl. simpl. lia.
Qed.

Lemma TOKEN_TYPES_consuming :
  Forall (fun entry => consuming (snd entry)) TOKEN_TYPES.
Proof.
  unfold TOKEN_TYPES.
  repeat (apply Forall_cons_2; [cbn [snd]|]); try apply Forall_nil_2.
  all: try (apply literal_consuming;
            repeat (apply Forall_cons_2; [discriminate|]); apply Forall_nil_2).
  - intros s v rest. unfold comment.
    destruct (Py.strip_prefix glyph_comment s) as [s'|] eqn:Hs; [|discriminate].
    destruct (span _ s') as [text r] eqn:Hsp.
    intros H. injection H as <- <-.
    apply strip_prefix_length in Hs. apply span_length in Hsp.
    simpl in Hs. lia.
  - intros [|c s] v rest; simpl; [discriminate|].
    destruct (Ascii.eqb c Py.dq); [|discriminate].
    destruct (span _ s) as [text [|q r]] eqn:Hsp; [discriminate|].
    intros H. injection H as <- <-. apply span_length in Hsp. simpl in Hsp. lia.
  - intros s v rest. unfold number.
    destruct (span Py.is_digit s) as [[|d whole] r] eqn:Hsp; [discriminate|].
    assert (String.length r < String.length s)%nat as Hlt.
    { destruct s as [|c s]; simpl in Hsp; [discriminate|].
      destruct (Py.is_digit c); [|discriminate].
      destruct (span Py.is_digit s) as [a b] eqn:Hs'.
      injection Hsp as _ _ <-. apply span_length in Hs'. simpl. lia. }
    destruct r as [|c r]; [intros H; injection H as <- <-; exact Hlt|].
    destruct (Ascii.ascii_dec c ".") as [->|Hc].
    + destruct (span Py.is_digit r) as [[|f frac] r'] eqn:Hf.
      * intros H. injection H as <- <-. exact Hlt.
      * intros H. injection H as <- <-. apply span_length in Hf.
        simpl in Hlt. lia.
    + destruct c as [[] [] [] [] [] [] [] []];
        try (intros H; injection H as <- <-; exact Hlt).
      congruence.
  - intros s v rest H. apply keyword_length in H. simpl in H. lia.
  - intros s v rest H. apply keyword_length in H. simpl in H. lia.
  - intros [|c s] v rest; simpl; [discriminate|].
    destruct (Py.is_alpha c || Ascii.eqb c "_"); [|discriminate].
    destruct (span is_word s) as [text r] eqn:Hsp.
    intros H. injection H as <- <-. apply span_length in Hsp. lia.
  - intros s v rest. unfold blanks.
    destruct (span _ s) as [[|b text] r] eqn:Hsp; [discriminate|].
    intros H. injection H as <- <-.
    destruct s as [|c s]; simpl in Hsp; [discriminate|].
    destruct (Ascii.eqb c " " || Ascii.eqb c Py.tab); [|discriminate].
    destruct (span _ s) as [a b'] eqn:Hs'.
    injection Hsp as _ _ <-. apply span_length in Hs'. simpl. lia.
  - intros [|c s] v rest; simpl; [discriminate|].
    destruct (Ascii.eqb c Py.lf); [discriminate|].
    destruct (span _ s) as [cont r] eqn:Hsp.
    destruct (Py.in_range 192 255 c); intros H; injection H as <- <-.
    + apply span_length in Hsp. lia.
    + lia.
Qed.

Lemma first_match_consumes types s token_type v rest :
  Forall (fun entry => consuming (snd entry)) types ->
  first_match types s = Some (token_type, v, rest) ->
  (String.length rest < String.length s)%nat.
Proof.
  induction 1 as [|[ty p] l Hp _ IH]; simpl; [discriminate|].
  destruct (p s) as [[v' s']|] eqn:Hm.
  - intros H. injection H as _ _ <-. eapply Hp, Hm.
  - exact IH.
Qed.

Lemma tokenize_from_enough_fuel fuel code line column tokens :
  (String.length code <= fuel)%nat ->
  tokenize_from fuel code line column tokens <> raise OutOfFuel.
Proof.
  unfold raise. revert code line column tokens.
  induction fuel as [|fuel IH]; intros code line column tokens Hlen;
    destruct code as [|c code]; cbn [tokenize_from]; unfold ok, raise;
    try discriminate; [simpl in Hlen; lia|].
  destruct (first_match TOKEN_TYPES (String c code))
    as [[[token_type v] rest]|] eqn:Hm; [|discriminate].
  apply first_match_consumes in Hm; [|apply TOKEN_TYPES_consuming].
  assert (String.length rest <= fuel)%nat by lia.
  repeat case_bool_decide; try discriminate; apply IH; assumption.
Qed.

(** [tokenize] returns a token list or raises [SyntaxError]. *)
Lemma tokenize_total code :
  (exists tokens, tokenize code = ok tokens)
  \/ (exists msg, tokenize code = raise (SyntaxError msg)).
Proof.
  pose proof (tokenize_from_enough_fuel (String.length code) code 1 1 []
                (le_n _)) as Hfuel.
  unfold tokenize.
  assert (forall fuel code line column tokens e,
            tokenize_from fuel code line column tokens = inl e ->
            e = OutOfFuel \/ exists msg, e = SyntaxError msg) as Hexn.
  { clear. induction fuel as [|fuel IH]; intros code line column tokens e;
      destruct code as [|c code]; cbn [tokenize_from]; unfold ok, raise;
      try discriminate.
    - intros H. injection H as <-. left. reflexivity.
    - destruct (first_match TOKEN_TYPES (String c code))
        as [[[token_type v] rest]|].
      + repeat case_bool_decide; try apply IH.
        intros E. injection E as <-. right. eauto.
      + intros E. injection E as <-. right. eauto. }
  destruct (tokenize_from _ code 1 1 []) as [e|tokens] eqn:Ht.
  - right. destruct (Hexn _ _ _ _ _ _ Ht) as [->|[msg ->]];
      [exfalso; apply Hfuel; reflexivity | eauto].
  - left. eauto.
Qed.

End TokenizerFuel.

(** ** The claims *)

(** C1 (the code departs from it).  The nested loops
    [for i <- 1 to n do begin for j <- 1 to i do begin x <- 1 end end] are
    analysed on the local path: the context built for the body of the
    outer loop has the single key [loop_var], bound to [i]; the name [i]
    is not a key of it, so [check_dependency] answers false for the inner
    loop, the inner loop costs n by multiplication, the nest costs n^2,
    and the oracle is never called.  The same holds whatever the outer
    variable is called: under such a context a bound is found dependent
    only when it is the variable named [loop_var]. *)
Theorem dependent_nest_takes_local_path (env : AIEngine.env) :
  front_end dependent_nest_source = ok (main_program [dependent_nest])
  /\ (let inner_context : gmap string string := <["loop_var" := "i"]> ∅ in
      dom inner_context = {["loop_var"]}
      /\ Analyzer.check_dependency one_literal (Variable_ "i") inner_context
         = false
      /\ fst (Analyzer.analyze env (NStatement (for_to "j" "i" [assign_x]))
                (Some inner_context) fresh) = ok linear)
  /\ (forall outer bound : string,
        bound <> "loop_var" ->
        Analyzer.check_dependency one_literal (Variable_ bound)
          (<["loop_var" := outer]> ∅) = false)
  /\ (let outcome :=
        Analyzer.analyze env (NProgram (main_program [dependent_nest])) None
          fresh in
      fst outcome = ok quadratic /\ Analyzer.oracle_calls (snd outcome) = []).
Proof.
  split; [vm_compute; reflexivity|]. split; [|split].
  - split; [|split].
    + apply set_eq. intros x. rewrite dom_insert, dom_empty. set_solver.
    + vm_compute. reflexivity.
    + vm_compute. reflexivity.
  - intros outer bound Hne. unfold Analyzer.check_dependency. simpl.
    rewrite bool_decide_eq_false_2; [reflexivity|].
    intros Hin. apply elem_of_dom in Hin as [v Hv].
    rewrite lookup_insert_ne, lookup_empty in Hv by congruence.
    discriminate Hv.
  - split; vm_compute; reflexivity.
Qed.

(** C2 (the code departs from it).  [_add_term] raises on the pair
    [max(n, n^2)], [n^3]: both contain [n^], and the text after the first
    [^] of the former is [2)], which [int] rejects.  The pair arises in the
    block made of a while loop, a doubly nested and a triply nested for
    loop, whose analysis therefore raises [ValueError]. *)
Theorem sum_of_three_loops_raises (env : AIEngine.env) :
  let error := ValueError "invalid literal for int() with base 10: '2)'" in
  front_end three_loops_source = ok (main_program three_loops)
  /\ Complexity._add_term "n" "n^2" = ok "max(n, n^2)"
  /\ Complexity._add_term "max(n, n^2)" "n^3" = raise error
  /\ fst (Analyzer.analyze env (NProgram (main_program three_loops)) None fresh)
     = raise error.
Proof. repeat split; vm_compute; reflexivity. Qed.

(** C3 (amended).  The signature is the SHA-256 digest of the JSON text of
    the field dictionary of the node, and the dictionary records the field
    names and values but not the class.  Two nodes have the same dictionary
    exactly when they are identical up to reading every [RepeatLoop] as a
    [WhileLoop], and nodes with the same dictionary have the same
    signature. *)
Theorem signature_up_to_loop_kind (n1 n2 : ASTNode) :
  (to_dict n1 = to_dict n2 <-> ASTNode_as_while n1 = ASTNode_as_while n2)
  /\ (ASTNode_as_while n1 = ASTNode_as_while n2 ->
      KnowledgeBase.compute_signature (to_dict n1)
      = KnowledgeBase.compute_signature (to_dict n2))
  /\ KnowledgeBase.compute_signature (to_dict n1)
     = Sha256.hexdigest (Json.dumps (PDict (to_dict n1))).
Proof.
  assert (ASTNode_as_while n1 = ASTNode_as_while n2 -> to_dict n1 = to_dict n2)
    as Hback.
  { intros H. rewrite <- (ASTNode_to_dict_as_while n1), H.
    apply ASTNode_to_dict_as_while. }
  split; [split; [apply ASTNode_to_dict_determines | exact Hback]|].
  split; [|reflexivity].
  intros H. rewrite (Hback H). reflexivity.
Qed.

Lemma signature_up_to_loop_kind_witness :
  signature_of (NStatement (IfStatement positive_x
                               (mkBlock [RepeatLoop positive_x (mkBlock [assign_x])])
                               None))
  = signature_of (NStatement (IfStatement positive_x
                                 (mkBlock [WhileLoop positive_x (mkBlock [assign_x])])
                                 None)).
Proof.
  exact (proj1 (proj2 (signature_up_to_loop_kind _ _)) eq_refl).
Defined.

(** C3 (as stated, refuted).  A [WhileLoop] and a [RepeatLoop] with the
    same condition and body are different nodes with the same signature. *)
Lemma while_repeat_same_signature :
  NStatement (WhileLoop positive_x (mkBlock [assign_x]))
  <> NStatement (RepeatLoop positive_x (mkBlock [assign_x]))
  /\ KnowledgeBase.compute_signature
       (to_dict (NStatement (WhileLoop positive_x (mkBlock [assign_x]))))
     = KnowledgeBase.compute_signature
         (to_dict (NStatement (RepeatLoop positive_x (mkBlock [assign_x])))).
Proof.
  split; [discriminate|].
  f_equal.
Qed.

(** C4 (the code departs from it).  The tokenizer has no pattern for the
    braces, and [parse_class_def] asks for tokens of the types LBRACE and
    RBRACE that the tokenizer never produces.  So the class definition
    [Clase A { x }] is rejected at its opening brace, the parse of a class
    definition fails on every token sequence the tokenizer can produce,
    and no source text yields a program with a class. *)
Theorem class_definitions_never_parse :
  Tokenizer.tokenize "Clase A { x }"
  = raise (SyntaxError "Unexpected character '{' on line 1")
  /\ front_end "Clase A { x } begin x <- 1 end"
     = raise (SyntaxError "Unexpected character '{' on line 1")
  /\ (forall code tokens fuel pos,
        Tokenizer.tokenize code = ok tokens ->
        exists e, Parser.parse_class_def tokens fuel pos = inl e)
  /\ (forall code p, front_end code = ok p -> classes p = []).
Proof.
  split; [vm_compute; reflexivity|]. split; [vm_compute; reflexivity|]. split.
  - intros code tokens fuel pos H.
    apply parse_class_def_fails, (tokenize_no_brace code), H.
  - intros code p. unfold front_end.
    destruct (Tokenizer.tokenize code) as [e|tokens] eqn:Ht; [discriminate|].
    simpl. apply parse_program_no_class, (tokenize_no_brace code), Ht.
Qed.

(** C5.  The laws of the cost algebra: add(1,1) = 1, add(n,1) = n,
    add(n^2,n^3) = n^3, multiply(n,n) = n^2, multiply(n^2,n) = n^3, and
    multiply(1,t) = t for every term [t], on terms and on triples. *)
Theorem cost_algebra_laws :
  Complexity._add_term "1" "1" = ok "1"
  /\ Complexity._add_term "n" "1" = ok "n"
  /\ Complexity._add_term "n^2" "n^3" = ok "n^3"
  /\ Complexity._mul_term "n" "n" = ok "n^2"
  /\ Complexity._mul_term "n^2" "n" = ok "n^3"
  /\ (forall t : string, Complexity._mul_term "1" t = ok t)
  /\ (forall c : Complexity.t, Complexity.mul Complexity.one c = ok c).
Proof.
  repeat split. intros [x y z]. reflexivity.
Qed.

(** C6.  The independent branch of a for loop, and where it leaves the
    claim.  For a loop that [check_dependency] finds independent and whose
    signature is not in the knowledge base, the iteration count is n
    whatever the bounds are, the body is analysed in the context with the
    entry [loop_var] set to the variable of the loop, and the result is
    multiply(n, cost of the body), stored under the signature of the loop;
    an exception of the body or of the product leaves the loop unstored.
    That entry does not extend the context with the variable of the loop.
    The keys of the new context are [loop_var] and the former keys: a
    variable that is neither is no key of it, and a loop of the body that
    runs up to that variable is found independent.  The analysis reads
    the keys of a context and never a value, so the body is analysed as
    if any other text had been stored in place of the variable; once
    [loop_var] is a key, that is inside any independent loop, the entry
    of a further loop changes nothing at all.  What the claim concludes
    for [for i <- 1 to n do begin for j <- 1 to m do begin x <- 1 end end]
    holds: the inner loop is independent and the nest costs
    (n^2, n^2, n^2). *)
Theorem loop_variable_is_stored_as_a_value :
  (forall env variable start_value end_value body context w,
     let loop := ForLoop variable start_value end_value body in
     Analyzer.check_dependency start_value end_value context = false ->
     Analyzer.cache_hit w (signature_of loop) = None ->
     Analyzer.estimate_iterations start_value end_value = linear
     /\ Analyzer.analyze env (NStatement loop) (Some context) w
        = match
            Analyzer.analyze env (NBlock body)
              (Some (<["loop_var" := variable]> context)) w
          with
          | (inr body_cost, w1) =>
              match Complexity.mul linear body_cost with
              | inr cost =>
                  (ok cost, Analyzer.memoize (signature_of loop) cost w1)
              | inl e => (inl e, w1)
              end
          | (inl e, w1) => (inl e, w1)
          end)
  /\ (forall (variable : string) (context : gmap string string),
        dom (<["loop_var" := variable]> context)
        = ({["loop_var"]} ∪ dom context))
  /\ (forall (variable : string) (context : gmap string string) value type_,
        variable <> "loop_var" ->
        variable ∉ dom context ->
        (variable ∉ dom (<["loop_var" := variable]> context))
        /\ Analyzer.check_dependency (Literal value type_) (Variable_ variable)
             (<["loop_var" := variable]> context) = false)
  /\ (forall env node (context context' : gmap string string) w,
        dom context = dom context' ->
        Analyzer.analyze env node (Some context) w
        = Analyzer.analyze env node (Some context') w)
  /\ (forall env node (variable other : string)
             (context : gmap string string) w,
        Analyzer.analyze env node (Some (<["loop_var" := variable]> context)) w
        = Analyzer.analyze env node (Some (<["loop_var" := other]> context)) w)
  /\ (forall env node (variable : string) (context : gmap string string) w,
        is_Some (context !! "loop_var") ->
        Analyzer.analyze env node (Some (<["loop_var" := variable]> context)) w
        = Analyzer.analyze env node (Some context) w)
  /\ (forall env,
        front_end independent_nest_source = ok (main_program [independent_nest])
        /\ Analyzer.check_dependency one_literal (Variable_ "m")
             (<["loop_var" := "i"]> ∅) = false
        /\ fst (Analyzer.analyze env (NStatement independent_nest) None fresh)
           = ok quadratic
        /\ fst (Analyzer.analyze env
                  (NProgram (main_program [independent_nest])) None fresh)
           = ok quadratic).
Proof.
  split; [|split; [|split; [|split; [|split; [|split]]]]].
  - intros env variable start_value end_value body context w loop Hdep Hmiss.
    split; [apply estimate_iterations_linear|].
    unfold loop in *. simpl.
    rewrite memoized_miss by exact Hmiss. rewrite Hdep.
    rewrite estimate_iterations_linear.
    unfold mbind, Analyzer.M_bind, Analyzer.lift. cbv beta iota.
    destruct (Analyzer.analyze_Block env body _ w) as [[e|body_cost] w1];
      [reflexivity|].
    destruct (Complexity.mul linear body_cost); reflexivity.
  - intros variable context. apply dom_insert_L.
  - intros variable context value type_ Hname Hkey.
    assert (variable ∉ dom (<["loop_var" := variable]> context)) as Hnot.
    { rewrite dom_insert_L. intros Hin.
      apply elem_of_union in Hin as [Hin|Hin]; [|exact (Hkey Hin)].
      apply elem_of_singleton in Hin. exact (Hname Hin). }
    split; [exact Hnot|].
    unfold Analyzer.check_dependency. cbn [Analyzer.contains_var orb].
    rewrite bool_decide_eq_false_2 by exact Hnot. reflexivity.
  - intros env node context context' w Hdom.
    apply same_keys_analyze, Hdom.
  - intros env node variable other context w.
    apply same_keys_analyze. rewrite !dom_insert_L. reflexivity.
  - intros env node variable context w Hkey.
    apply same_keys_analyze. apply dom_insert_lookup_L, Hkey.
  - intros env. repeat split; vm_compute; reflexivity.
Qed.

Lemma loop_variable_is_stored_as_a_value_witness :
  Analyzer.check_dependency (Literal "1" "Integer") (Variable_ "i")
    (<["loop_var" := "i"]> ∅) = false.
Proof.
  refine (proj2 (proj1 (proj2 (proj2 loop_variable_is_stored_as_a_value))
                   "i" ∅ "1" "Integer" _ _)).
  - discriminate.
  - rewrite dom_empty_L. apply not_elem_of_empty.
Defined.

(** C7.  An if statement whose signature is not in the knowledge base
    costs add(cost(condition), add(cost(then), cost(else))), the else cost
    being the unit when there is no else block: the branches are added, not
    compared.  With a then branch of cost n, an else branch of cost 1 and
    a condition of cost 1, the branches add up to n and the statement costs
    n. *)
Theorem if_statement_adds_branches :
  (forall env condition then_block else_block context w
          cond_cost w1 then_cost w2 else_cost w3,
     let node := IfStatement condition then_block else_block in
     Analyzer.cache_hit w (signature_of node) = None ->
     Analyzer.analyze env (NExpression condition) (Some context) w
       = (ok cond_cost, w1) ->
     Analyzer.analyze env (NBlock then_block) (Some context) w1
       = (ok then_cost, w2) ->
     match else_block with
     | Some b => Analyzer.analyze env (NBlock b) (Some context) w2
     | None => (ok Complexity.one, w2)
     end = (ok else_cost, w3) ->
     fst (Analyzer.analyze env (NStatement node) (Some context) w)
     = rbind (Complexity.add then_cost else_cost) (Complexity.add cond_cost))
  /\ Complexity.add linear Complexity.one = ok linear
  /\ rbind (Complexity.add linear Complexity.one) (Complexity.add Complexity.one)
     = ok linear
  /\ (forall env,
        front_end if_source = ok (main_program [if_example])
        /\ fst (Analyzer.analyze env (NStatement if_example) None fresh)
           = ok linear).
Proof.
  split; [|repeat split; vm_compute; reflexivity].
  intros env condition then_block else_block context w
    cond_cost w1 then_cost w2 else_cost w3 node Hmiss Hc Ht He.
  simpl in *. rewrite memoized_miss by exact Hmiss.
  erewrite bind_ok by exact Hc. erewrite bind_ok by exact Ht.
  erewrite bind_ok.
  2:{ destruct else_block; exact He. }
  unfold mbind, Analyzer.M_bind, Analyzer.lift.
  destruct (Complexity.add then_cost else_cost) as [e|mb]; simpl; [reflexivity|].
  destruct (Complexity.add cond_cost mb); reflexivity.
Qed.

Lemma if_statement_adds_branches_witness :
  fst (Analyzer.analyze no_credential (NStatement if_example) (Some ∅) fresh)
  = ok linear.
Proof.
  set (w1 := snd (Analyzer.analyze no_credential (NExpression positive_x)
                    (Some ∅) fresh)).
  set (w2 := snd (Analyzer.analyze no_credential
                    (NBlock (mkBlock [WhileLoop positive_x (mkBlock [assign_x])]))
                    (Some ∅) w1)).
  set (w3 := snd (Analyzer.analyze no_credential (NBlock (mkBlock [assign_x]))
                    (Some ∅) w2)).
  refine (eq_trans
            (proj1 if_statement_adds_branches no_credential positive_x
               (mkBlock [WhileLoop positive_x (mkBlock [assign_x])])
               (Some (mkBlock [assign_x])) ∅ fresh
               Complexity.one w1 linear w2 Complexity.one w3 _ _ _ _) _).
  - vm_compute. reflexivity.
  - rewrite (surjective_pairing (Analyzer.analyze _ _ _ _)) at 1.
    f_equal; try (vm_compute; reflexivity).
  - rewrite (surjective_pairing (Analyzer.analyze _ _ _ _)) at 1.
    f_equal; try (vm_compute; reflexivity).
  - rewrite (surjective_pairing (Analyzer.analyze _ _ _ _)) at 1.
    f_equal; try (vm_compute; reflexivity).
  - reflexivity.
Defined.

(** C8.  In a knowledge base that holds unit costs only, in particular in
    an empty one, a block of three assignments costs (1, 1, 1): each value
    expression costs 1, each assignment costs 1, and the fold of add from
    (1, 1, 1) absorbs them. *)
Theorem three_unit_assignments_absorbed
    env context w t1 v1 t2 v2 t3 v3 :
  unit_cache w ->
  (forall v, In v [v1; v2; v3] ->
     fst (Analyzer.analyze env (NExpression v) context w) = ok Complexity.one)
  /\ Complexity.add Complexity.one Complexity.one = ok Complexity.one
  /\ fst (Analyzer.analyze env
            (NBlock (mkBlock [Assignment t1 v1; Assignment t2 v2;
                              Assignment t3 v3])) context w)
     = ok Complexity.one.
Proof.
  intros H. split; [|split].
  - intros v _. simpl. apply units_Expression, H.
  - reflexivity.
  - unfold Analyzer.analyze. rewrite analyze_Block_eq.
    apply units_memoized; [|exact H].
    apply units_sum_costs.
    repeat (apply Forall_cons_2; [apply units_Assignment|]).
    apply Forall_nil_2.
Qed.

Lemma three_unit_assignments_absorbed_witness :
  fst (Analyzer.analyze no_credential
         (NBlock (mkBlock [assign_x; assign_x;
                           Assignment "Variable(name='y')"
                             (BinaryOp (Variable_ "x") "+" one_literal)]))
         None fresh)
  = ok Complexity.one.
Proof.
  exact (proj2 (proj2
           (three_unit_assignments_absorbed no_credential None fresh
              "Variable(name='x')" one_literal "Variable(name='x')" one_literal
              "Variable(name='y')" (BinaryOp (Variable_ "x") "+" one_literal)
              (unit_cache_fresh KnowledgeBase.Missing (or_introl eq_refl))))).
Defined.

(** C9.  Tokenizing and parsing [p() begin x <- 1 end] gives a program
    with no class, an empty main block, and the single procedure [p]
    without parameters whose body is the single assignment of the literal
    1; the target is stored as the text of the parsed lvalue. *)
Theorem minimal_procedure_round_trip :
  front_end "p() begin x <- 1 end"
  = ok (mkProgram "Program" []
          [mkProcedureDef "p" []
             (mkBlock [Assignment "Variable(name='x')" (Literal "1" "Integer")])]
          (mkBlock [])).
Proof. vm_compute. reflexivity. Qed.

(** C10.  When the oracle answers a dependent for loop with an error
    triple, the triple is returned, stored under the signature of the loop
    and written to the file like any other result.  From then on, in the
    same process or after a restart, the analysis of any node with that
    signature returns the stored error triple and changes nothing: in
    particular it makes no oracle call. *)
Theorem oracle_failure_is_cached
    env variable start_value end_value body context w msg :
  let loop := ForLoop variable start_value end_value body in
  let failure := Complexity.mk msg "Error" "Error" in
  let outcome := Analyzer.analyze env (NStatement loop) (Some context) w in
  Analyzer.check_dependency start_value end_value context = true ->
  Analyzer.cache_hit w (signature_of loop) = None ->
  AIEngine.analyze_complexity env (length (Analyzer.oracle_calls w))
    (to_dict loop) = AIEngine.error_dict msg ->
  fst outcome = ok failure
  /\ KnowledgeBase.get_complexity (Analyzer.kb (snd outcome)) (signature_of loop)
     = Some (Complexity.to_dict failure)
  /\ KnowledgeBase.file (Analyzer.kb (snd outcome))
     = KnowledgeBase.Holds (KnowledgeBase.data (Analyzer.kb (snd outcome)))
  /\ forall w', follows (snd outcome) w' ->
     forall env' node' context',
       signature_of node' = signature_of loop ->
       Analyzer.analyze env' node' context' w' = (ok failure, w').
Proof.
  intros loop failure outcome Hdep Hmiss Herr.
  assert (outcome
          = (ok failure,
             Analyzer.memoize (signature_of loop) failure
               (Analyzer.mkWorld (Analyzer.kb w)
                  (Analyzer.oracle_calls w ++ [to_dict loop])))) as Hout.
  { unfold outcome, loop. rewrite dependent_for by assumption.
    fold loop. rewrite Herr. reflexivity. }
  rewrite Hout. simpl.
  assert (stored (signature_of loop) (Complexity.to_dict failure)
            (Analyzer.memoize (signature_of loop) failure
               (Analyzer.mkWorld (Analyzer.kb w)
                  (Analyzer.oracle_calls w ++ [to_dict loop])))) as Hst.
  { split; simpl; [apply lookup_insert_eq | reflexivity]. }
  split; [reflexivity|]. split; [apply Hst|]. split; [apply Hst|].
  intros w' Hf env' node' context' Hsig.
  apply analyze_hit. rewrite Hsig.
  destruct (stored_follows _ _ _ _ (truthy_to_dict failure) Hst Hf) as [Hk _].
  unfold Analyzer.cache_hit, KnowledgeBase.get_complexity.
  rewrite Hk, truthy_to_dict, from_dict_to_dict. reflexivity.
Qed.

Lemma oracle_failure_is_cached_witness :
  let loop := ForLoop "j" one_literal (Variable_ "loop_var") (mkBlock [assign_x]) in
  let failure := Complexity.mk "Error: Missing API Key" "Error" "Error" in
  let w1 :=
    snd (Analyzer.analyze no_credential (NStatement loop)
           (Some (<["loop_var" := "i"]> ∅)) fresh) in
  let w2 := Analyzer.start (KnowledgeBase.file (Analyzer.kb w1)) in
  Analyzer.analyze no_credential (NStatement loop) None w2 = (ok failure, w2).
Proof.
  intros loop failure w1 w2.
  refine (proj2 (proj2 (proj2
            (oracle_failure_is_cached no_credential "j" one_literal
               (Variable_ "loop_var") (mkBlock [assign_x])
               (<["loop_var" := "i"]> ∅) fresh "Error: Missing API Key"
               _ _ _))) w2 _ no_credential (NStatement loop) None _).
  - vm_compute. reflexivity.
  - vm_compute. reflexivity.
  - vm_compute. reflexivity.
  - apply follows_restart, follows_now.
  - apply signature_of_NStatement.
Defined.

(** * Further properties of the code *)

(** ** The cost algebra on powers of n *)

(** The term [n^p]. *)
Definition power (p : Z) : string := "n^" +:+ Py.str_of_Z p.

(** The value of a decimal numeral read from the left, [acc] being the
    value of the digits already read. *)
Fixpoint uint_value (acc : N) (d : Decimal.uint) : N :=
  match d with
  | Decimal.Nil => acc
  | Decimal.D0 l => uint_value (10 * acc) l
  | Decimal.D1 l => uint_value (10 * acc + 1) l
  | Decimal.D2 l => uint_value (10 * acc + 2) l
  | Decimal.D3 l => uint_value (10 * acc + 3) l
  | Decimal.D4 l => uint_value (10 * acc + 4) l
  | Decimal.D5 l => uint_value (10 * acc + 5) l
  | Decimal.D6 l => uint_value (10 * acc + 6) l
  | Decimal.D7 l => uint_value (10 * acc + 7) l
  | Decimal.D8 l => uint_value (10 * acc + 8) l
  | Decimal.D9 l => uint_value (10 * acc + 9) l
  end.

Definition numeral_chars (d : Decimal.uint) : list ascii :=
  String.list_ascii_of_string (NilEmpty.string_of_uint d).

(** A character that can occur in [str(z)]. *)
Definition numeral_char (c : ascii) : Prop :=
  Py.is_space c = false /\ c <> "^"%char.

Section PowerTerms.

Lemma uint_value_acc d p :
  Npos (Pos.of_uint_acc d p) = uint_value (Npos p) d.
Proof.
  revert p. induction d; intros p; simpl; try reflexivity; rewrite IHd;
    f_equal; lia.
Qed.

Lemma uint_value_of_uint d : Pos.of_uint d = uint_value 0 d.
Proof.
  induction d; simpl; try reflexivity; try apply uint_value_acc. exact IHd.
Qed.

Lemma digits_numeral d acc :
  Py.digits (Z.of_N acc) true (numeral_chars d)
  = Some (Z.of_N (uint_value acc d)).
Proof.
  revert acc. unfold numeral_chars.
  induction d; intros acc; simpl; try reflexivity;
    match goal with
    | |- Py.digits ?z true _ = Some (Z.of_N (uint_value ?a _)) =>
        replace z with (Z.of_N a) by lia; apply IHd
    end.
Qed.

Lemma digits_numeral_start d :
  d <> Decimal.Nil ->
  Py.digits 0 false (numeral_chars d) = Some (Z.of_N (uint_value 0 d)).
Proof.
  intros Hd. destruct d; [congruence|..]; unfold numeral_chars; simpl;
    match goal with
    | |- Py.digits ?z true _ = Some (Z.of_N (uint_value ?a _)) =>
        change z with (Z.of_N a); apply digits_numeral
    end.
Qed.

Lemma numeral_chars_plain d : Forall numeral_char (numeral_chars d).
Proof.
  unfold numeral_chars.
  induction d; simpl; constructor; try assumption; split;
    (reflexivity || discriminate).
Qed.

Lemma lstrip_plain l : Forall numeral_char l -> Py.lstrip l = l.
Proof. destruct 1 as [|c l [Hc _] _]; simpl; [|rewrite Hc]; reflexivity. Qed.

Lemma strip_plain l : Forall numeral_char l -> Py.strip l = l.
Proof.
  intros H. unfold Py.strip. rewrite (lstrip_plain l H).
  rewrite lstrip_plain by (apply Forall_rev, H). apply rev_involutive.
Qed.

Lemma str_of_Z_chars z :
  exists d, d <> Decimal.Nil /\ Z.of_N (uint_value 0 d) = Z.abs z
    /\ String.list_ascii_of_string (Py.str_of_Z z)
       = (if (z <? 0)%Z then ["-"%char] else []) ++ numeral_chars d.
Proof.
  destruct z as [|p|p]; unfold Py.str_of_Z; simpl.
  - exists (Decimal.D0 Decimal.Nil). repeat split; discriminate.
  - exists (Pos.to_uint p). split; [apply DecimalPos.Unsigned.to_uint_nonnil|].
    rewrite <- uint_value_of_uint, DecimalPos.Unsigned.of_to.
    split; [reflexivity|].
    unfold NilZero.string_of_uint.
    destruct (Pos.to_uint p) eqn:Hp; try reflexivity.
    exfalso. eapply DecimalPos.Unsigned.to_uint_nonnil, Hp.
  - exists (Pos.to_uint p). split; [apply DecimalPos.Unsigned.to_uint_nonnil|].
    rewrite <- uint_value_of_uint, DecimalPos.Unsigned.of_to.
    split; [reflexivity|].
    unfold NilZero.string_of_uint.
    destruct (Pos.to_uint p) eqn:Hp; try reflexivity.
    exfalso. eapply DecimalPos.Unsigned.to_uint_nonnil, Hp.
Qed.

Lemma str_of_Z_plain z :
  Forall numeral_char (String.list_ascii_of_string (Py.str_of_Z z)).
Proof.
  destruct (str_of_Z_chars z) as (d & _ & _ & ->).
  apply Forall_app. split; [|apply numeral_chars_plain].
  destruct (z <? 0)%Z; constructor; [|constructor].
  split; [reflexivity|discriminate].
Qed.

(** [int(str(z)) == z] *)
Lemma int_str_of_Z z : Py.int (Py.str_of_Z z) = ok z.
Proof.
  unfold Py.int. rewrite strip_plain by apply str_of_Z_plain.
  destruct (str_of_Z_chars z) as (d & Hd & Hv & ->).
  destruct (z <? 0)%Z eqn:Hz; simpl.
  - rewrite digits_numeral_start by exact Hd. simpl. f_equal.
    apply Z.ltb_lt in Hz. lia.
  - pose proof (digits_numeral_start d Hd) as Hs.
    destruct (numeral_chars d) as [|c l] eqn:Hc; [simpl in Hs; discriminate|].
    assert (Ascii.eqb c "-" = false /\ Ascii.eqb c "+" = false) as [-> ->].
    { destruct d; try congruence; unfold numeral_chars in Hc; simpl in Hc;
        injection Hc as <- _; split; reflexivity. }
    rewrite Hs. f_equal. apply Z.ltb_ge in Hz. lia.
Qed.

Lemma split_plain s :
  Forall numeral_char (String.list_ascii_of_string s) -> Py.split "^" s = [s].
Proof.
  induction s as [|c s IH]; simpl; [reflexivity|].
  intros H. apply Forall_cons_1 in H as [[_ Hc] H].
  apply Ascii.eqb_neq in Hc. rewrite Hc, (IH H). reflexivity.
Qed.

Lemma exponent_text_power p : Complexity.exponent_text (power p) = Py.str_of_Z p.
Proof.
  unfold Complexity.exponent_text, power. simpl.
  rewrite split_plain by apply str_of_Z_plain. reflexivity.
Qed.

Lemma power_inj p q : power p = power q -> p = q.
Proof.
  intros H. apply (f_equal (fun t => Py.int (Complexity.exponent_text t))) in H.
  rewrite !exponent_text_power, !int_str_of_Z in H. unfold ok in H. congruence.
Qed.

End PowerTerms.

(** X1.  Addition of two powers of n, with any integer exponents (a term
    [n^-2] is as good as [n^2] to the code), gives the power with the
    greater exponent. *)
Theorem add_term_powers (p q : Z) :
  Complexity._add_term (power p) (power q) = ok (power (Z.max p q)).
Proof.
  unfold Complexity._add_term.
  rewrite !bool_decide_eq_false_2 by discriminate.
  case_bool_decide as Heq.
  - apply power_inj in Heq. subst q. rewrite Z.max_id. reflexivity.
  - change (Py.contains "n^" (power p)) with true.
    change (Py.contains "n^" (power q)) with true.
    simpl andb. cbv iota.
    rewrite !exponent_text_power, !int_str_of_Z. reflexivity.
Qed.

(** X2.  Multiplication of a power of n by n, on either side, adds one to
    the exponent. *)
Theorem mul_term_power_by_n (p : Z) :
  Complexity._mul_term (power p) "n" = ok (power (p + 1))
  /\ Complexity._mul_term "n" (power p) = ok (power (p + 1)).
Proof.
  unfold Complexity._mul_term. split.
  - rewrite !bool_decide_eq_false_2 by discriminate.
    change (Py.contains "n^" (power p)) with true. simpl.
    rewrite exponent_text_power, int_str_of_Z. reflexivity.
  - rewrite (bool_decide_eq_false_2 ("n" = "1")) by discriminate.
    rewrite (bool_decide_eq_false_2 (power p = "1")) by discriminate.
    rewrite (bool_decide_eq_false_2 (power p = "n")) by discriminate.
    rewrite andb_false_r.
    change (Py.contains "n^" "n") with false.
    change (Py.contains "n^" (power p)) with true. simpl.
    rewrite exponent_text_power, int_str_of_Z. reflexivity.
Qed.

(** ** Identity, idempotence and the reach of the power branches *)

(** X3.  [1] is a two-sided identity of the addition and every term is
    idempotent, whatever its shape: these three tests come before the
    power branch, so they never raise.  The same holds componentwise on
    triples. *)
Theorem add_identity_idempotent :
  (forall t : string,
     Complexity._add_term "1" t = ok t
     /\ Complexity._add_term t "1" = ok t
     /\ Complexity._add_term t t = ok t)
  /\ (forall c : Complexity.t,
        Complexity.add Complexity.one c = ok c
        /\ Complexity.add c Complexity.one = ok c
        /\ Complexity.add c c = ok c).
Proof.
  assert (forall t : string,
            Complexity._add_term "1" t = ok t
            /\ Complexity._add_term t "1" = ok t
            /\ Complexity._add_term t t = ok t) as Hterm.
  { intros t. unfold Complexity._add_term. split; [|split].
    - reflexivity.
    - repeat case_bool_decide; try reflexivity; congruence.
    - repeat case_bool_decide; try reflexivity; congruence. }
  split; [exact Hterm|].
  intros [x y z]. unfold Complexity.add, Complexity.componentwise. simpl.
  repeat split;
    repeat match goal with
      | |- context [Complexity._add_term "1" ?t] =>
          rewrite (proj1 (Hterm t))
      | |- context [Complexity._add_term ?t "1"] =>
          rewrite (proj1 (proj2 (Hterm t)))
      | |- context [Complexity._add_term ?t ?t] =>
          rewrite (proj2 (proj2 (Hterm t)))
      end; reflexivity.
Qed.

(** X4.  Unless both terms contain [n^], the addition returns: the first
    operand that is not [1] when the other is, the common term when they
    are equal, and the text [max(t1, t2)] otherwise.  The two tests for an
    [n] term beside [1] that follow the power branch are never reached. *)
Theorem add_term_outside_power_branch (t1 t2 : string) :
  Py.contains "n^" t1 && Py.contains "n^" t2 = false ->
  Complexity._add_term t1 t2
  = ok (if bool_decide (t1 = "1") then t2
        else if bool_decide (t2 = "1") then t1
        else if bool_decide (t1 = t2) then t1
        else "max(" +:+ t1 +:+ ", " +:+ t2 +:+ ")").
Proof.
  intros H. unfold Complexity._add_term. rewrite H.
  repeat case_bool_decide; try reflexivity;
    rewrite ?andb_false_r; reflexivity.
Qed.

Lemma add_term_outside_power_branch_witness :
  Complexity._add_term "n log n" "n^2" = ok "max(n log n, n^2)".
Proof.
  exact (add_term_outside_power_branch "n log n" "n^2" eq_refl).
Defined.

(** X5.  [1] is also a right identity of the multiplication, and unless a
    term contains [n^] the multiplication returns: n * n is [n^2], and any
    other pair gives the text [t1 * t2]. *)
Theorem mul_term_outside_power_branch :
  (forall t : string, Complexity._mul_term t "1" = ok t)
  /\ (forall t1 t2 : string,
        Py.contains "n^" t1 = false -> Py.contains "n^" t2 = false ->
        Complexity._mul_term t1 t2
        = ok (if bool_decide (t1 = "1") then t2
              else if bool_decide (t2 = "1") then t1
              else if bool_decide (t1 = "n") && bool_decide (t2 = "n")
                   then "n^2"
              else t1 +:+ " * " +:+ t2)).
Proof.
  split.
  - intros t. unfold Complexity._mul_term.
    case_bool_decide as H1; [rewrite H1|]; reflexivity.
  - intros t1 t2 H1 H2. unfold Complexity._mul_term. rewrite H1, H2.
    repeat case_bool_decide; simpl; try reflexivity;
      rewrite ?andb_false_r; reflexivity.
Qed.

Lemma mul_term_outside_power_branch_witness :
  Complexity._mul_term "n" "n log n" = ok "n * n log n".
Proof.
  exact (proj2 mul_term_outside_power_branch "n" "n log n" eq_refl eq_refl).
Defined.

(** ** The knowledge base, the oracle and the signature *)

Section StoreFacts.
Import Analyzer.

Lemma string_length_append (a b : string) :
  String.length (a +:+ b) = (String.length a + String.length b)%nat.
Proof. induction a as [|c a IH]; simpl; [|rewrite IH]; reflexivity. Qed.

Lemma round_keeps_eight st k :
  length (fst st) = 8%nat -> length (fst (Sha256.round st k)) = 8%nat.
Proof.
  destruct st as [h w]. simpl. intros H.
  do 8 (destruct h as [|? h]; [discriminate H|]).
  destruct h as [|? h]; [|discriminate H].
  unfold Sha256.round.
  do 15 (destruct w as [|? w]; [reflexivity|]). reflexivity.
Qed.

Lemma fold_left_keeps {A B} (f : A -> B -> A) (P : A -> Prop) :
  (forall a b, P a -> P (f a b)) ->
  forall bs a, P a -> P (fold_left f bs a).
Proof.
  intros Hf. induction bs as [|b bs IH]; intros a Ha; [exact Ha|].
  apply IH, Hf, Ha.
Qed.

Lemma rounds_keep_eight ks st :
  length (fst st) = 8%nat ->
  length (fst (fold_left Sha256.round ks st)) = 8%nat.
Proof.
  apply (fold_left_keeps Sha256.round (fun st => length (fst st) = 8%nat)).
  intros a b. apply round_keeps_eight.
Qed.

Lemma compress_keeps_eight h block :
  length h = 8%nat -> length (Sha256.compress h block) = 8%nat.
Proof.
  intros H. unfold Sha256.compress.
  pose proof (rounds_keep_eight Sha256.round_constants (h, block) H) as Hv.
  destruct (fold_left Sha256.round Sha256.round_constants (h, block)) as [v w].
  simpl in Hv. rewrite length_map, length_combine, H, Hv. reflexivity.
Qed.

Lemma initial_hash_eight : length Sha256.initial_hash = 8%nat.
Proof. reflexivity. Qed.

Lemma digest_eight msg : length (Sha256.digest msg) = 8%nat.
Proof.
  unfold Sha256.digest.
  apply (fold_left_keeps Sha256.compress (fun h => length h = 8%nat));
    [|exact initial_hash_eight].
  intros h b. apply compress_keeps_eight.
Qed.

Lemma join_hex8_length ws :
  String.length (Json.join EmptyString (map Sha256.hex8 ws))
  = (8 * length ws)%nat.
Proof.
  induction ws as [|w ws IH]; [reflexivity|].
  destruct ws as [|w' ws]; [reflexivity|].
  change (Json.join EmptyString (map Sha256.hex8 (w :: w' :: ws)))
    with (Sha256.hex8 w +:+ EmptyString
            +:+ Json.join EmptyString (map Sha256.hex8 (w' :: ws))).
  rewrite !string_length_append, IH. simpl. lia.
Qed.

End StoreFacts.

(** X6.  A signature is a fixed-width key: whatever the node dictionary,
    it has exactly 64 characters. *)
Theorem signature_has_64_characters (node_dict : pydict) :
  String.length (KnowledgeBase.compute_signature node_dict) = 64%nat.
Proof.
  unfold KnowledgeBase.compute_signature, Sha256.hexdigest.
  rewrite join_hex8_length, digest_eight. reflexivity.
Qed.

(** X7.  What step 3 stores under a signature is what step 1 reads back:
    the triple survives the conversion to a dictionary and back, the
    entries under other signatures are untouched, and a process restarted
    from the file sees the same knowledge base. *)
Theorem stored_result_is_read_back
    (sig k : string) (r : Complexity.t) (w : Analyzer.world) :
  let w' := Analyzer.memoize sig r w in
  Analyzer.cache_hit w' sig = Some r
  /\ (sig <> k -> Analyzer.cache_hit w' k = Analyzer.cache_hit w k)
  /\ Analyzer.kb (Analyzer.start (KnowledgeBase.file (Analyzer.kb w')))
     = Analyzer.kb w'.
Proof.
  intros w'. unfold w'. rewrite !cache_hit_memoize. split; [|split].
  - destruct (decide (sig = sig)); congruence.
  - intros Hne. destruct (decide (sig = k)); congruence.
  - reflexivity.
Qed.

Lemma stored_result_is_read_back_witness :
  Analyzer.cache_hit
    (Analyzer.memoize "a" (Complexity.mk "Error: x" "Error" "Error") fresh) "b"
  = None.
Proof.
  refine (eq_trans
            (proj1 (proj2 (stored_result_is_read_back "a" "b"
                             (Complexity.mk "Error: x" "Error" "Error") fresh))
               _) _).
  - discriminate.
  - reflexivity.
Defined.

(** A service that fences its answer, and answers with the list of the
    three keys instead of a dictionary; the decoder on the texts that
    matter here. *)
Definition quoted (s : string) : string :=
  String Py.dq (s +:+ Py.chr Py.dq).

Definition keys_text : string :=
  "[" +:+ quoted "O" +:+ ", " +:+ quoted "Omega" +:+ ", " +:+ quoted "Theta"
    +:+ "]".

Definition keys_list : AIEngine.json :=
  AIEngine.JList
    [AIEngine.JString "O"; AIEngine.JString "Omega"; AIEngine.JString "Theta"].

Definition answers_a_list : AIEngine.env :=
  AIEngine.mkEnv (Some "key")
    (fun _ _ =>
       AIEngine.Text
         ("```json" +:+ Py.chr Py.lf +:+ keys_text +:+ Py.chr Py.lf +:+ "```"
            +:+ Py.chr Py.lf))
    (fun s =>
       if bool_decide (s = keys_text) then AIEngine.Value keys_list
       else AIEngine.Invalid "Expecting value: line 1 column 1 (char 0)").

(** A nest whose inner loop is bounded by a variable named [loop_var], the
    one name that the analyzer takes for the variable of an outer loop. *)
Definition oracle_nest : Statement :=
  for_to "loop_var" "n" [for_to "j" "loop_var" [assign_x]].

(** X8.  [analyze_complexity] never raises, but what it returns need not
    be a dictionary.  Without credential it is the error dictionary
    [Missing API Key], whatever the service would say.  Otherwise it is
    an error dictionary whose O field starts with [Error: ], or the very
    value that [json.loads] gave for the cleaned text, and then each of
    O, Omega and Theta passes the test [k in result]: as a key when the
    value is a dictionary, as an element when it is a list, as a piece of
    text when it is a string.  [Complexity.from_dict] raises
    [AttributeError] on a list and on a string; on a dictionary that has
    strings under the three keys it gives their triple.  With a service
    that answers with the list of the three keys, the analysis of a nest
    that reaches the oracle ends in that [AttributeError]. *)
Theorem oracle_answer_need_not_be_a_dictionary :
  (forall (e : AIEngine.env) (request : nat) (ast : pydict),
     let answer := AIEngine.analyze_complexity e request ast in
     (AIEngine.has_key e = false ->
      answer = AIEngine.error_dict "Error: Missing API Key")
     /\ ((exists msg, answer = AIEngine.error_dict msg
                      /\ Py.startswith "Error: " msg = true)
         \/ (exists text,
               AIEngine.generate_content e request ast = AIEngine.Text text
               /\ AIEngine.json_loads e (AIEngine.clean_up text)
                  = AIEngine.Value answer
               /\ forall k, k ∈ ["O"; "Omega"; "Theta"] ->
                            AIEngine.contains_key k answer = Some true)))
  /\ (forall l,
        Complexity.from_answer (AIEngine.JList l)
        = raise (AttributeError "'list' object has no attribute 'get'"))
  /\ (forall s,
        Complexity.from_answer (AIEngine.JString s)
        = raise (AttributeError "'str' object has no attribute 'get'"))
  /\ (forall o a b c,
        o !! "O" = Some (AIEngine.JString a) ->
        o !! "Omega" = Some (AIEngine.JString b) ->
        o !! "Theta" = Some (AIEngine.JString c) ->
        Complexity.from_answer (AIEngine.JObject o) = ok (Complexity.mk a b c))
  /\ AIEngine.analyze_complexity answers_a_list 0
       (to_dict (for_to "j" "loop_var" [assign_x])) = keys_list
  /\ fst (Analyzer.analyze answers_a_list (NStatement oracle_nest) None fresh)
     = raise (AttributeError "'list' object has no attribute 'get'").
Proof.
  split; [|split; [|split; [|split; [|split]]]].
  - intros e request ast answer. unfold answer, AIEngine.analyze_complexity.
    destruct (AIEngine.has_key e); cbn [negb].
    + split; [discriminate|].
      destruct (AIEngine.generate_content e request ast) as [text|text].
      { left. eexists. split; reflexivity. }
      destruct (AIEngine.json_loads e (AIEngine.clean_up text))
        as [invalid|result] eqn:Hloads.
      { left. eexists. split; reflexivity. }
      destruct (AIEngine.all_in _ result) as [[|]|] eqn:Hall.
      * right. exists text. split; [reflexivity|]. split; [exact Hloads|].
        cbn [AIEngine.all_in] in Hall.
        destruct (AIEngine.contains_key "O" result) as [[|]|] eqn:HO;
          try discriminate Hall.
        destruct (AIEngine.contains_key "Omega" result) as [[|]|] eqn:HOmega;
          try discriminate Hall.
        destruct (AIEngine.contains_key "Theta" result) as [[|]|] eqn:HTheta;
          try discriminate Hall.
        intros k Hk.
        repeat (apply elem_of_cons in Hk as [->|Hk]; [assumption|]).
        apply elem_of_nil in Hk. destruct Hk.
      * left. eexists. split; reflexivity.
      * left. eexists. split; reflexivity.
    + split; [reflexivity|]. left. eexists. split; reflexivity.
  - intros l. reflexivity.
  - intros s. reflexivity.
  - intros o a b c Ha Hb Hc. unfold Complexity.from_answer, Complexity.get_term.
    rewrite Ha, Hb, Hc. reflexivity.
  - vm_compute. reflexivity.
  - vm_compute. reflexivity.
Qed.

Lemma oracle_answer_need_not_be_a_dictionary_witness :
  AIEngine.analyze_complexity no_credential 0 []
  = AIEngine.error_dict "Error: Missing API Key".
Proof.
  exact (proj1 (proj1 oracle_answer_need_not_be_a_dictionary
                  no_credential 0%nat []) eq_refl).
Defined.

(** ** The analyzer and its cache *)

(** Some for loop of the statement has a bound that reaches, through
    binary operators, a variable named [loop_var]. *)
Fixpoint Statement_names_loop_var (s : Statement) : bool :=
  match s with
  | Assignment _ _ => false
  | IfStatement _ t e =>
      Block_names_loop_var t
      || match e with
         | Some b => Block_names_loop_var b
         | None => false
         end
  | ForLoop _ a b body =>
      Analyzer.contains_var a {["loop_var"]}
      || Analyzer.contains_var b {["loop_var"]}
      || Block_names_loop_var body
  | WhileLoop _ body => Block_names_loop_var body
  | RepeatLoop _ body => Block_names_loop_var body
  | Call _ _ => false
  end
with Block_names_loop_var (b : Block) : bool :=
  match b with
  | mkBlock l => existsb Statement_names_loop_var l
  end.

Section CacheFacts.
Import Analyzer.
Variable env : AIEngine.env.

Lemma analysis_result_is_cached node context w r :
  fst (analyze env node context w) = ok r ->
  cache_hit (snd (analyze env node context w)) (signature_of node) = Some r.
Proof.
  destruct (analyze_unfold_memoized env node context) as [m ->].
  unfold memoized, signature_of.
  destruct (cache_hit w _) eqn:Hc; simpl.
  - intros H. injection H as <-. exact Hc.
  - destruct (m w) as [[e|r0] w1]; simpl; [discriminate|].
    intros H. injection H as <-. rewrite cache_hit_memoize.
    destruct (decide _); congruence.
Qed.

Lemma entry_store_safe k d :
  truthy d = true ->
  store_safe (fun w => KnowledgeBase.data (kb w) !! k = Some d).
Proof.
  intros Hd w sig Hk Hmiss r w' Hk'.
  assert (sig <> k) as Hne.
  { intros ->. unfold cache_hit, KnowledgeBase.get_complexity in Hmiss.
    rewrite Hk, Hd in Hmiss. discriminate. }
  simpl. rewrite lookup_insert_ne by exact Hne. exact Hk'.
Qed.

Lemma contains_var_mono e (vars vars' : gset string) :
  vars ⊆ vars' -> contains_var e vars = true -> contains_var e vars' = true.
Proof.
  intros Hsub. induction e; simpl; try discriminate.
  - rewrite !orb_true_iff. intros [H|H]; auto.
  - rewrite !bool_decide_eq_true. apply Hsub.
Qed.

Lemma check_dependency_needs_loop_var a b (context : gmap string string) :
  dom context ⊆ {["loop_var"]} ->
  contains_var a {["loop_var"]} = false ->
  contains_var b {["loop_var"]} = false ->
  check_dependency a b context = false.
Proof.
  intros Hdom Ha Hb. unfold check_dependency.
  destruct (contains_var a (dom context)) eqn:Ha'.
  { apply (contains_var_mono _ _ _ Hdom) in Ha'. congruence. }
  destruct (contains_var b (dom context)) eqn:Hb'.
  { apply (contains_var_mono _ _ _ Hdom) in Hb'. congruence. }
  reflexivity.
Qed.

Lemma calls_store_safe l : store_safe (fun w => oracle_calls w = l).
Proof. intros w sig _ _ r w' H. exact H. Qed.

Lemma quiet_Expression l e context :
  keeps (fun w => oracle_calls w = l) (analyze_Expression e context).
Proof.
  induction e; simpl; apply keeps_memoized;
    auto using keeps_ret, calls_store_safe.
  apply keeps_bind; [assumption|]. intros a.
  apply keeps_bind; [assumption|]. intros b. apply keeps_lift.
Qed.

Lemma quiet_Statement_Block l :
  (forall s (context : gmap string string),
     dom context ⊆ {["loop_var"]} -> Statement_names_loop_var s = false ->
     keeps (fun w => oracle_calls w = l) (analyze_Statement env s context))
  /\ (forall b (context : gmap string string),
        dom context ⊆ {["loop_var"]} -> Block_names_loop_var b = false ->
        keeps (fun w => oracle_calls w = l) (analyze_Block env b context)).
Proof.
  apply Statement_Block_induction.
  - intros t v context _ _. simpl.
    apply keeps_memoized; [apply calls_store_safe|].
    apply keeps_bind; [apply quiet_Expression|]. intros a. apply keeps_lift.
  - intros c t e Ht He context Hdom Hn. simpl in Hn.
    apply orb_false_iff in Hn as [Hnt Hne].
    cbn [analyze_Statement]. apply keeps_memoized; [apply calls_store_safe|].
    apply keeps_bind; [apply quiet_Expression|]. intros cc.
    apply keeps_bind; [apply Ht; assumption|]. intros tc.
    apply keeps_bind.
    { destruct e; [apply He; assumption | apply keeps_ret]. }
    intros ec. apply keeps_bind; [apply keeps_lift|]. intros mb.
    apply keeps_lift.
  - intros x a b body Hbody context Hdom Hn. simpl in Hn.
    apply orb_false_iff in Hn as [Hn Hnb].
    apply orb_false_iff in Hn as [Ha Hb].
    cbn [analyze_Statement]. apply keeps_memoized; [apply calls_store_safe|].
    rewrite (check_dependency_needs_loop_var a b context Hdom Ha Hb).
    apply keeps_bind; [|intros bc; apply keeps_lift].
    apply Hbody; [|exact Hnb].
    rewrite dom_insert. apply union_least; [reflexivity | exact Hdom].
  - intros c body Hbody context Hdom Hn.
    cbn [analyze_Statement]. apply keeps_memoized; [apply calls_store_safe|].
    apply keeps_bind; [apply Hbody; assumption|]. intros bc. apply keeps_lift.
  - intros c body Hbody context Hdom Hn.
    cbn [analyze_Statement]. apply keeps_memoized; [apply calls_store_safe|].
    apply keeps_bind; [apply Hbody; assumption|]. intros bc. apply keeps_lift.
  - intros p args context _ _. simpl.
    apply keeps_memoized; [apply calls_store_safe|]. apply keeps_ret.
  - intros stmts Hl context Hdom Hn. rewrite analyze_Block_eq.
    apply keeps_memoized; [apply calls_store_safe|].
    apply keeps_sum_costs. simpl in Hn.
    induction Hl as [|s stmts Hs _ IH]; [apply Forall_nil_2|].
    simpl in Hn. apply orb_false_iff in Hn as [Hs' Hrest].
    apply Forall_cons_2; [apply Hs; assumption | apply IH, Hrest].
Qed.

End CacheFacts.

(** X9.  An analysis that returns leaves its result in the knowledge base
    under the signature of the node: analysing the same node again, under
    any context and with any oracle, returns the same triple from the
    cache and changes nothing.  The context is no part of the key. *)
Theorem second_analysis_is_a_cache_hit
    env node context (w : Analyzer.world) (r : Complexity.t) :
  fst (Analyzer.analyze env node context w) = ok r ->
  forall env' context',
    let w' := snd (Analyzer.analyze env node context w) in
    Analyzer.analyze env' node context' w' = (ok r, w').
Proof.
  intros H env' context' w'. apply analyze_hit.
  apply analysis_result_is_cached, H.
Qed.

Lemma second_analysis_is_a_cache_hit_witness :
  Analyzer.analyze no_credential (NStatement (for_to "j" "loop_var" [assign_x]))
    (Some (<["loop_var" := "i"]> ∅))
    (snd (Analyzer.analyze no_credential
            (NStatement (for_to "j" "loop_var" [assign_x])) None fresh))
  = (ok linear,
     snd (Analyzer.analyze no_credential
            (NStatement (for_to "j" "loop_var" [assign_x])) None fresh)).
Proof.
  refine (second_analysis_is_a_cache_hit no_credential
            (NStatement (for_to "j" "loop_var" [assign_x])) None fresh linear _
            no_credential (Some (<["loop_var" := "i"]> ∅))).
  vm_compute. reflexivity.
Defined.

(** X10.  The knowledge base is append-only for non-empty entries: no
    analysis, returning or raising, removes or changes an entry that holds
    a non-empty dictionary. *)
Theorem entries_are_never_overwritten
    env node context (w : Analyzer.world) (k : string) (d : Dict) :
  KnowledgeBase.data (Analyzer.kb w) !! k = Some d ->
  truthy d = true ->
  KnowledgeBase.data (Analyzer.kb (snd (Analyzer.analyze env node context w)))
    !! k = Some d.
Proof.
  intros Hk Hd.
  apply (keeps_analyze env
           (fun w => KnowledgeBase.data (Analyzer.kb w) !! k = Some d));
    [apply entry_store_safe, Hd | intros w0 d0 H0; exact H0 | exact Hk].
Qed.

Lemma entries_are_never_overwritten_witness :
  KnowledgeBase.data
    (Analyzer.kb (snd (Analyzer.analyze no_credential
                         (NStatement dependent_nest) None
                         (Analyzer.memoize "k" quadratic fresh))))
    !! "k" = Some (Complexity.to_dict quadratic).
Proof.
  refine (entries_are_never_overwritten no_credential
            (NStatement dependent_nest) None
            (Analyzer.memoize "k" quadratic fresh) "k"
            (Complexity.to_dict quadratic) _ _).
  - vm_compute. reflexivity.
  - vm_compute. reflexivity.
Defined.

(** X11.  The oracle is out of reach for ordinary programs.  A context
    built by the analyzer holds at most the key [loop_var], so a for loop
    is found dependent only when one of its bounds reaches a variable that
    is itself named [loop_var].  For every statement, block or program in
    which no for loop has such a bound, the analysis makes no oracle call,
    whether it returns or raises; and at the top level, where the context
    is empty, no loop is dependent at all. *)
Theorem oracle_needs_a_variable_named_loop_var
    env (context : gmap string string) (w : Analyzer.world) :
  dom context ⊆ {["loop_var"]} ->
  (forall s, Statement_names_loop_var s = false ->
     Analyzer.oracle_calls
       (snd (Analyzer.analyze env (NStatement s) (Some context) w))
     = Analyzer.oracle_calls w)
  /\ (forall b, Block_names_loop_var b = false ->
        Analyzer.oracle_calls
          (snd (Analyzer.analyze env (NBlock b) (Some context) w))
        = Analyzer.oracle_calls w)
  /\ (forall p, Block_names_loop_var (main_block p) = false ->
        Analyzer.oracle_calls
          (snd (Analyzer.analyze env (NProgram p) None w))
        = Analyzer.oracle_calls w)
  /\ (forall a b, Analyzer.check_dependency a b ∅ = false).
Proof.
  intros Hdom.
  destruct (quiet_Statement_Block env (Analyzer.oracle_calls w)) as [Hs Hb].
  split; [|split; [|split]].
  - intros s Hn. apply (Hs s context Hdom Hn w). reflexivity.
  - intros b Hn. apply (Hb b context Hdom Hn w). reflexivity.
  - intros p Hn. simpl. unfold Analyzer.analyze_Program.
    apply (keeps_memoized (fun w0 => Analyzer.oracle_calls w0 = Analyzer.oracle_calls w));
      [apply calls_store_safe | | reflexivity].
    apply Hb; [|exact Hn]. rewrite dom_empty. apply empty_subseteq.
  - intros a b. unfold Analyzer.check_dependency. rewrite dom_empty_L.
    assert (forall e, Analyzer.contains_var e ∅ = false) as He.
    { induction e; simpl; try reflexivity;
        try (rewrite IHe1, IHe2; reflexivity);
        apply bool_decide_eq_false_2, not_elem_of_empty. }
    rewrite !He. reflexivity.
Qed.

Lemma oracle_needs_a_variable_named_loop_var_witness :
  Analyzer.oracle_calls
    (snd (Analyzer.analyze no_credential
            (NProgram (main_program [dependent_nest])) None fresh))
  = [].
Proof.
  refine (proj1 (proj2 (proj2
            (oracle_needs_a_variable_named_loop_var no_credential ∅ fresh _)))
            (main_program [dependent_nest]) _).
  - rewrite dom_empty. apply empty_subseteq.
  - reflexivity.
Defined.

(** X12.  Procedures and classes are never analysed: in a knowledge base
    of unit costs, in particular an empty one, a program whose main block
    is empty costs (1, 1, 1) whatever its procedures contain, and a call
    costs (1, 1, 1) whatever procedure it names. *)
Theorem procedures_are_not_analysed
    env context (w : Analyzer.world) (p : Program_) :
  unit_cache w ->
  (main_block p = mkBlock [] ->
   fst (Analyzer.analyze env (NProgram p) context w) = ok Complexity.one)
  /\ (forall proc_name args,
        fst (Analyzer.analyze env (NStatement (Call proc_name args)) context w)
        = ok Complexity.one).
Proof.
  intros Hw. split.
  - intros Hmain. simpl. unfold Analyzer.analyze_Program.
    apply units_memoized; [|exact Hw].
    rewrite Hmain, analyze_Block_eq. apply units_memoized. apply units_ret.
  - intros proc_name args. simpl.
    apply units_memoized; [apply units_ret | exact Hw].
Qed.

Lemma procedures_are_not_analysed_witness :
  exists p,
    front_end "p() begin for i <- 1 to n do begin for j <- 1 to n do begin x <- 1 end end end"
    = ok p
    /\ fst (Analyzer.analyze no_credential (NProgram p) None fresh)
       = ok Complexity.one.
Proof.
  eexists. split; [vm_compute; reflexivity|].
  refine (proj1 (procedures_are_not_analysed no_credential None fresh _ _) _).
  - apply unit_cache_fresh. left. reflexivity.
  - reflexivity.
Defined.

Section SameAnalysis.
Import Analyzer.
Variables env env' : AIEngine.env.

Lemma same_Statement_Block :
  (forall s (context context' : gmap string string),
     dom context ⊆ {["loop_var"]} -> dom context' ⊆ {["loop_var"]} ->
     Statement_names_loop_var s = false ->
     same (analyze_Statement env s context)
       (analyze_Statement env' s context'))
  /\ (forall b (context context' : gmap string string),
        dom context ⊆ {["loop_var"]} -> dom context' ⊆ {["loop_var"]} ->
        Block_names_loop_var b = false ->
        same (analyze_Block env b context) (analyze_Block env' b context')).
Proof.
  apply Statement_Block_induction.
  - intros t v context context' _ _ _. simpl. apply same_memoized.
    apply same_bind; [apply same_Expression|]. intros a. apply same_refl.
  - intros c t e Ht He context context' Hdom Hdom' Hn. simpl in Hn.
    apply orb_false_iff in Hn as [Hnt Hne].
    cbn [analyze_Statement]. apply same_memoized.
    apply same_bind; [apply same_Expression|]. intros cc.
    apply same_bind; [apply Ht; assumption|]. intros tc.
    apply same_bind.
    { destruct e; [apply He; assumption | apply same_refl]. }
    intros ec. apply same_refl.
  - intros x a b body Hbody context context' Hdom Hdom' Hn. simpl in Hn.
    apply orb_false_iff in Hn as [Hn Hnb].
    apply orb_false_iff in Hn as [Ha Hb].
    cbn [analyze_Statement]. apply same_memoized.
    rewrite (check_dependency_needs_loop_var a b context Hdom Ha Hb).
    rewrite (check_dependency_needs_loop_var a b context' Hdom' Ha Hb).
    apply same_bind; [|intros bc; apply same_refl].
    apply Hbody; [| |exact Hnb]; rewrite dom_insert;
      (apply union_least; [reflexivity | assumption]).
  - intros c body Hbody context context' Hdom Hdom' Hn.
    cbn [analyze_Statement]. apply same_memoized.
    apply same_bind; [apply Hbody; assumption|]. intros bc. apply same_refl.
  - intros c body Hbody context context' Hdom Hdom' Hn.
    cbn [analyze_Statement]. apply same_memoized.
    apply same_bind; [apply Hbody; assumption|]. intros bc. apply same_refl.
  - intros p args context context' _ _ _. simpl. apply same_refl.
  - intros stmts Hl context context' Hdom Hdom' Hn. rewrite !analyze_Block_eq.
    apply same_memoized. apply same_sum_costs. simpl in Hn.
    induction Hl as [|s stmts Hs _ IH]; [apply Forall_nil_2|].
    simpl in Hn. apply orb_false_iff in Hn as [Hs' Hrest].
    apply Forall_cons_2; [apply Hs; assumption | apply IH, Hrest].
Qed.

End SameAnalysis.

(** X13.  Without a for loop whose bound names [loop_var], the analysis
    is a function of the tree and the knowledge base alone: the
    credential, the answers of the model and the context passed in, as
    long as it holds at most the key [loop_var], change neither the
    result, nor the exception, nor the world left behind. *)
Theorem analysis_ignores_oracle_and_context
    env env' (context context' : gmap string string) (w : Analyzer.world) :
  dom context ⊆ {["loop_var"]} ->
  dom context' ⊆ {["loop_var"]} ->
  (forall s, Statement_names_loop_var s = false ->
     Analyzer.analyze env (NStatement s) (Some context) w
     = Analyzer.analyze env' (NStatement s) (Some context') w)
  /\ (forall b, Block_names_loop_var b = false ->
        Analyzer.analyze env (NBlock b) (Some context) w
        = Analyzer.analyze env' (NBlock b) (Some context') w)
  /\ (forall p, Block_names_loop_var (main_block p) = false ->
        Analyzer.analyze env (NProgram p) None w
        = Analyzer.analyze env' (NProgram p) (Some context') w).
Proof.
  intros Hdom Hdom'.
  destruct (same_Statement_Block env env') as [Hs Hb].
  split; [|split].
  - intros s Hn. apply Hs; assumption.
  - intros b Hn. apply Hb; assumption.
  - intros p Hn. simpl. unfold Analyzer.analyze_Program.
    apply same_memoized. intros w0. apply Hb; [|exact Hdom'|exact Hn].
    rewrite dom_empty. apply empty_subseteq.
Qed.

Lemma analysis_ignores_oracle_and_context_witness :
  Analyzer.analyze no_credential (NProgram (main_program three_loops)) None
    fresh
  = Analyzer.analyze answers_a_list (NProgram (main_program three_loops))
      (Some (<["loop_var" := "i"]> ∅)) fresh.
Proof.
  refine (proj2 (proj2 (analysis_ignores_oracle_and_context no_credential _
                          ∅ (<["loop_var" := "i"]> ∅) fresh _ _))
            (main_program three_loops) _).
  - rewrite dom_empty. apply empty_subseteq.
  - rewrite dom_insert, dom_empty. apply union_least; [reflexivity|].
    apply empty_subseteq.
  - reflexivity.
Defined.

(** ** The tokenizer *)

(** The token types that [tokenize] appends to its result: all of
    [TOKEN_TYPES] but the four it handles apart. *)
Definition emitted_types : list string :=
  filter (fun ty => ty ∉ ["COMMENT"; "NEWLINE"; "SKIP"; "MISMATCH"])
    (map fst Tokenizer.TOKEN_TYPES).

(** A pattern that cuts its match off the front of the text. *)
Definition cutting (p : Tokenizer.pattern) : Prop :=
  forall s v rest, p s = Some (v, rest) -> s = v +:+ rest.

Section TokenizerFacts.
Import Tokenizer.

Lemma append_assoc (a b c : string) : (a +:+ b) +:+ c = a +:+ (b +:+ c).
Proof.
  induction a as [|x a IH]; [reflexivity|].
  change (String x ((a +:+ b) +:+ c) = String x (a +:+ (b +:+ c))).
  rewrite IH. reflexivity.
Qed.

Lemma append_cons c (a b : string) : String c a +:+ b = String c (a +:+ b).
Proof. reflexivity. Qed.

Lemma span_cuts p s a b : span p s = (a, b) -> s = a +:+ b.
Proof.
  revert a b. induction s as [|c s IH]; intros a b; simpl.
  - intros H. injection H as <- <-. reflexivity.
  - destruct (p c).
    + destruct (span p s) as [a' b'] eqn:Hs. intros H. injection H as <- <-.
      rewrite append_cons, <- (IH _ _ eq_refl). reflexivity.
    + intros H. injection H as <- <-. reflexivity.
Qed.

Lemma strip_prefix_cuts p s r : Py.strip_prefix p s = Some r -> s = p +:+ r.
Proof.
  revert s. induction p as [|a p IH]; intros [|b s]; simpl; try discriminate.
  - intros H. injection H as <-. reflexivity.
  - intros H. injection H as <-. reflexivity.
  - destruct (Ascii.eqb a b) eqn:Hab; [|discriminate].
    apply Ascii.eqb_eq in Hab as ->. intros H. rewrite (IH _ H). reflexivity.
Qed.

Lemma literal_cutting alternatives : cutting (literal alternatives).
Proof.
  induction alternatives as [|a l IH]; intros s v rest; simpl; [discriminate|].
  destruct (Py.strip_prefix a s) as [s'|] eqn:Hs.
  - intros H. injection H as <- <-. apply strip_prefix_cuts, Hs.
  - apply IH.
Qed.

Lemma letter_cutting k : cutting (letter k).
Proof.
  intros [|c s] v rest; cbn [letter]; [discriminate|].
  destruct (Ascii.eqb k (Py.lower_char c)).
  - intros H. injection H as <- <-. reflexivity.
  - apply literal_cutting.
Qed.

Lemma keyword_cutting kw : cutting (keyword kw).
Proof.
  induction kw as [|k kw IH]; intros s v rest; cbn [keyword].
  - destruct (word_follows s); [discriminate|].
    intros H. injection H as <- <-. reflexivity.
  - destruct (letter k s) as [[c s']|] eqn:Hl; [|discriminate].
    destruct (keyword kw s') as [[v' rest']|] eqn:Hk; [|discriminate].
    intros H. injection H as <- <-.
    rewrite (letter_cutting _ _ _ _ Hl), (IH _ _ _ Hk).
    symmetry. apply append_assoc.
Qed.

Lemma TOKEN_TYPES_cutting :
  Forall (fun entry => cutting (snd entry)) TOKEN_TYPES.
Proof.
  unfold TOKEN_TYPES.
  repeat (apply Forall_cons_2; [cbn [snd]|]); try apply Forall_nil_2.
  all: try apply literal_cutting.
  all: try apply keyword_cutting.
  - intros s v rest. unfold comment.
    destruct (Py.strip_prefix glyph_comment s) as [s'|] eqn:Hs; [|discriminate].
    destruct (span _ s') as [text r] eqn:Hsp.
    intros H. injection H as <- <-.
    apply strip_prefix_cuts in Hs. apply span_cuts in Hsp.
    rewrite Hs, Hsp. symmetry. apply append_assoc.
  - intros [|c s] v rest; simpl; [discriminate|].
    destruct (Ascii.eqb c Py.dq) eqn:Hc; [|discriminate].
    apply Ascii.eqb_eq in Hc as ->.
    destruct (span _ s) as [text [|q r]] eqn:Hsp; [discriminate|].
    intros H. injection H as <- <-.
    assert (q = Py.dq) as ->.
    { clear -Hsp. revert text Hsp.
      induction s as [|c s IH]; intros text; simpl; [discriminate|].
      destruct (Ascii.eqb c Py.dq) eqn:Hc; simpl.
      - intros H. injection H as _ <- _. apply Ascii.eqb_eq, Hc.
      - destruct (span _ s) as [a b] eqn:Hs. intros H. injection H as _ ->.
        eapply IH. reflexivity. }
    apply span_cuts in Hsp. rewrite Hsp, append_cons. f_equal.
    rewrite append_assoc. reflexivity.
  - intros s v rest. unfold number.
    destruct (span Py.is_digit s) as [[|d whole] r] eqn:Hsp; [discriminate|].
    apply span_cuts in Hsp.
    destruct r as [|c r]; [intros H; injection H as <- <-; exact Hsp|].
    destruct (Ascii.ascii_dec c ".") as [->|Hc].
    + destruct (span Py.is_digit r) as [[|f frac] r'] eqn:Hf.
      * intros H. injection H as <- <-. exact Hsp.
      * intros H. injection H as <- <-. apply span_cuts in Hf.
        rewrite Hsp, Hf, !append_assoc. reflexivity.
    + destruct c as [[] [] [] [] [] [] [] []];
        try (intros H; injection H as <- <-; exact Hsp).
      congruence.
  - intros [|c s] v rest; simpl; [discriminate|].
    destruct (Py.is_alpha c || Ascii.eqb c "_"); [|discriminate].
    destruct (span is_word s) as [text r] eqn:Hsp.
    intros H. injection H as <- <-. apply span_cuts in Hsp.
    rewrite Hsp. reflexivity.
  - intros s v rest. unfold blanks.
    destruct (span _ s) as [[|b text] r] eqn:Hsp; [discriminate|].
    intros H. injection H as <- <-. apply span_cuts in Hsp. exact Hsp.
  - intros [|c s] v rest; simpl; [discriminate|].
    destruct (Ascii.eqb c Py.lf); [discriminate|].
    destruct (span _ s) as [cont r] eqn:Hsp.
    destruct (Py.in_range 192 255 c); intros H; injection H as <- <-.
    + apply span_cuts in Hsp. rewrite Hsp. reflexivity.
    + reflexivity.
Qed.

Lemma first_match_cuts types s token_type v rest :
  Forall (fun entry => cutting (snd entry)) types ->
  first_match types s = Some (token_type, v, rest) ->
  s = v +:+ rest.
Proof.
  induction 1 as [|[ty p] l Hp _ IH]; simpl; [discriminate|].
  destruct (p s) as [[v' s']|] eqn:Hm.
  - intros H. injection H as _ <- <-. eapply Hp, Hm.
  - exact IH.
Qed.

Lemma first_match_none types s :
  first_match types s = None -> Forall (fun entry => snd entry s = None) types.
Proof.
  induction types as [|[ty p] l IH]; simpl; [intros _; apply Forall_nil_2|].
  destruct (p s) as [[v' s']|] eqn:Hm; [discriminate|].
  intros H. apply Forall_cons_2; [exact Hm | apply IH, H].
Qed.

Lemma some_pattern_matches c s : first_match TOKEN_TYPES (String c s) <> None.
Proof.
  intros H. apply first_match_none in H.
  rewrite Forall_forall in H.
  assert (any_char (String c s) = None) as Hany.
  { apply (H ("MISMATCH", any_char)). unfold TOKEN_TYPES.
    do 28 (apply elem_of_cons; right). apply list_elem_of_here. }
  assert (literal [Py.chr Py.lf] (String c s) = None) as Hlf.
  { apply (H ("NEWLINE", literal [Py.chr Py.lf])). unfold TOKEN_TYPES.
    do 26 (apply elem_of_cons; right). apply list_elem_of_here. }
  destruct (Ascii.ascii_dec c Py.lf) as [->|Hne].
  - cbv in Hlf. discriminate.
  - unfold any_char in Hany. apply Ascii.eqb_neq in Hne. rewrite Hne in Hany.
    destruct (span _ s); destruct (Py.in_range 192 255 c); discriminate.
Qed.

Lemma startswith_append v rest : Py.startswith v (v +:+ rest) = true.
Proof.
  unfold Py.startswith. induction v as [|c v IH]; simpl; [reflexivity|].
  rewrite Ascii.eqb_refl. exact IH.
Qed.

Lemma contains_startswith v s :
  Py.startswith v s = true -> Py.contains v s = true.
Proof. intros H. destruct s; simpl; rewrite H; reflexivity. Qed.

Lemma contains_append pre v rest : Py.contains v (pre +:+ v +:+ rest) = true.
Proof.
  induction pre as [|c pre IH].
  - change (Py.contains v (v +:+ rest) = true).
    apply contains_startswith, startswith_append.
  - rewrite append_cons. cbn [Py.contains]. rewrite IH. apply orb_true_r.
Qed.

(** What holds of every token the loop has appended, when the loop is at
    the text [code] of the source [source]. *)
Definition significant (source : string) (t : Token) : Prop :=
  type t ∈ emitted_types
  /\ value t <> EmptyString
  /\ Py.contains (value t) source = true
  /\ (1 <= line t)%nat /\ (1 <= column t)%nat.

Lemma tokenize_from_significant source fuel code line column tokens result :
  (exists pre, source = pre +:+ code) ->
  (1 <= line)%nat -> (1 <= column)%nat ->
  Forall (significant source) tokens ->
  tokenize_from fuel code line column tokens = ok result ->
  Forall (significant source) result.
Proof.
  unfold ok, raise. revert code line column tokens.
  induction fuel as [|fuel IH]; intros code line column tokens Hpre Hl Hc Hacc;
    destruct code as [|c code]; cbn [tokenize_from]; unfold ok, raise;
    try discriminate;
    try (intros H; injection H as <-; exact Hacc).
  destruct (first_match TOKEN_TYPES (String c code))
    as [[[token_type v] rest]|] eqn:Hm; [|discriminate].
  pose proof (first_match_type _ _ _ _ _ Hm) as Hty.
  pose proof (first_match_cuts _ _ _ _ _ TOKEN_TYPES_cutting Hm) as Hcut.
  pose proof (first_match_consumes _ _ _ _ _ TOKEN_TYPES_consuming Hm) as Hlt.
  assert (exists pre, source = pre +:+ rest) as Hpre'.
  { destruct Hpre as [pre ->]. exists (pre +:+ v).
    rewrite Hcut. symmetry. apply append_assoc. }
  repeat case_bool_decide; try discriminate;
    try (apply IH; try assumption; lia).
  apply IH; try assumption; try lia.
  apply Forall_app. split; [exact Hacc|].
  apply Forall_cons_2; [|apply Forall_nil_2].
  split; [|split; [|split; [|split]]]; simpl; try assumption.
  - unfold emitted_types. apply list_elem_of_filter. split; [|exact Hty].
    intros Hin. repeat (apply elem_of_cons in Hin as [->|Hin]; [congruence|]).
    apply elem_of_nil in Hin. exact Hin.
  - intros ->. change (String c code = rest) in Hcut.
    rewrite Hcut in Hlt. lia.
  - destruct Hpre as [pre ->]. rewrite Hcut. apply contains_append.
Qed.

Lemma tokenize_from_error fuel code line column tokens e :
  (1 <= line)%nat ->
  tokenize_from fuel code line column tokens = inl e ->
  e = OutOfFuel
  \/ exists v l,
       e = SyntaxError ("Unexpected character " +:+ Py.repr v
                          +:+ " on line " +:+ Py.str_of_nat l)
       /\ (1 <= l)%nat.
Proof.
  revert code line column tokens.
  induction fuel as [|fuel IH]; intros code line column tokens Hl;
    destruct code as [|c code]; cbn [tokenize_from]; unfold ok, raise;
    try discriminate.
  - intros H. injection H as <-. left. reflexivity.
  - destruct (first_match TOKEN_TYPES (String c code))
      as [[[token_type v] rest]|] eqn:Hm.
    + repeat case_bool_decide; try (apply IH; lia).
      intros E. injection E as <-. right. eauto.
    + apply some_pattern_matches in Hm. destruct Hm.
Qed.

End TokenizerFacts.

(** X14.  The tokenizer ends on every source text, with the token list or
    with the SyntaxError that names one character and a line: at every
    position some pattern matches, so the error without a character, after
    the inner loop, is never raised. *)
Theorem tokenizer_stops_at_a_named_character (code : string) :
  (forall c s, Tokenizer.first_match Tokenizer.TOKEN_TYPES (String c s) <> None)
  /\ ((exists tokens, Tokenizer.tokenize code = ok tokens)
      \/ (exists v l,
            Tokenizer.tokenize code
            = raise (SyntaxError ("Unexpected character " +:+ Py.repr v
                                    +:+ " on line " +:+ Py.str_of_nat l))
            /\ (1 <= l)%nat)).
Proof.
  split; [apply some_pattern_matches|].
  pose proof (tokenize_from_enough_fuel (String.length code) code 1 1 []
                (le_n _)) as Hfuel.
  unfold Tokenizer.tokenize in *.
  destruct (Tokenizer.tokenize_from _ code 1 1 []) as [e|tokens] eqn:Ht.
  - right.
    destruct (tokenize_from_error _ _ _ _ _ _ (le_n 1) Ht)
      as [->|(v & l & -> & Hl)].
    + exfalso. apply Hfuel. reflexivity.
    + exists v, l. split; [reflexivity|exact Hl].
  - left. eauto.
Qed.

(** X15.  Every token of the result is significant: its type is one of
    [TOKEN_TYPES] other than COMMENT, NEWLINE, SKIP and MISMATCH, its value
    is a non-empty piece of the source text, taken verbatim, and its line
    and column count from 1. *)
Theorem tokens_are_pieces_of_the_source (code : string) (tokens : list Tokenizer.Token) :
  Tokenizer.tokenize code = ok tokens ->
  Forall (significant code) tokens.
Proof.
  apply tokenize_from_significant; try lia; [|apply Forall_nil_2].
  exists EmptyString. reflexivity.
Qed.

Lemma tokens_are_pieces_of_the_source_witness :
  Forall (significant "x <- MOD")
    [Tokenizer.mkToken "ID" "x" 1 1; Tokenizer.mkToken "ASSIGN" "<-" 1 3;
     Tokenizer.mkToken "MOD" "MOD" 1 6].
Proof.
  apply (tokens_are_pieces_of_the_source "x <- MOD"). vm_compute. reflexivity.
Defined.

(** ** The parser *)

Definition no_attribute (field_name : string) : exn :=
  AttributeError ("'NoneType' object has no attribute '" +:+ field_name +:+ "'").

(** X16.  Text outside [begin ... end] is dropped without a word: when
    the first token is neither [Clase], nor an identifier followed by an
    opening parenthesis, nor [begin], the parser reads nothing and returns
    the program without classes, procedures and statements. *)
Theorem text_outside_begin_is_dropped (tokens : list Tokenizer.Token) :
  Parser.says "clase" (tokens !! 0%nat) = false ->
  Parser.has_type ["ID"] (tokens !! 0%nat)
    && Parser.has_type ["LPAREN"] (tokens !! 1%nat) = false ->
  Parser.says "begin" (tokens !! 0%nat) = false ->
  Parser.parse_program tokens = ok (mkProgram "Program" [] [] (mkBlock [])).
Proof.
  intros Hc Hp Hb. unfold Parser.parse_program, Parser.parse_program_with.
  replace (16 * length tokens + 16)%nat with (S (16 * length tokens + 15))
    by lia.
  generalize (16 * length tokens + 15)%nat. intros fuel.
  cbn [Parser.parse_classes Parser.parse_procedures].
  unfold rbind, mbind, Parser.P_bind, Parser.peek, ok. simpl.
  rewrite Hc. simpl. rewrite Hp. simpl. rewrite Hb. reflexivity.
Qed.

Lemma text_outside_begin_is_dropped_witness :
  front_end "for i <- 1 to n do begin for j <- 1 to n do begin x <- 1 end end"
  = ok (mkProgram "Program" [] [] (mkBlock [])).
Proof.
  unfold front_end.
  destruct (Tokenizer.tokenize _) as [e|tokens] eqn:Ht;
    [vm_compute in Ht; discriminate Ht|].
  vm_compute in Ht. injection Ht as <-.
  apply text_outside_begin_is_dropped; reflexivity.
Defined.

(** X17.  At the end of the input the parser fails on a missing
    attribute, not with a SyntaxError: where a statement is expected it
    reads [value] of the absent token, and where an expression or the rest
    of a parameter or argument list is expected it reads [type]. *)
Theorem end_of_input_raises_AttributeError
    (tokens : list Tokenizer.Token) (fuel pos : nat) :
  (length tokens <= pos)%nat ->
  Parser.parse_statement tokens (S fuel) pos = raise (no_attribute "value")
  /\ Parser.parse_expression tokens (5 + fuel) pos
     = raise (no_attribute "type")
  /\ Parser.parse_params tokens (S fuel) [] pos = raise (no_attribute "value")
  /\ Parser.skip_dimension tokens (S fuel) pos = raise (no_attribute "type").
Proof.
  intros Hpos.
  assert (forall offset, tokens !! (pos + offset)%nat = None) as Hnone.
  { intros offset. apply lookup_ge_None. lia. }
  split; [|split; [|split]].
  - cbn [Parser.parse_statement]. rewrite bind_peek, Hnone. reflexivity.
  - cbn [Parser.parse_expression Parser.parse_relational Parser.parse_term
         Parser.parse_factor Parser.parse_primary plus].
    unfold mbind at 1 2 3. unfold Parser.P_bind.
    rewrite bind_peek, Hnone. unfold Parser.match_.
    unfold mbind at 1. unfold Parser.P_bind.
    rewrite bind_peek, Hnone. reflexivity.
  - cbn [Parser.parse_params]. rewrite bind_peek, Hnone. reflexivity.
  - cbn [Parser.skip_dimension]. rewrite bind_peek, Hnone. reflexivity.
Qed.

Lemma end_of_input_raises_AttributeError_witness :
  front_end "begin x <-" = raise (no_attribute "type")
  /\ Parser.parse_expression
       [Tokenizer.mkToken "ID" "begin" 1 1; Tokenizer.mkToken "ID" "x" 1 7;
        Tokenizer.mkToken "ASSIGN" "<-" 1 9] 5%nat 3%nat
     = raise (no_attribute "type").
Proof.
  split; [vm_compute; reflexivity|].
  refine (proj1 (proj2 (end_of_input_raises_AttributeError _ 0%nat 3%nat _))).
  simpl. lia.
Defined.

(** ** The parser always ends within its bound *)

(** The exceptions of the parser itself. *)
Definition parser_error (e : exn) : Prop :=
  match e with
  | SyntaxError _ | AttributeError _ => True
  | ValueError _ | OutOfFuel | NotModelled _ => False
  end.

(** The outcome [r] of a method called at [pos] is an exception of the
    parser, or a position at least [d] tokens further and within the
    token list. *)
Definition moves {A} (tokens : list Tokenizer.Token) (d : nat)
    (r : result (A * nat)) (pos : nat) : Prop :=
  match r with
  | inl e => parser_error e
  | inr (_, pos') => (pos + d <= pos')%nat /\ (pos' <= length tokens)%nat
  end.

Section ParserFuel.
Import Tokenizer Parser.
Variable tokens : list Token.
Local Open Scope nat_scope.

Local Abbreviation len := (length tokens).
Local Abbreviation moves := (moves tokens).

Lemma moves_bind {A B} d1 d2 d (m : P A) (k : A -> P B) pos :
  d <= d1 + d2 ->
  moves d1 (m pos) pos ->
  (forall a pos', pos + d1 <= pos' -> pos' <= len ->
     moves d2 (k a pos') pos') ->
  moves d ((m ≫= k) pos) pos.
Proof.
  intros Hd Hm Hk. unfold mbind, P_bind.
  destruct (m pos) as [e|[a pos']]; simpl in *; [exact Hm|].
  destruct Hm as [H1 H2]. specialize (Hk a pos' H1 H2).
  destruct (k a pos') as [e|[b pos'']]; simpl in *; [exact Hk|]. lia.
Qed.

Lemma moves_ret {A} (a : A) pos :
  pos <= len -> moves 0 ((mret a : P A) pos) pos.
Proof. intros H. simpl. lia. Qed.

Lemma moves_weaken {A} d' d (r : result (A * nat)) pos :
  d <= d' -> moves d' r pos -> moves d r pos.
Proof. intros Hd. destruct r as [e|[a pos']]; simpl; [auto|lia]. Qed.

Lemma moves_consume ty pos : moves 1 (consume tokens ty pos) pos.
Proof.
  unfold consume. rewrite bind_peek.
  destruct (tokens !! (pos + 0)) as [t|] eqn:Ht; [|exact I].
  apply lookup_lt_Some in Ht.
  destruct ty as [ty|]; [destruct (negb _ && negb _)|]; simpl; try exact I;
    lia.
Qed.

Lemma moves_consume_keyword kw pos :
  moves 1 (consume_keyword tokens kw pos) pos.
Proof.
  unfold consume_keyword. rewrite bind_peek.
  destruct (tokens !! (pos + 0)) as [t|] eqn:Ht; [|exact I].
  destruct (_ && _); [|exact I].
  apply (moves_bind 1 0 1); [lia | apply moves_consume|].
  intros _ pos' _ H. apply moves_ret, H.
Qed.

Lemma match_cases ty pos :
  (match_ tokens ty pos = inr (true, S pos) /\ pos < len)
  \/ match_ tokens ty pos = inr (false, pos).
Proof.
  unfold match_. rewrite bind_peek.
  destruct (tokens !! (pos + 0)) as [t|] eqn:Ht; [|right; reflexivity].
  destruct (bool_decide _); [|right; reflexivity].
  left. apply lookup_lt_Some in Ht as Hlt. split; [|lia].
  unfold consume. unfold mbind at 1. unfold P_bind. rewrite bind_peek, Ht.
  reflexivity.
Qed.

Lemma moves_bind_match {A} d ty (k : bool -> P A) pos :
  d <= 1 ->
  (pos < len -> moves 0 (k true (S pos)) (S pos)) ->
  moves d (k false pos) pos ->
  moves d ((match_ tokens ty ≫= k) pos) pos.
Proof.
  intros Hd Ht Hf.
  destruct (match_cases ty pos) as [[E Hlt]|E];
    rewrite (bind_returned _ _ _ _ _ E); [|exact Hf].
  specialize (Ht Hlt).
  destruct (k true (S pos)) as [e|[a pos']]; simpl in *; [exact Ht|lia].
Qed.

Lemma moves_bind_attr {A B} d (field : Token -> A) field_name token
    (k : A -> P B) pos :
  (forall t, token = Some t -> moves d (k (field t) pos) pos) ->
  moves d ((attr field field_name token ≫= k) pos) pos.
Proof.
  intros H. destruct token as [t|]; [|exact I]. exact (H t eq_refl).
Qed.

Lemma has_type_lt types pos :
  has_type types (tokens !! (pos + 0)) = true -> pos < len.
Proof.
  destruct (tokens !! (pos + 0)) as [t|] eqn:Ht; [|discriminate].
  intros _. apply lookup_lt_Some in Ht. lia.
Qed.

Lemma says_lt word pos :
  says word (tokens !! (pos + 0)) = true -> pos < len.
Proof.
  destruct (tokens !! (pos + 0)) as [t|] eqn:Ht; [|discriminate].
  intros _. apply lookup_lt_Some in Ht. lia.
Qed.

Lemma some_lt pos t : tokens !! (pos + 0) = Some t -> pos < len.
Proof. intros Ht. apply lookup_lt_Some in Ht. lia. Qed.

(** One call that moves by [d1], followed by a rest that moves by [d2]. *)
Tactic Notation "seq" constr(d1) constr(d2) constr(d) :=
  apply (moves_bind d1 d2 d); [lia | | intros ? ? ? ?; cbv beta].

Ltac consumed :=
  first [apply moves_consume | apply moves_consume_keyword].

Lemma expression_moves n :
  (forall pos, pos <= len -> 5 + 6 * (len - pos) <= n ->
     moves 1 (parse_expression tokens n pos) pos)
  /\ (forall pos, pos <= len -> 4 + 6 * (len - pos) <= n ->
        moves 1 (parse_relational tokens n pos) pos)
  /\ (forall left pos, pos <= len -> 1 + 6 * (len - pos) <= n ->
        moves 0 (parse_relational_loop tokens n left pos) pos)
  /\ (forall pos, pos <= len -> 3 + 6 * (len - pos) <= n ->
        moves 1 (parse_term tokens n pos) pos)
  /\ (forall left pos, pos <= len -> 1 + 6 * (len - pos) <= n ->
        moves 0 (parse_term_loop tokens n left pos) pos)
  /\ (forall pos, pos <= len -> 2 + 6 * (len - pos) <= n ->
        moves 1 (parse_factor tokens n pos) pos)
  /\ (forall left pos, pos <= len -> 1 + 6 * (len - pos) <= n ->
        moves 0 (parse_factor_loop tokens n left pos) pos)
  /\ (forall pos, pos <= len -> 1 + 6 * (len - pos) <= n ->
        moves 1 (parse_primary tokens n pos) pos)
  /\ (forall expr pos, pos <= len -> 1 + 6 * (len - pos) <= n ->
        moves 0 (parse_suffixes tokens n expr pos) pos).
Proof.
  induction n as [|n IH]; [repeat split; intros; lia|].
  destruct IH as
    (Hexpr & Hrel & Hrell & Hterm & Hterml & Hfac & Hfacl & Hprim & Hsuf).
  refine (conj _ (conj _ (conj _ (conj _ (conj _ (conj _ (conj _ (conj _ _))))))));
    [intros pos Hpos Hn | intros pos Hpos Hn | intros left pos Hpos Hn
    | intros pos Hpos Hn | intros left pos Hpos Hn
    | intros pos Hpos Hn | intros left pos Hpos Hn
    | intros pos Hpos Hn | intros expr pos Hpos Hn].
  - cbn [parse_expression]. apply Hrel; lia.
  - cbn [parse_relational]. seq 1 0 1; [apply Hterm; lia|]. apply Hrell; lia.
  - cbn [parse_relational_loop]. rewrite bind_peek.
    destruct (has_type _ _) eqn:Hty; [|apply moves_ret; lia].
    apply has_type_lt in Hty.
    seq 1 0 0; [consumed|]. seq 1 0 0; [apply Hterm; lia|]. apply Hrell; lia.
  - cbn [parse_term]. seq 1 0 1; [apply Hfac; lia|]. apply Hterml; lia.
  - cbn [parse_term_loop]. rewrite bind_peek.
    destruct (has_type _ _) eqn:Hty; [|apply moves_ret; lia].
    apply has_type_lt in Hty.
    seq 1 0 0; [consumed|]. seq 1 0 0; [apply Hfac; lia|]. apply Hterml; lia.
  - cbn [parse_factor]. seq 1 0 1; [apply Hprim; lia|]. apply Hfacl; lia.
  - cbn [parse_factor_loop]. rewrite bind_peek.
    destruct (has_type _ _) eqn:Hty; [|apply moves_ret; lia].
    apply has_type_lt in Hty.
    seq 1 0 0; [consumed|]. seq 1 0 0; [apply Hprim; lia|]. apply Hfacl; lia.
  - cbn [parse_primary]. rewrite bind_peek.
    apply moves_bind_match; [lia| |].
    + intros Hlt. seq 1 0 0; [apply Hexpr; lia|].
      seq 1 0 0; [consumed|]. apply moves_ret; lia.
    + apply moves_bind_attr. intros t Ht. apply some_lt in Ht as Hlt.
      repeat case_bool_decide.
      * seq 1 0 1; [consumed|]. apply moves_bind_attr. intros; apply moves_ret; lia.
      * seq 1 0 1; [consumed|]. apply moves_bind_attr. intros; apply moves_ret; lia.
      * seq 1 0 1; [consumed|]. apply Hsuf; lia.
      * destruct (says _ _); [|exact I].
        seq 1 0 1; [consumed|]. seq 1 0 0; [consumed|].
        seq 1 0 0; [apply Hexpr; lia|]. seq 1 0 0; [consumed|].
        apply moves_ret; lia.
  - cbn [parse_suffixes].
    apply moves_bind_match; [lia| |].
    + intros Hlt. seq 1 0 0; [consumed|]. apply Hsuf; lia.
    + apply moves_bind_match; [lia| |apply moves_ret; lia].
      intros Hlt. seq 1 0 0; [apply Hexpr; lia|].
      seq 1 0 0; [consumed|]. apply Hsuf; lia.
Qed.

Lemma arguments_moves n args pos :
  pos <= len -> 6 + 6 * (len - pos) <= n ->
  moves 1 (parse_arguments tokens n args pos) pos.
Proof.
  revert args pos. induction n as [|n IH]; intros args pos Hpos Hn; [lia|].
  cbn [parse_arguments].
  seq 1 0 1; [apply expression_moves; lia|].
  apply moves_bind_match; [lia| |apply moves_ret; lia].
  intros Hlt. apply (moves_weaken 1); [lia|]. apply IH; lia.
Qed.

Lemma call_moves n pos :
  pos <= len -> 6 * (len - pos) <= n -> moves 1 (parse_call tokens n pos) pos.
Proof.
  intros Hpos Hn. unfold parse_call.
  seq 1 0 1; [consumed|]. seq 1 0 0; [consumed|]. seq 1 0 0; [consumed|].
  rewrite bind_peek. apply moves_bind_attr. intros t Ht.
  apply some_lt in Ht as Hlt.
  seq 0 0 0; [|seq 1 0 0; [consumed|]; apply moves_ret; lia].
  destruct (negb _); [|apply moves_ret; lia].
  apply (moves_weaken 1); [lia|]. apply arguments_moves; lia.
Qed.

Lemma assignment_moves n pos :
  pos <= len -> 5 + 6 * (len - pos) <= n ->
  moves 1 (parse_assignment tokens n pos) pos.
Proof.
  intros Hpos Hn. unfold parse_assignment.
  seq 1 0 1; [apply expression_moves; lia|].
  apply moves_bind_match; [lia| |].
  - intros Hlt. cbn [negb]. seq 1 0 0; [apply expression_moves; lia|].
    apply moves_ret; lia.
  - cbn [negb]. rewrite bind_peek. apply moves_bind_attr. intros; exact I.
Qed.

Lemma statement_moves n :
  (forall pos, pos <= len -> 8 + 6 * (len - pos) <= n ->
     moves 0 (parse_block_body tokens n pos) pos)
  /\ (forall stmts pos, pos <= len -> 7 + 6 * (len - pos) <= n ->
        moves 0 (parse_block_loop tokens n stmts pos) pos)
  /\ (forall pos, pos <= len -> 6 + 6 * (len - pos) <= n ->
        moves 1 (parse_statement tokens n pos) pos)
  /\ (forall pos, pos <= len -> 3 + 6 * (len - pos) <= n ->
        moves 1 (parse_if tokens n pos) pos)
  /\ (forall pos, pos <= len -> 3 + 6 * (len - pos) <= n ->
        moves 1 (parse_for tokens n pos) pos)
  /\ (forall pos, pos <= len -> 3 + 6 * (len - pos) <= n ->
        moves 1 (parse_while tokens n pos) pos)
  /\ (forall pos, pos <= len -> 3 + 6 * (len - pos) <= n ->
        moves 1 (parse_repeat tokens n pos) pos).
Proof.
  induction n as [|n IH]; [repeat split; intros; lia|].
  destruct IH as (Hbody & Hloop & Hstmt & Hif & Hfor & Hwhile & Hrepeat).
  pose proof (expression_moves n) as (Hexpr & _).
  refine (conj _ (conj _ (conj _ (conj _ (conj _ (conj _ _))))));
    [intros pos Hpos Hn | intros stmts pos Hpos Hn | intros pos Hpos Hn
    | intros pos Hpos Hn | intros pos Hpos Hn | intros pos Hpos Hn
    | intros pos Hpos Hn].
  - cbn [parse_block_body]. seq 0 0 0; [apply Hloop; lia|].
    apply moves_ret; lia.
  - cbn [parse_block_loop]. rewrite bind_peek.
    destruct (tokens !! (pos + 0)) as [t|] eqn:Ht; [|apply moves_ret; lia].
    apply some_lt in Ht as Hlt. cbv zeta.
    case_bool_decide; [apply moves_ret; lia|].
    seq 1 0 0; [apply Hstmt; lia|]. apply Hloop; lia.
  - cbn [parse_statement]. rewrite bind_peek.
    apply moves_bind_attr. intros t Ht. apply some_lt in Ht as Hlt. cbv zeta.
    repeat case_bool_decide;
      [apply Hif; lia | apply Hfor; lia | apply Hwhile; lia
      | apply Hrepeat; lia | apply call_moves; lia |].
    destruct (has_type _ _); [apply assignment_moves; lia | exact I].
  - cbn [parse_if].
    seq 1 0 1; [consumed|]. seq 1 0 0; [consumed|].
    seq 1 0 0; [apply Hexpr; lia|]. seq 1 0 0; [consumed|].
    seq 1 0 0; [consumed|]. seq 1 0 0; [consumed|].
    seq 0 0 0; [apply Hbody; lia|]. seq 1 0 0; [consumed|].
    rewrite bind_peek. destruct (says _ _); [|apply moves_ret; lia].
    seq 1 0 0; [consumed|]. seq 1 0 0; [consumed|].
    seq 0 0 0; [apply Hbody; lia|]. seq 1 0 0; [consumed|].
    apply moves_ret; lia.
  - cbn [parse_for].
    seq 1 0 1; [consumed|]. seq 1 0 0; [consumed|]. seq 1 0 0; [consumed|].
    seq 1 0 0; [apply Hexpr; lia|]. seq 1 0 0; [consumed|].
    seq 1 0 0; [apply Hexpr; lia|]. seq 1 0 0; [consumed|].
    seq 1 0 0; [consumed|]. seq 0 0 0; [apply Hbody; lia|].
    seq 1 0 0; [consumed|]. apply moves_ret; lia.
  - cbn [parse_while].
    seq 1 0 1; [consumed|]. seq 1 0 0; [consumed|].
    seq 1 0 0; [apply Hexpr; lia|]. seq 1 0 0; [consumed|].
    seq 1 0 0; [consumed|]. seq 1 0 0; [consumed|].
    seq 0 0 0; [apply Hbody; lia|]. seq 1 0 0; [consumed|].
    apply moves_ret; lia.
  - cbn [parse_repeat].
    seq 1 0 1; [consumed|]. seq 0 0 0; [apply Hbody; lia|].
    seq 1 0 0; [consumed|]. seq 1 0 0; [consumed|].
    seq 1 0 0; [apply Hexpr; lia|]. seq 1 0 0; [consumed|].
    apply moves_ret; lia.
Qed.

Lemma attributes_moves n attributes pos :
  pos <= len -> 1 + 6 * (len - pos) <= n ->
  moves 0 (parse_attributes tokens n attributes pos) pos.
Proof.
  revert attributes pos.
  induction n as [|n IH]; intros attributes pos Hpos Hn; [lia|].
  cbn [parse_attributes]. rewrite bind_peek.
  destruct (tokens !! (pos + 0)) as [t|] eqn:Ht; [|apply moves_ret; lia].
  apply some_lt in Ht as Hlt.
  destruct (negb _); [|apply moves_ret; lia].
  seq 1 0 0; [consumed|]. apply IH; lia.
Qed.

Lemma class_def_moves n pos :
  pos <= len -> 6 * (len - pos) <= n ->
  moves 1 (parse_class_def tokens n pos) pos.
Proof.
  intros Hpos Hn. unfold parse_class_def.
  seq 1 0 1; [consumed|]. seq 1 0 0; [consumed|]. seq 1 0 0; [consumed|].
  seq 0 0 0; [apply attributes_moves; lia|].
  seq 1 0 0; [consumed|]. apply moves_ret; lia.
Qed.

Lemma skip_dimension_moves n pos :
  pos <= len -> 1 + 6 * (len - pos) <= n ->
  moves 0 (skip_dimension tokens n pos) pos.
Proof.
  revert pos. induction n as [|n IH]; intros pos Hpos Hn; [lia|].
  cbn [skip_dimension]. rewrite bind_peek.
  apply moves_bind_attr. intros t Ht. apply some_lt in Ht as Hlt.
  destruct (negb _); [|apply moves_ret; lia].
  seq 1 0 0; [consumed|]. apply IH; lia.
Qed.

Lemma dimensions_moves n pos :
  pos <= len -> 1 + 6 * (len - pos) <= n ->
  moves 0 (parse_dimensions tokens n pos) pos.
Proof.
  revert pos. induction n as [|n IH]; intros pos Hpos Hn; [lia|].
  cbn [parse_dimensions].
  apply moves_bind_match; [lia| |apply moves_ret; lia].
  intros Hlt. seq 0 0 0; [apply skip_dimension_moves; lia|].
  seq 1 0 0; [consumed|].
  apply moves_bind_match; [lia| |apply IH; lia].
  intros Hlt'. apply IH; lia.
Qed.

Lemma params_moves n params pos :
  pos <= len -> 1 + 6 * (len - pos) <= n ->
  moves 1 (parse_params tokens n params pos) pos.
Proof.
  revert params pos.
  induction n as [|n IH]; intros params pos Hpos Hn; [lia|].
  cbn [parse_params]. rewrite bind_peek.
  apply moves_bind_attr. intros t Ht. apply some_lt in Ht as Hlt.
  seq 1 0 1.
  - case_bool_decide.
    + seq 1 0 1; [consumed|]. seq 1 0 0; [consumed|].
      seq 1 0 0; [consumed|]. apply moves_ret; lia.
    + seq 1 0 1; [consumed|]. rewrite bind_peek.
      apply moves_bind_attr. intros t' Ht'. apply some_lt in Ht' as Hlt'.
      case_bool_decide; [|apply moves_ret; lia].
      seq 0 0 0; [apply dimensions_moves; lia|]. apply moves_ret; lia.
  - apply moves_bind_match; [lia| |].
    + intros Hlt'. cbn [negb]. apply (moves_weaken 1); [lia|]. apply IH; lia.
    + cbn [negb]. apply moves_ret; lia.
Qed.

Lemma procedure_def_moves n pos :
  pos <= len -> 2 + 6 * (len - pos) <= n ->
  moves 1 (parse_procedure_def tokens n pos) pos.
Proof.
  intros Hpos Hn. unfold parse_procedure_def.
  seq 1 0 1; [consumed|]. seq 1 0 0; [consumed|].
  rewrite bind_peek. apply moves_bind_attr. intros t Ht.
  apply some_lt in Ht as Hlt.
  seq 0 0 0.
  { destruct (negb _); [|apply moves_ret; lia].
    apply (moves_weaken 1); [lia|]. apply params_moves; lia. }
  seq 1 0 0; [consumed|]. seq 1 0 0; [consumed|].
  seq 0 0 0; [apply statement_moves; lia|].
  seq 1 0 0; [consumed|]. apply moves_ret; lia.
Qed.

Lemma classes_moves n classes pos :
  pos <= len -> 1 + 6 * (len - pos) <= n ->
  moves 0 (parse_classes tokens n classes pos) pos.
Proof.
  revert classes pos.
  induction n as [|n IH]; intros classes pos Hpos Hn; [lia|].
  cbn [parse_classes]. rewrite bind_peek.
  destruct (says _ _) eqn:Hs; [|apply moves_ret; lia].
  apply says_lt in Hs.
  seq 1 0 0; [apply class_def_moves; lia|]. apply IH; lia.
Qed.

Lemma procedures_moves n procedures pos :
  pos <= len -> 3 + 6 * (len - pos) <= n ->
  moves 0 (parse_procedures tokens n procedures pos) pos.
Proof.
  revert procedures pos.
  induction n as [|n IH]; intros procedures pos Hpos Hn; [lia|].
  cbn [parse_procedures]. rewrite !bind_peek.
  destruct (has_type ["ID"] _) eqn:Hs; [|apply moves_ret; lia].
  apply has_type_lt in Hs.
  destruct (has_type ["LPAREN"] _); [|apply moves_ret; lia]. cbn [andb].
  seq 1 0 0; [apply procedure_def_moves; lia|]. apply IH; lia.
Qed.

Lemma program_moves n :
  8 + 6 * len <= n -> moves 0 (parse_program_with tokens n 0) 0.
Proof.
  intros Hn. unfold parse_program_with.
  seq 0 0 0; [apply classes_moves; lia|].
  seq 0 0 0; [apply procedures_moves; lia|].
  rewrite bind_peek.
  seq 0 0 0; [|apply moves_ret; lia].
  destruct (says _ _) eqn:Hs; [|apply moves_ret; lia].
  apply says_lt in Hs.
  seq 1 0 0; [consumed|]. seq 0 0 0; [apply statement_moves; lia|].
  seq 1 0 0; [consumed|]. apply moves_ret; lia.
Qed.

End ParserFuel.

(** X18.  The front end ends on every source text.  The bound on the
    depth of the calls of the parser is never reached: tokenizer and
    parser return a program, or raise a SyntaxError, or, at the end of the
    input, the AttributeError of a missing attribute; nothing else. *)
Theorem front_end_always_ends (code : string) :
  (forall tokens,
     (exists p, Parser.parse_program tokens = ok p)
     \/ (exists msg, Parser.parse_program tokens = raise (SyntaxError msg))
     \/ (exists msg, Parser.parse_program tokens = raise (AttributeError msg)))
  /\ ((exists p, front_end code = ok p)
      \/ (exists msg, front_end code = raise (SyntaxError msg))
      \/ (exists msg, front_end code = raise (AttributeError msg))).
Proof.
  assert (forall tokens,
     (exists p, Parser.parse_program tokens = ok p)
     \/ (exists msg, Parser.parse_program tokens = raise (SyntaxError msg))
     \/ (exists msg, Parser.parse_program tokens = raise (AttributeError msg)))
    as Hparse.
  { intros tokens. unfold Parser.parse_program.
    pose proof (program_moves tokens (16 * length tokens + 16)%nat) as H.
    destruct (Parser.parse_program_with tokens _ 0%nat) as [e|[p pos]].
    - simpl in H. destruct e as [msg|msg|msg| |what]; try (destruct H; lia).
      + right. left. exists msg. reflexivity.
      + right. right. exists msg. reflexivity.
    - left. exists p. reflexivity. }
  split; [exact Hparse|]. unfold front_end.
  destruct (tokenize_total code) as [[tokens ->]|[msg ->]].
  - apply Hparse.
  - right. left. exists msg. reflexivity.
Qed.

(** ** main.py: the report of a run *)

Module Main.
Import Analyzer.

(** [Complexity.__repr__], with the capital omega and theta as UTF-8. *)
Definition Complexity_repr (c : Complexity.t) : string :=
  "O(" +:+ Complexity.o c +:+ "), " +:+ Tokenizer.utf8 [206; 169]%N
    +:+ "(" +:+ Complexity.omega c +:+ "), " +:+ Tokenizer.utf8 [206; 152]%N
    +:+ "(" +:+ Complexity.theta c +:+ ")".

(** [str(e)] of a caught exception.  [OutOfFuel] and [NotModelled] are no
    exceptions of the program. *)
Definition exn_str (e : exn) : string :=
  match e with
  | SyntaxError msg => msg
  | ValueError msg => msg
  | AttributeError msg => msg
  | OutOfFuel | NotModelled _ => EmptyString
  end.

(** ["-" * 20] *)
Definition rule : string := "--------------------".

(** What [analyze_file] prints, one text per call of [print]. *)
Definition report (filepath : string) (line : string) : list string :=
  ["Analyzing " +:+ filepath +:+ "..."; line; rule].

(** [analyze_file(filepath, analyzer)].  [read] is what opening and
    reading the file gives: its text, or the text of the exception
    raised. *)
Definition analyze_file (env : AIEngine.env) (filepath : string)
    (read : string + string) (w : world) : list string * world :=
  match read with
  | inl msg => (report filepath ("  Error: " +:+ msg), w)
  | inr code =>
      match front_end code with
      | inl e => (report filepath ("  Error: " +:+ exn_str e), w)
      | inr program =>
          match analyze env (NProgram program) None w with
          | (inr complexity, w') =>
              (report filepath ("  Complexity: " +:+ Complexity_repr complexity),
               w')
          | (inl e, w') => (report filepath ("  Error: " +:+ exn_str e), w')
          end
      end
  end.

(** [f.endswith(suffix)] *)
Definition endswith (suffix s : string) : bool :=
  bool_decide (String.list_ascii_of_string suffix
                 `suffix_of` String.list_ascii_of_string s).

Definition selected (filename : string) : bool :=
  endswith ".txt" filename || endswith ".psc" filename.

(** The [for filename in files] of [main]. *)
Fixpoint analyze_files (env : AIEngine.env) (algo_dir : string)
    (files : list (string * (string + string))) (w : world)
  : list string * world :=
  match files with
  | [] => ([], w)
  | (filename, read) :: rest =>
      let filepath := algo_dir +:+ "/" +:+ filename in
      let '(printed, w') := analyze_file env filepath read w in
      let '(printed', w'') := analyze_files env algo_dir rest w' in
      (printed ++ printed', w'')
  end.

(** [main()].  [kb_file] is the state of the knowledge-base file and
    [algorithms] the listing of the directory of algorithms, when it
    exists, with what reading each entry gives. *)
Definition main (env : AIEngine.env) (algo_dir : string)
    (kb_file : KnowledgeBase.file_state)
    (algorithms : option (list (string * (string + string))))
  : list string * world :=
  let w := start kb_file in
  match algorithms with
  | None => (["Directory " +:+ algo_dir +:+ " not found."], w)
  | Some listing =>
      let files := filter (fun f => selected (fst f) = true) listing in
      match files with
      | [] => (["No algorithm files found in algorithms/ directory."], w)
      | _ => analyze_files env algo_dir files w
      end
  end.

End Main.

(** The text of the exception that keeps a file from reaching the
    analyzer, if any. *)
Definition front_failure (read : string + string) : option string :=
  match read with
  | inl msg => Some msg
  | inr code =>
      match front_end code with
      | inl e => Some (Main.exn_str e)
      | inr _ => None
      end
  end.

(** The memory of the knowledge base is what a reload of its file gives. *)
Definition on_file (w : Analyzer.world) : Prop :=
  KnowledgeBase.load (KnowledgeBase.file (Analyzer.kb w)) = Analyzer.kb w.

Section RunFacts.
Import Analyzer.

Lemma on_file_store_safe : store_safe on_file.
Proof. intros w sig _ _ r w' _. reflexivity. Qed.

Lemma on_file_start f : on_file (start f).
Proof. destruct f; reflexivity. Qed.

Lemma on_file_follows w w' : on_file w -> follows w w' -> on_file w'.
Proof.
  intros Hw. induction 1 as [|env node context w' _ IH|w' _ IH].
  - exact Hw.
  - apply (keeps_analyze env on_file on_file_store_safe);
      [intros w0 d H0; exact H0 | exact IH].
  - apply on_file_start.
Qed.

Lemma hit_store_safe k r :
  store_safe (fun w => cache_hit w k = Some r).
Proof.
  intros w sig Hk Hmiss r' w' Hk'. rewrite cache_hit_memoize.
  destruct (decide (sig = k)) as [->|]; [congruence | exact Hk'].
Qed.

Lemma hit_follows k r w w' :
  on_file w -> cache_hit w k = Some r -> follows w w' ->
  cache_hit w' k = Some r.
Proof.
  intros Hw Hk Hf.
  induction Hf as [|env node context w' Hf IH|w' Hf IH].
  - exact Hk.
  - apply (keeps_analyze env _ (hit_store_safe k r));
      [intros w0 d H0; exact H0 | exact IH].
  - pose proof (on_file_follows _ _ Hw Hf) as Hon.
    unfold cache_hit, start, KnowledgeBase.init in *. simpl.
    unfold on_file in Hon. rewrite Hon. exact IH.
Qed.

Lemma follows_trans w w' w'' : follows w w' -> follows w' w'' -> follows w w''.
Proof.
  intros H1 H2. induction H2; [exact H1 | |];
    [apply follows_analysis | apply follows_restart]; assumption.
Qed.

Lemma analyze_files_app env dir l1 l2 w :
  Main.analyze_files env dir (l1 ++ l2) w
  = (fst (Main.analyze_files env dir l1 w)
       ++ fst (Main.analyze_files env dir l2
                 (snd (Main.analyze_files env dir l1 w))),
     snd (Main.analyze_files env dir l2
            (snd (Main.analyze_files env dir l1 w)))).
Proof.
  revert w. induction l1 as [|[filename read] l1 IH]; intros w.
  - simpl. destruct (Main.analyze_files env dir l2 w). reflexivity.
  - cbn [app Main.analyze_files].
    destruct (Main.analyze_file env _ read w) as [printed w'].
    rewrite IH.
    destruct (Main.analyze_files env dir l1 w') as [p1 w1]. simpl.
    destruct (Main.analyze_files env dir l2 w1) as [p2 w2]. simpl.
    rewrite app_assoc. reflexivity.
Qed.

Lemma analyze_file_front_failure env path read msg w :
  front_failure read = Some msg ->
  Main.analyze_file env path read w
  = (Main.report path ("  Error: " +:+ msg), w).
Proof.
  unfold front_failure, Main.analyze_file.
  destruct read as [m|code]; [intros H; injection H as <-; reflexivity|].
  destruct (front_end code) as [e|p]; [|discriminate].
  intros H. injection H as <-. reflexivity.
Qed.

End RunFacts.

(** X19.  The knowledge base is on file at every moment of every process:
    in each world that follows a start, after any number of analyses,
    returned or raised, and restarts, a reload of the file gives exactly
    the knowledge base in memory.  An exception loses no stored result. *)
Theorem knowledge_base_is_always_on_file
    (f : KnowledgeBase.file_state) (w : Analyzer.world) :
  follows (Analyzer.start f) w ->
  KnowledgeBase.load (KnowledgeBase.file (Analyzer.kb w)) = Analyzer.kb w
  /\ Analyzer.kb (Analyzer.start (KnowledgeBase.file (Analyzer.kb w)))
     = Analyzer.kb w.
Proof.
  intros H. pose proof (on_file_follows _ _ (on_file_start f) H) as Hon.
  split; exact Hon.
Qed.

Lemma knowledge_base_is_always_on_file_witness :
  fst (Analyzer.analyze no_credential (NProgram (main_program three_loops))
         None fresh)
  = raise (ValueError "invalid literal for int() with base 10: '2)'")
  /\ KnowledgeBase.load
       (KnowledgeBase.file
          (Analyzer.kb
             (snd (Analyzer.analyze no_credential
                     (NProgram (main_program three_loops)) None fresh))))
     = Analyzer.kb
         (snd (Analyzer.analyze no_credential
                 (NProgram (main_program three_loops)) None fresh)).
Proof.
  split; [vm_compute; reflexivity|].
  refine (proj1 (knowledge_base_is_always_on_file KnowledgeBase.Missing _ _)).
  apply follows_analysis, follows_now.
Defined.

(** X20.  A report is repeated.  When a file has been analysed with a
    result, then in every world that follows, in the same process or
    after restarts, with or without credential, [analyze_file] prints the
    same complexity for the same text and changes nothing: the result
    comes from the knowledge base and the oracle is not asked. *)
Theorem report_is_repeated
    env (f : KnowledgeBase.file_state) (w : Analyzer.world)
    (code : string) (p : Program_) (c : Complexity.t) :
  follows (Analyzer.start f) w ->
  front_end code = ok p ->
  fst (Analyzer.analyze env (NProgram p) None w) = ok c ->
  forall env' path w',
    follows (snd (Analyzer.analyze env (NProgram p) None w)) w' ->
    Main.analyze_file env' path (inr code) w'
    = (Main.report path ("  Complexity: " +:+ Main.Complexity_repr c), w').
Proof.
  intros Hw Hp Hc env' path w' Hf.
  assert (Analyzer.cache_hit w' (signature_of (NProgram p)) = Some c) as Hhit.
  { eapply hit_follows; [|apply analysis_result_is_cached, Hc|exact Hf].
    eapply on_file_follows; [apply on_file_start|].
    apply follows_analysis, Hw. }
  unfold Main.analyze_file. unfold ok in Hp. rewrite Hp.
  rewrite (analyze_hit env' (NProgram p) None w' c Hhit). reflexivity.
Qed.

Lemma report_is_repeated_witness :
  Main.analyze_file no_credential "b.psc" (inr independent_nest_source)
    (Analyzer.start
       (KnowledgeBase.file
          (Analyzer.kb
             (snd (Analyzer.analyze no_credential
                     (NProgram (main_program [independent_nest])) None
                     fresh)))))
  = (Main.report "b.psc"
       ("  Complexity: " +:+ Main.Complexity_repr quadratic),
     Analyzer.start
       (KnowledgeBase.file
          (Analyzer.kb
             (snd (Analyzer.analyze no_credential
                     (NProgram (main_program [independent_nest])) None
                     fresh))))).
Proof.
  refine (report_is_repeated no_credential KnowledgeBase.Missing fresh
            independent_nest_source (main_program [independent_nest])
            quadratic _ _ _ no_credential "b.psc" _ _).
  - apply follows_now.
  - vm_compute. reflexivity.
  - vm_compute. reflexivity.
  - apply follows_restart, follows_now.
Defined.

(** X21.  A file that cannot be read, tokenized or parsed disturbs
    nothing.  It is reported with its error between the reports of the
    files before and after it, which are what they would be without it,
    and the run of [main] ends in the same world as without the file. *)
Theorem failing_file_disturbs_nothing
    env (algo_dir : string) (kb_file : KnowledgeBase.file_state)
    (before after : list (string * (string + string)))
    (filename : string) (read : string + string) (msg : string) :
  front_failure read = Some msg ->
  (forall w,
     Main.analyze_files env algo_dir (before ++ (filename, read) :: after) w
     = (fst (Main.analyze_files env algo_dir before w)
          ++ Main.report (algo_dir +:+ "/" +:+ filename) ("  Error: " +:+ msg)
          ++ fst (Main.analyze_files env algo_dir after
                    (snd (Main.analyze_files env algo_dir before w))),
        snd (Main.analyze_files env algo_dir (before ++ after) w)))
  /\ snd (Main.main env algo_dir kb_file
            (Some (before ++ (filename, read) :: after)))
     = snd (Main.main env algo_dir kb_file (Some (before ++ after))).
Proof.
  intros Hbad.
  assert (forall w,
     Main.analyze_files env algo_dir (before ++ (filename, read) :: after) w
     = (fst (Main.analyze_files env algo_dir before w)
          ++ Main.report (algo_dir +:+ "/" +:+ filename) ("  Error: " +:+ msg)
          ++ fst (Main.analyze_files env algo_dir after
                    (snd (Main.analyze_files env algo_dir before w))),
        snd (Main.analyze_files env algo_dir (before ++ after) w))) as Hrun.
  { intros w. rewrite !analyze_files_app. cbn [Main.analyze_files].
    rewrite (analyze_file_front_failure _ _ _ _ _ Hbad).
    destruct (Main.analyze_files env algo_dir after _) as [p2 w2].
    reflexivity. }
  split; [exact Hrun|].
  unfold Main.main. rewrite !filter_app, filter_cons.
  destruct (decide (Main.selected (filename, read).1 = true)) as [Hsel|Hsel].
  - set (l1 := filter _ before). set (l2 := filter _ after).
    assert (snd (Main.analyze_files env algo_dir (l1 ++ (filename, read) :: l2)
                   (Analyzer.start kb_file))
            = snd (Main.analyze_files env algo_dir (l1 ++ l2)
                     (Analyzer.start kb_file))) as Hsame.
    { rewrite !analyze_files_app. cbn [Main.analyze_files].
      rewrite (analyze_file_front_failure _ _ _ _ _ Hbad).
      destruct (Main.analyze_files env algo_dir l2 _) as [p2 w2].
      reflexivity. }
    destruct (l1 ++ l2) as [|x l] eqn:E.
    + apply app_eq_nil in E as [-> ->]. simpl.
      rewrite (analyze_file_front_failure _ _ _ _ _ Hbad). reflexivity.
    + rewrite <- Hsame. destruct l1; reflexivity.
  - reflexivity.
Qed.

Lemma failing_file_disturbs_nothing_witness :
  snd (Main.main no_credential "algorithms" KnowledgeBase.Missing
         (Some ([("a.txt", inr independent_nest_source)]
                  ++ ("b.txt", inr "Clase A { x }")
                  :: [("c.psc", inr if_source)])))
  = snd (Main.main no_credential "algorithms" KnowledgeBase.Missing
           (Some ([("a.txt", inr independent_nest_source)]
                    ++ [("c.psc", inr if_source)]))).
Proof.
  refine (proj2 (failing_file_disturbs_nothing no_credential "algorithms"
                   KnowledgeBase.Missing _ _ "b.txt" (inr "Clase A { x }")
                   "Unexpected character '{' on line 1" _)).
  vm_compute. reflexivity.
Defined.

(** ** The length operator *)

(** The tree holds a [UnaryOp] node. *)
Fixpoint Expression_has_unary (e : Expression) : bool :=
  match e with
  | BinaryOp l _ r => Expression_has_unary l || Expression_has_unary r
  | UnaryOp _ _ => true
  | Literal _ _ => false
  | Variable_ _ => false
  | ArrayAccess _ index => Expression_has_unary index
  | FieldAccess _ _ => false
  end.

Fixpoint Statement_has_unary (s : Statement) : bool :=
  match s with
  | Assignment _ v => Expression_has_unary v
  | IfStatement c t e =>
      Expression_has_unary c || Block_has_unary t
      || match e with
         | Some b => Block_has_unary b
         | None => false
         end
  | ForLoop _ a b body =>
      Expression_has_unary a || Expression_has_unary b || Block_has_unary body
  | WhileLoop c body => Expression_has_unary c || Block_has_unary body
  | RepeatLoop c body => Expression_has_unary c || Block_has_unary body
  | Call _ args => existsb Expression_has_unary args
  end
with Block_has_unary (b : Block) : bool :=
  match b with
  | mkBlock l => existsb Statement_has_unary l
  end.

Definition Program_has_unary (p : Program_) : bool :=
  existsb (fun d => Block_has_unary (body d)) (procedures p)
  || Block_has_unary (main_block p).

(** The word [length], in any case, is an identifier. *)
Definition length_is_ID (t : Tokenizer.Token) : Prop :=
  Py.lower (Tokenizer.value t) = "length" -> Tokenizer.type t = "ID".

(** A pattern that never matches the word [length]. *)
Definition not_length (p : Tokenizer.pattern) : Prop :=
  forall s v rest, p s = Some (v, rest) -> Py.lower v <> "length".

(** What a method returns, when it returns, satisfies [Q]. *)
Definition yields {A} (Q : A -> Prop) (r : result (A * nat)) : Prop :=
  match r with
  | inl _ => True
  | inr (a, _) => Q a
  end.

Section LengthTokens.
Import Tokenizer.

Lemma lower_char_l c : Py.lower_char c = "l"%char -> c = "l"%char \/ c = "L"%char.
Proof.
  destruct c as [[] [] [] [] [] [] [] []]; intros H; vm_compute in H;
    try discriminate H; auto.
Qed.

Lemma lower_head c v :
  Py.lower (String c v) = "length" -> c = "l"%char \/ c = "L"%char.
Proof.
  cbn [Py.lower]. intros H. apply lower_char_l. congruence.
Qed.

Lemma span_head p s c a b : span p s = (String c a, b) -> p c = true.
Proof.
  destruct s as [|x s]; cbn [span]; [discriminate|].
  destruct (p x) eqn:Hx; [|discriminate].
  destruct (span p s) as [a' b']. intros H. injection H as <- _ _. exact Hx.
Qed.

Lemma literal_value alternatives s v rest :
  literal alternatives s = Some (v, rest) -> v ∈ alternatives.
Proof.
  induction alternatives as [|a l IH]; cbn [literal]; [discriminate|].
  destruct (Py.strip_prefix a s) as [s'|].
  - intros H. injection H as <- _. apply list_elem_of_here.
  - intros H. apply list_elem_of_further, IH, H.
Qed.

Lemma literal_not_length alternatives :
  Forall (fun a => Py.lower a <> "length") alternatives ->
  not_length (literal alternatives).
Proof.
  intros H s v rest Hm. apply literal_value in Hm.
  rewrite Forall_forall in H. apply H, Hm.
Qed.

(** A keyword that starts with a letter other than l, and whose first
    letter has its two ASCII cases only, never matches a text that is
    [length] in lower case. *)
Lemma keyword_not_length k kw :
  equivalents k = [] -> k <> "l"%char -> not_length (keyword (String k kw)).
Proof.
  intros Hnone Hk s v rest. cbn [keyword].
  destruct (letter k s) as [[c s']|] eqn:Hl; [|discriminate].
  destruct (keyword kw s') as [[v' rest']|]; [|discriminate].
  intros H. injection H as <- _.
  destruct s as [|a s]; cbn [letter] in Hl; [discriminate|].
  destruct (Ascii.eqb k (Py.lower_char a)) eqn:Ha.
  - injection Hl as <- _. apply Ascii.eqb_eq in Ha.
    change (Py.chr a +:+ v') with (String a v'). cbn [Py.lower]. intros E.
    injection E as E _. congruence.
  - rewrite Hnone in Hl. discriminate.
Qed.

Lemma TOKEN_TYPES_length :
  Forall (fun entry => fst entry = "ID" \/ not_length (snd entry)) TOKEN_TYPES.
Proof.
  unfold TOKEN_TYPES.
  repeat (apply Forall_cons_2; [cbn [fst snd]|]); try apply Forall_nil_2.
  all: try (right; apply literal_not_length;
            repeat (apply Forall_cons_2; [vm_compute; discriminate|]);
            apply Forall_nil_2).
  - right. intros s v rest. unfold comment.
    destruct (Py.strip_prefix glyph_comment s) as [s'|]; [|discriminate].
    destruct (span _ s') as [text r].
    intros H. injection H as <- _. intros E.
    change (glyph_comment +:+ text)
      with (String (ascii_of_N 226)
              (String (ascii_of_N 150) (String (ascii_of_N 186) text))) in E.
    apply lower_head in E. destruct E as [E|E]; vm_compute in E; discriminate E.
  - right. intros [|c s] v rest; cbn [string_literal]; [discriminate|].
    destruct (Ascii.eqb c Py.dq); [|discriminate].
    destruct (span _ s) as [text [|q r]]; [discriminate|].
    intros H. injection H as <- _. intros E.
    apply lower_head in E. destruct E as [E|E]; vm_compute in E; discriminate E.
  - right. intros s v rest. unfold number.
    destruct (span Py.is_digit s) as [[|d whole] r] eqn:Hsp; [discriminate|].
    apply span_head in Hsp.
    assert (forall tail, Py.lower (String d tail) <> "length") as Hd.
    { intros tail E. apply lower_head in E.
      destruct E as [->| ->]; vm_compute in Hsp; discriminate Hsp. }
    destruct r as [|c r]; [intros H; injection H as <- _; apply Hd|].
    destruct (Ascii.ascii_dec c ".") as [->|Hc].
    + destruct (span Py.is_digit r) as [[|f frac] r'].
      * intros H. injection H as <- _. apply Hd.
      * intros H. injection H as <- _. apply Hd.
    + destruct c as [[] [] [] [] [] [] [] []];
        try (intros H; injection H as <- _; apply Hd).
      congruence.
  - right. apply keyword_not_length; [reflexivity|discriminate].
  - right. apply keyword_not_length; [reflexivity|discriminate].
  - left. reflexivity.
  - right. intros s v rest. unfold blanks.
    destruct (span _ s) as [[|b text] r] eqn:Hsp; [discriminate|].
    apply span_head in Hsp.
    intros H. injection H as <- _. intros E. apply lower_head in E.
    destruct E as [->| ->]; vm_compute in Hsp; discriminate Hsp.
  - right. intros [|c s] v rest; cbn [any_char]; [discriminate|].
    destruct (Ascii.eqb c Py.lf); [discriminate|].
    destruct (span _ s) as [cont r].
    destruct (Py.in_range 192 255 c) eqn:Hc; intros H; injection H as <- _.
    + intros E. apply lower_head in E.
      destruct E as [->| ->]; vm_compute in Hc; discriminate Hc.
    + intros E. cbn [Py.chr Py.lower] in E. discriminate E.
Qed.

Lemma first_match_length types s token_type v rest :
  Forall (fun entry => fst entry = "ID" \/ not_length (snd entry)) types ->
  first_match types s = Some (token_type, v, rest) ->
  Py.lower v = "length" -> token_type = "ID".
Proof.
  induction 1 as [|[ty p] l Hp _ IH]; cbn [first_match]; [discriminate|].
  destruct (p s) as [[v' s']|] eqn:Hm.
  - intros H. injection H as <- <- _. intros E.
    destruct Hp as [Hp|Hp]; [exact Hp|]. destruct (Hp _ _ _ Hm E).
  - exact IH.
Qed.

Lemma tokenize_from_length fuel code line column tokens result :
  Forall length_is_ID tokens ->
  tokenize_from fuel code line column tokens = ok result ->
  Forall length_is_ID result.
Proof.
  unfold ok, raise. revert code line column tokens.
  induction fuel as [|fuel IH]; intros code line column tokens Hacc;
    destruct code as [|c code]; cbn [tokenize_from]; unfold ok, raise;
    try discriminate;
    try (intros H; injection H as <-; exact Hacc).
  destruct (first_match TOKEN_TYPES (String c code))
    as [[[token_type v] rest]|] eqn:Hm; [|discriminate].
  pose proof (first_match_length _ _ _ _ _ TOKEN_TYPES_length Hm) as Hty.
  repeat case_bool_decide; try discriminate; try (apply IH; exact Hacc).
  apply IH. apply Forall_app. split; [exact Hacc|].
  apply Forall_cons_2; [exact Hty | apply Forall_nil_2].
Qed.

End LengthTokens.

Section NoUnary.
Import Tokenizer Parser.
Variable tokens : list Token.
Hypothesis tokens_length : Forall length_is_ID tokens.

Local Abbreviation plain := (fun e => Expression_has_unary e = false).
Local Abbreviation plain_list :=
  (fun l => existsb Expression_has_unary l = false).
Local Abbreviation plain_statement := (fun s => Statement_has_unary s = false).
Local Abbreviation plain_statements :=
  (fun l => existsb Statement_has_unary l = false).
Local Abbreviation plain_block := (fun b => Block_has_unary b = false).
Local Abbreviation plain_procedures :=
  (fun l => existsb (fun d => Block_has_unary (body d)) l = false).

Lemma yields_bind {A B} (R : A -> Prop) (Q : B -> Prop)
    (m : P A) (k : A -> P B) pos :
  yields R (m pos) ->
  (forall a pos', R a -> yields Q (k a pos')) ->
  yields Q ((m ≫= k) pos).
Proof.
  intros Hm Hk. unfold mbind, P_bind.
  destruct (m pos) as [e|[a pos']]; [exact I|]. apply Hk, Hm.
Qed.

Lemma yields_then {A B} (Q : B -> Prop) (m : P A) (k : A -> P B) pos :
  (forall a pos', yields Q (k a pos')) -> yields Q ((m ≫= k) pos).
Proof.
  intros Hk. unfold mbind, P_bind.
  destruct (m pos) as [e|[a pos']]; [exact I|]. apply Hk.
Qed.

Lemma yields_ret {A} (Q : A -> Prop) (a : A) pos :
  Q a -> yields Q ((mret a : P A) pos).
Proof. intros H. exact H. Qed.

Lemma yields_attr {A B} (Q : B -> Prop) (field : Token -> A) field_name token
    (k : A -> P B) pos :
  (forall t, token = Some t -> yields Q (k (field t) pos)) ->
  yields Q ((attr field field_name token ≫= k) pos).
Proof.
  intros H. destruct token as [t|]; [|exact I]. exact (H t eq_refl).
Qed.

Lemma existsb_snoc {A} (f : A -> bool) l a :
  existsb f l = false -> f a = false -> existsb f (l ++ [a]) = false.
Proof.
  intros Hl Ha. rewrite existsb_app, Hl. cbn [existsb orb]. rewrite Ha.
  reflexivity.
Qed.

(** Binds whose first call returns nothing that is kept in the tree. *)
Ltac skip := apply yields_then; intros ? ?; cbv beta.

Lemma plain_expressions n :
  (forall pos, yields plain (parse_expression tokens n pos))
  /\ (forall pos, yields plain (parse_relational tokens n pos))
  /\ (forall left pos, plain left ->
        yields plain (parse_relational_loop tokens n left pos))
  /\ (forall pos, yields plain (parse_term tokens n pos))
  /\ (forall left pos, plain left ->
        yields plain (parse_term_loop tokens n left pos))
  /\ (forall pos, yields plain (parse_factor tokens n pos))
  /\ (forall left pos, plain left ->
        yields plain (parse_factor_loop tokens n left pos))
  /\ (forall pos, yields plain (parse_primary tokens n pos))
  /\ (forall expr pos, plain expr ->
        yields plain (parse_suffixes tokens n expr pos)).
Proof.
  induction n as [|n IH]; [repeat split; intros; exact I|].
  destruct IH as
    (Hexpr & Hrel & Hrell & Hterm & Hterml & Hfac & Hfacl & Hprim & Hsuf).
  refine (conj _ (conj _ (conj _ (conj _ (conj _ (conj _ (conj _ (conj _ _))))))));
    [intros pos | intros pos | intros left pos Hl
    | intros pos | intros left pos Hl
    | intros pos | intros left pos Hl
    | intros pos | intros expr pos Hx].
  - cbn [parse_expression]. apply Hrel.
  - cbn [parse_relational].
    apply (yields_bind plain); [apply Hterm|]. intros left q1 Hl.
    apply Hrell, Hl.
  - cbn [parse_relational_loop]. rewrite bind_peek.
    destruct (has_type _ _); [|exact Hl]. skip.
    apply (yields_bind plain); [apply Hterm|]. intros right q1 Hr.
    apply Hrell. cbn [Expression_has_unary]. rewrite Hl, Hr. reflexivity.
  - cbn [parse_term].
    apply (yields_bind plain); [apply Hfac|]. intros left q1 Hl.
    apply Hterml, Hl.
  - cbn [parse_term_loop]. rewrite bind_peek.
    destruct (has_type _ _); [|exact Hl]. skip.
    apply (yields_bind plain); [apply Hfac|]. intros right q1 Hr.
    apply Hterml. cbn [Expression_has_unary]. rewrite Hl, Hr. reflexivity.
  - cbn [parse_factor].
    apply (yields_bind plain); [apply Hprim|]. intros left q1 Hl.
    apply Hfacl, Hl.
  - cbn [parse_factor_loop]. rewrite bind_peek.
    destruct (has_type _ _); [|exact Hl]. skip.
    apply (yields_bind plain); [apply Hprim|]. intros right q1 Hr.
    apply Hfacl. cbn [Expression_has_unary]. rewrite Hl, Hr. reflexivity.
  - cbn [parse_primary]. rewrite bind_peek.
    destruct (tokens !! (pos + 0)%nat) as [t|] eqn:Ht.
    + assert (length_is_ID t) as Hid.
      { eapply Forall_lookup_1 in tokens_length; [exact tokens_length|exact Ht]. }
      apply yields_then. intros opened q1. destruct opened.
      * apply (yields_bind plain); [apply Hexpr|]. intros expr q2 Hx.
        skip. exact Hx.
      * apply yields_attr. intros t' Ht'. injection Ht' as <-.
        repeat case_bool_decide.
        -- skip. apply yields_attr. intros; reflexivity.
        -- skip. apply yields_attr. intros; reflexivity.
        -- skip. apply Hsuf. reflexivity.
        -- cbn [says]. case_bool_decide as Hlen; [|exact I].
           apply Hid in Hlen. congruence.
    + apply yields_then. intros opened q1. destruct opened.
      * apply (yields_bind plain); [apply Hexpr|]. intros expr q2 Hx.
        skip. exact Hx.
      * exact I.
  - cbn [parse_suffixes].
    apply yields_then. intros dot q1. destruct dot.
    + skip. apply Hsuf. reflexivity.
    + apply yields_then. intros bracket q2. destruct bracket; [|exact Hx].
      apply (yields_bind plain); [apply Hexpr|]. intros index q3 Hi.
      skip. apply Hsuf. exact Hi.
Qed.

Lemma plain_arguments n args pos :
  plain_list args -> yields plain_list (parse_arguments tokens n args pos).
Proof.
  revert args pos. induction n as [|n IH]; intros args pos Ha; [exact I|].
  cbn [parse_arguments].
  apply (yields_bind plain); [apply plain_expressions|]. intros arg q1 Harg.
  apply yields_then. intros comma q2.
  destruct comma; [apply IH|]; apply existsb_snoc; assumption.
Qed.

Lemma plain_call n pos : yields plain_statement (parse_call tokens n pos).
Proof.
  unfold parse_call. skip. skip. skip. rewrite bind_peek.
  apply yields_attr. intros t Ht.
  apply (yields_bind plain_list).
  { destruct (negb _); [apply plain_arguments|]; reflexivity. }
  intros args q1 Hargs. skip. exact Hargs.
Qed.

Lemma plain_assignment n pos :
  yields plain_statement (parse_assignment tokens n pos).
Proof.
  unfold parse_assignment. skip.
  apply yields_then. intros assigned q1. destruct assigned; cbn [negb].
  - apply (yields_bind plain); [apply plain_expressions|].
    intros v q2 Hv. exact Hv.
  - rewrite bind_peek. apply yields_attr. intros; exact I.
Qed.

Lemma plain_statements_blocks n :
  (forall pos, yields plain_block (parse_block_body tokens n pos))
  /\ (forall stmts pos, plain_statements stmts ->
        yields plain_statements (parse_block_loop tokens n stmts pos))
  /\ (forall pos, yields plain_statement (parse_statement tokens n pos))
  /\ (forall pos, yields plain_statement (parse_if tokens n pos))
  /\ (forall pos, yields plain_statement (parse_for tokens n pos))
  /\ (forall pos, yields plain_statement (parse_while tokens n pos))
  /\ (forall pos, yields plain_statement (parse_repeat tokens n pos)).
Proof.
  induction n as [|n IH]; [repeat split; intros; exact I|].
  destruct IH as (Hbody & Hloop & Hstmt & Hif & Hfor & Hwhile & Hrepeat).
  pose proof (plain_expressions n) as (Hexpr & _).
  refine (conj _ (conj _ (conj _ (conj _ (conj _ (conj _ _))))));
    [intros pos | intros stmts pos Hs | intros pos
    | intros pos | intros pos | intros pos | intros pos].
  - cbn [parse_block_body].
    apply (yields_bind plain_statements); [apply Hloop; reflexivity|].
    intros stmts q1 Hs. exact Hs.
  - cbn [parse_block_loop]. rewrite bind_peek.
    destruct (tokens !! (pos + 0)%nat) as [t|]; [|exact Hs]. cbv zeta.
    case_bool_decide; [exact Hs|].
    apply (yields_bind plain_statement); [apply Hstmt|]. intros stmt q1 Hst.
    apply Hloop, existsb_snoc; assumption.
  - cbn [parse_statement]. rewrite bind_peek.
    apply yields_attr. intros t Ht. cbv zeta.
    repeat case_bool_decide;
      [apply Hif | apply Hfor | apply Hwhile | apply Hrepeat
      | apply plain_call |].
    destruct (has_type _ _); [apply plain_assignment | exact I].
  - cbn [parse_if]. skip. skip.
    apply (yields_bind plain); [apply Hexpr|]. intros c q1 Hc.
    skip. skip. skip.
    apply (yields_bind plain_block); [apply Hbody|]. intros tb q2 Htb.
    skip. rewrite bind_peek.
    destruct (says _ _).
    + skip. skip.
      apply (yields_bind plain_block); [apply Hbody|]. intros eb q3 Heb.
      skip. apply yields_ret. cbn [Statement_has_unary].
      rewrite Hc, Htb, Heb. reflexivity.
    + apply yields_ret. cbn [Statement_has_unary].
      rewrite Hc, Htb. reflexivity.
  - cbn [parse_for]. skip. skip. skip.
    apply (yields_bind plain); [apply Hexpr|]. intros lo q1 Hlo. skip.
    apply (yields_bind plain); [apply Hexpr|]. intros hi q2 Hhi. skip. skip.
    apply (yields_bind plain_block); [apply Hbody|]. intros blk q3 Hblk.
    skip. apply yields_ret. cbn [Statement_has_unary].
    rewrite Hlo, Hhi, Hblk. reflexivity.
  - cbn [parse_while]. skip. skip.
    apply (yields_bind plain); [apply Hexpr|]. intros c q1 Hc.
    skip. skip. skip.
    apply (yields_bind plain_block); [apply Hbody|]. intros blk q2 Hblk.
    skip. apply yields_ret. cbn [Statement_has_unary].
    rewrite Hc, Hblk. reflexivity.
  - cbn [parse_repeat]. skip.
    apply (yields_bind plain_block); [apply Hbody|]. intros blk q1 Hblk.
    skip. skip.
    apply (yields_bind plain); [apply Hexpr|]. intros c q2 Hc.
    skip. apply yields_ret. cbn [Statement_has_unary].
    rewrite Hc, Hblk. reflexivity.
Qed.

Lemma plain_procedure_def n pos :
  yields (fun d => Block_has_unary (body d) = false)
    (parse_procedure_def tokens n pos).
Proof.
  unfold parse_procedure_def. skip. skip. rewrite bind_peek.
  apply yields_attr. intros t Ht. skip. skip. skip.
  apply (yields_bind plain_block); [apply plain_statements_blocks|].
  intros blk q1 Hblk. skip. exact Hblk.
Qed.

Lemma plain_parse_procedures n procedures pos :
  plain_procedures procedures ->
  yields plain_procedures (parse_procedures tokens n procedures pos).
Proof.
  revert procedures pos.
  induction n as [|n IH]; intros procedures pos Hp; [exact I|].
  cbn [parse_procedures]. rewrite !bind_peek.
  destruct (_ && _); [|exact Hp].
  apply (yields_bind (fun d => Block_has_unary (body d) = false));
    [apply plain_procedure_def|].
  intros d q1 Hd. apply IH, existsb_snoc; assumption.
Qed.

Lemma plain_program n pos :
  yields (fun p => Program_has_unary p = false)
    (parse_program_with tokens n pos).
Proof.
  unfold parse_program_with. skip.
  apply (yields_bind plain_procedures);
    [apply plain_parse_procedures; reflexivity|].
  intros ds q1 Hp. rewrite bind_peek.
  apply (yields_bind plain_block).
  { destruct (says _ _); [|reflexivity]. skip.
    apply (yields_bind plain_block); [apply plain_statements_blocks|].
    intros blk q2 Hblk. skip. exact Hblk. }
  intros blk q2 Hblk. unfold yields, mret, P_ret, ok, Program_has_unary.
  cbn [procedures main_block]. rewrite Hp, Hblk. reflexivity.
Qed.

End NoUnary.

(** X22.  The length operator is out of reach.  The tokenizer types the
    word [length], in any case, as an identifier, and [parse_primary]
    tests for an identifier before it tests for [length]: no program that
    the front end returns holds a [UnaryOp] node, in its main block or in
    a procedure.  The word is read as a variable. *)
Theorem length_is_never_an_operator (code : string) (p : Program_) :
  front_end code = ok p -> Program_has_unary p = false.
Proof.
  unfold front_end, rbind, ok.
  destruct (Tokenizer.tokenize code) as [e|tokens] eqn:Ht; [discriminate|].
  assert (Forall length_is_ID tokens) as Hid.
  { eapply tokenize_from_length; [apply Forall_nil_2 | exact Ht]. }
  unfold Parser.parse_program, rbind, ok.
  pose proof (plain_program tokens Hid (16 * length tokens + 16) 0%nat) as H.
  destruct (Parser.parse_program_with tokens _ 0%nat) as [e|[q pos]];
    [discriminate|].
  intros E. injection E as <-. exact H.
Qed.

Lemma length_is_never_an_operator_witness :
  front_end "begin x <- length end"
  = ok (main_program [Assignment "Variable(name='x')" (Variable_ "length")])
  /\ Program_has_unary
       (main_program [Assignment "Variable(name='x')" (Variable_ "length")])
     = false
  /\ front_end "begin x <- length(A) end"
     = raise (SyntaxError
                "Unexpected token Token(LPAREN, (, 1:18) at start of statement").
Proof.
  split; [vm_compute; reflexivity|]. split; [|vm_compute; reflexivity].
  apply (length_is_never_an_operator "begin x <- length end").
  vm_compute. reflexivity.
Defined.

(** ** Straight-line code *)

(** The statement holds no loop. *)
Fixpoint Statement_loop_free (s : Statement) : bool :=
  match s with
  | Assignment _ _ => true
  | IfStatement _ t e =>
      Block_loop_free t
      && match e with
         | Some b => Block_loop_free b
         | None => true
         end
  | ForLoop _ _ _ _ => false
  | WhileLoop _ _ => false
  | RepeatLoop _ _ => false
  | Call _ _ => true
  end
with Block_loop_free (b : Block) : bool :=
  match b with
  | mkBlock l => forallb Statement_loop_free l
  end.

Section StraightLine.
Import Analyzer.
Variable env : AIEngine.env.

Lemma units_lift_one : units (lift (Complexity.add Complexity.one Complexity.one)).
Proof. exact units_ret. Qed.

Lemma units_loop_free :
  (forall s context, Statement_loop_free s = true ->
     units (analyze_Statement env s context))
  /\ (forall b context, Block_loop_free b = true ->
        units (analyze_Block env b context)).
Proof.
  apply Statement_Block_induction.
  - intros t v context _. apply units_Assignment.
  - intros c t e Ht He context Hfree. cbn [Statement_loop_free] in Hfree.
    apply andb_true_iff in Hfree as [Hft Hfe].
    cbn [analyze_Statement]. apply units_memoized.
    apply units_bind; [apply units_Expression|].
    apply units_bind; [apply Ht, Hft|].
    apply units_bind.
    { destruct e; [apply He, Hfe | apply units_ret]. }
    apply units_bind; apply units_lift_one.
  - intros x a b body _ context Hfree. discriminate Hfree.
  - intros c body _ context Hfree. discriminate Hfree.
  - intros c body _ context Hfree. discriminate Hfree.
  - intros p args context _. cbn [analyze_Statement].
    apply units_memoized, units_ret.
  - intros stmts Hl context Hfree. rewrite analyze_Block_eq.
    apply units_memoized, units_sum_costs. cbn [Block_loop_free] in Hfree.
    induction Hl as [|s stmts Hs _ IH]; [apply Forall_nil_2|].
    cbn [forallb] in Hfree. apply andb_true_iff in Hfree as [Hs' Hrest].
    apply Forall_cons_2; [apply Hs, Hs' | apply IH, Hrest].
Qed.

End StraightLine.

(** X23.  Code without loops costs (1, 1, 1).  In a knowledge base that
    holds unit costs only, in particular an empty one, every statement,
    block and program made of assignments, calls and if statements, to any
    depth and with any expressions, is analysed without exception to the
    unit triple, and the knowledge base holds unit costs afterwards. *)
Theorem straight_line_code_costs_one
    env context (w : Analyzer.world) :
  unit_cache w ->
  (forall s, Statement_loop_free s = true ->
     fst (Analyzer.analyze env (NStatement s) context w) = ok Complexity.one
     /\ unit_cache (snd (Analyzer.analyze env (NStatement s) context w)))
  /\ (forall p, Block_loop_free (main_block p) = true ->
        fst (Analyzer.analyze env (NProgram p) context w) = ok Complexity.one
        /\ unit_cache (snd (Analyzer.analyze env (NProgram p) context w))).
Proof.
  intros Hw. destruct (units_loop_free env) as [Hs Hb]. split.
  - intros s Hfree. apply (Hs s _ Hfree w Hw).
  - intros p Hfree. cbn [Analyzer.analyze]. unfold Analyzer.analyze_Program.
    apply (units_memoized _ _ (Hb _ _ Hfree) w Hw).
Qed.

Lemma straight_line_code_costs_one_witness :
  front_end "begin if (x > 0) then begin x <- y + 1 end else begin call f(x, 2) end y <- a[i] end"
  = ok (main_program
          [IfStatement positive_x
             (mkBlock [Assignment "Variable(name='x')"
                         (BinaryOp (Variable_ "y") "+" one_literal)])
             (Some (mkBlock [Call "f" [Variable_ "x"; Literal "2" "Integer"]]));
           Assignment "Variable(name='y')"
             (ArrayAccess "Variable(name='a')" (Variable_ "i"))])
  /\ fst (Analyzer.analyze no_credential
            (NProgram
               (main_program
                  [IfStatement positive_x
                     (mkBlock [Assignment "Variable(name='x')"
                                 (BinaryOp (Variable_ "y") "+" one_literal)])
                     (Some (mkBlock [Call "f" [Variable_ "x"; Literal "2" "Integer"]]));
                   Assignment "Variable(name='y')"
                     (ArrayAccess "Variable(name='a')" (Variable_ "i"))]))
            None fresh)
     = ok Complexity.one.
Proof.
  split; [vm_compute; reflexivity|].
  refine (proj1 (proj2 (straight_line_code_costs_one no_credential None fresh _)
                   _ _)).
  - apply unit_cache_fresh. left. reflexivity.
  - reflexivity.
Defined.
